(** * Hybrid property search: a model of [backend/MatchEngine.py] and
      [backend/main.py]

    The engine keeps a pandas table of listings together with one
    embedding per listing.  [load_source] fills both from a CSV file,
    [_calculate_hard_scores] grades every listing against the price and
    bedroom limits of a query, and [run_search] blends that grade with a
    cosine similarity and sorts the table.  [perform_search] is the HTTP
    route that calls [run_search], keeps the rows above a threshold and
    answers with the first ten.

    pandas, numpy, torch and the sentence-transformers model are not part
    of the repository: what the program asks of them is collected in the
    record [libs], and every statement below is made for an arbitrary
    value of that record.  Python floats are the binary64 numbers of
    [PrimFloat]; Python objects whose type is only known at run time
    (table cells, dictionary values) are elements of [value]. *)

From Stdlib Require Import ZArith List Bool String.
From Stdlib Require Import Reals Lra Psatz.
From Stdlib Require Import Floats.PrimFloat Floats.SpecFloat Floats.FloatOps.
From Stdlib Require Import Floats.FloatAxioms.
From stdpp Require Import base option list sorting gmap strings.

Local Open Scope string_scope.
Local Open Scope Z_scope.

(** ** Python values and exceptions *)

Inductive value :=
| VNone
| VInt (z : Z)
| VFloat (x : float)
| VStr (s : string).

Inductive py_exn :=
| KeyError (key : string)
| TypeError
| ValueError
| OverflowError
| HTTPException (status : Z) (detail : string)
| LibraryError (what : string).

Inductive outcome (A : Type) :=
| Returned (a : A)
| Raised (e : py_exn).
Arguments Returned {A} a.
Arguments Raised {A} e.

#[global] Instance outcome_ret : MRet outcome := λ A a, Returned a.
#[global] Instance outcome_bind : MBind outcome := λ A B f m,
  match m with
  | Returned a => f a
  | Raised e => Raised e
  end.
#[global] Instance outcome_fmap : FMap outcome := λ A B f m,
  match m with
  | Returned a => Returned (f a)
  | Raised e => Raised e
  end.

(** ** binary64 helpers *)

(** [float(z)] for a Python int: round to nearest even. *)
Definition float_of_Z (z : Z) : float :=
  SF2Prim (binary_normalize prec emax z 0 false).

(** An int too large for binary64 raises [OverflowError] when it meets a
    float operand. *)
Definition int_to_float (z : Z) : outcome float :=
  let x := float_of_Z z in
  if is_infinity x then Raised OverflowError else Returned x.

(** [bool.astype(float)] *)
Definition bool_to_float (b : bool) : float :=
  if b then 1%float else 0%float.

(** The integer part of a finite float, [None] for NaN and infinities. *)
Definition trunc_float (x : float) : option Z :=
  match Prim2SF x with
  | S754_zero _ => Some 0
  | S754_finite s m e =>
      let a := if 0 <=? e then Z.pos m * 2 ^ e else Z.pos m / 2 ^ (- e) in
      Some (if s then - a else a)
  | S754_infinity _ | S754_nan => None
  end.

(** A float-to-int64 cast of a value outside the int64 range gives the
    x86-64 "integer indefinite" value. *)
Definition to_int64 (z : Z) : Z :=
  if (- 2 ^ 63 <=? z) && (z <? 2 ^ 63) then z else - 2 ^ 63.

(** [pd.isna] on one cell. *)
Definition isna (v : value) : bool :=
  match v with
  | VNone => true
  | VFloat x => is_nan x
  | VInt _ | VStr _ => false
  end.

(** ** Tables *)

(** A row of [self.data]: the index label given by [read_csv] and the five
    columns the engine keeps. *)
Record row := {
  index : nat;
  Price : value;
  Bedrooms : value;
  Bathrooms : value;
  City : value;
  Description : value
}.

(** A row of the table returned by [run_search]. *)
Record scored_row := {
  listing : row;
  Semantic_Score : float;
  Hard_Score : float;
  Final_Score : float
}.

(** [pd.DataFrame()] has no columns at all; a table with columns may
    still have no rows. *)
Inductive frame (R : Type) :=
| NoColumns
| Table (rows : list R).
Arguments NoColumns {R}.
Arguments Table {R} rows.

(** [df.empty] *)
Definition empty {R} (df : frame R) : bool :=
  match df with
  | NoColumns => true
  | Table [] => true
  | Table (_ :: _) => false
  end.

(** What [pd.read_csv] hands back, seen through the column selection of
    [load_source]: either one of the five columns is not there, or the
    cells of [price], [bedrooms], [bathrooms], [cityname], [body] of each
    line, in file order. *)
Record raw_row := {
  price : value;
  bedrooms : value;
  bathrooms : value;
  cityname : value;
  body : value
}.

Inductive csv_table :=
| LacksColumn (name : string)
| Columns (lines : list raw_row).

(** An embedding: the coordinates of one tensor row. *)
Definition vec := list float.

(** ** The libraries *)

Record libs := {
  (** [pd.read_csv(path, encoding="latin-1", sep=";")] *)
  pd_read_csv : string → outcome csv_table;
  (** [pd.to_numeric(..., errors="coerce")] on a string cell; NaN when the
      text is not a number *)
  pd_parse_number : string → float;
  (** [model.encode(list, convert_to_tensor=True)] *)
  model_encode : list value → outcome (list vec);
  (** [model.encode(text, convert_to_tensor=True)] *)
  model_encode_query : value → outcome vec;
  (** [util.cos_sim(q, embeddings).flatten().tolist()]; the float32
      tensor arithmetic behind it is torch's and is not modelled *)
  util_cos_sim : vec → list vec → list float;
  (** [df.sort_values(by="Final_Score", ascending=False)] *)
  df_sort_values_desc : list scored_row → list scored_row
}.

(** ** Configuration *)

Record weights := { hard : float; semantic : float }.

Record config := {
  FILE_PATH : string;
  MODEL_NAME : string;
  THRESHOLD : float;
  WEIGHTS : weights;
  USER_PREFS : gmap string value
}.

Definition CONFIG : config := {|
  FILE_PATH := "apartments_for_rent.csv";
  MODEL_NAME := "all-MiniLM-L6-v2";
  THRESHOLD := 0x1.999999999999ap-1%float;
  WEIGHTS := {| hard := 0.5%float; semantic := 0.5%float |};
  USER_PREFS :=
    <["query" := VStr "A sunny, modern apartment with two bedrooms, in a safe city neighborhood, with a gym and pool, max rent $2500."]>
    (<["max_price" := VInt 2500]> (<["min_bedrooms" := VInt 2]> ∅))
|}.

(** ** The engine and the world around it *)

Record engine := {
  self_config : config;
  data : frame row;
  corpus_embeddings : option (list vec)
}.

(** [PropertyMatchEngine.__init__] *)
Definition init (cfg : config) : engine :=
  {| self_config := cfg; data := NoColumns; corpus_embeddings := None |}.

Inductive message :=
| Loading (file_path : string)
| Vectorizing (n : nat)
| EngineReady
| CriticalFailure (e : py_exn)
| SearchFailedNoData
| ComputingSimilarity.

(** What the program does to the outside: log records and the texts it
    sends to the model, oldest first. *)
Inductive event :=
| LogInfo (msg : message)
| LogError (msg : message)
| ModelEncode (texts : list value).

Record world := {
  eng : engine;
  trace : list event
}.

Definition fresh (cfg : config) : world :=
  {| eng := init cfg; trace := [] |}.

(** ** Statements that read and write the world, and may raise

    An exception keeps every assignment made before it, as in Python. *)

Definition M (A : Type) : Type := world → outcome A * world.

#[global] Instance M_ret : MRet M := λ A a w, (Returned a, w).
#[global] Instance M_bind : MBind M := λ A B f m w,
  match m w with
  | (Returned a, w') => f a w'
  | (Raised e, w') => (Raised e, w')
  end.

Definition raise {A} (e : py_exn) : M A := λ w, (Raised e, w).

Definition lift {A} (o : outcome A) : M A := λ w, (o, w).

(** [try: body except Exception as e: handler(e)] *)
Definition try_except {A} (body : M A) (handler : py_exn → M A) : M A := λ w,
  match body w with
  | (Returned a, w') => (Returned a, w')
  | (Raised e, w') => handler e w'
  end.

Definition emit (ev : event) : M unit := λ w,
  (Returned tt, {| eng := eng w; trace := trace w ++ [ev] |}).

Definition self : M engine := λ w, (Returned (eng w), w).

Definition set_data (df : frame row) : M unit := λ w,
  (Returned tt,
   {| eng := {| self_config := self_config (eng w);
                data := df;
                corpus_embeddings := corpus_embeddings (eng w) |};
      trace := trace w |}).

Definition set_corpus_embeddings (t : list vec) : M unit := λ w,
  (Returned tt,
   {| eng := {| self_config := self_config (eng w);
                data := data (eng w);
                corpus_embeddings := Some t |};
      trace := trace w |}).

(** [self.data[name]]: the rows, provided the table has columns. *)
Definition data_column (name : string) : M (list row) :=
  e ← self;
  match data e with
  | NoColumns => raise (KeyError name)
  | Table rows => mret rows
  end.

(** [d[key]] on a dictionary. *)
Definition getitem (d : gmap string value) (key : string) : M value :=
  match d !! key with
  | Some v => mret v
  | None => raise (KeyError key)
  end.

(** ** [load_source] *)

Section Engine.

Variable ext : libs.

(** [df[["price", "bedrooms", "bathrooms", "cityname", "body"]]] with the
    columns renamed; the index of [read_csv] numbers the lines from 0. *)
Definition rename_columns (i : nat) (l : raw_row) : row :=
  {| index := i;
     Price := price l;
     Bedrooms := bedrooms l;
     Bathrooms := bathrooms l;
     City := cityname l;
     Description := body l |}.

Definition select_columns (df : csv_table) : outcome (list row) :=
  match df with
  | LacksColumn name => Raised (KeyError name)
  | Columns lines => Returned (imap rename_columns lines)
  end.

Definition placeholder : string := "No description available".

(** [col.fillna(x)] on one cell. *)
Definition fillna (x v : value) : value :=
  if isna v then x else v.

(** [pd.to_numeric(col, errors="coerce")] on one cell, as the binary64
    number of a float64 column: the type pandas gives a column as soon as
    one of its values is missing or is not a whole number. *)
Definition to_numeric (v : value) : float :=
  match v with
  | VNone => nan
  | VInt z => float_of_Z z
  | VFloat x => x
  | VStr s => pd_parse_number ext s
  end.

(** The cell [pd.to_numeric(col, errors="coerce")] leaves in the table.
    A column that [read_csv] delivered as integers stays an int64 column,
    so an integer cell is kept as the integer it is and is later compared
    exactly; any other cell becomes the binary64 number above.  (Integer
    cells standing beside float or text cells in one column are widened
    by pandas; that changes their value only beyond 2^53 and is not
    modelled.) *)
Definition to_numeric_cell (v : value) : value :=
  match v with
  | VInt z => VInt z
  | _ => VFloat (to_numeric v)
  end.

(** [.astype(int)] on one float cell: pandas refuses NaN and infinities. *)
Definition astype_int (x : float) : outcome value :=
  match trunc_float x with
  | Some z => Returned (VInt (to_int64 z))
  | None => Raised ValueError
  end.

Definition with_Description (f : value → value) (r : row) : row :=
  {| index := index r; Price := Price r; Bedrooms := Bedrooms r;
     Bathrooms := Bathrooms r; City := City r;
     Description := f (Description r) |}.

Definition with_Price (f : value → value) (r : row) : row :=
  {| index := index r; Price := f (Price r); Bedrooms := Bedrooms r;
     Bathrooms := Bathrooms r; City := City r;
     Description := Description r |}.

Definition set_Bedrooms (r : row) (b : value) : row :=
  {| index := index r; Price := Price r; Bedrooms := b;
     Bathrooms := Bathrooms r; City := City r;
     Description := Description r |}.

(** [pd.to_numeric(col, errors="coerce").fillna(0).astype(int)] on one
    cell, by way of binary64: exact for every count up to 2^53. *)
Definition clean_bedrooms (v : value) : outcome value :=
  let x := to_numeric v in
  astype_int (if is_nan x then 0%float else x).

(** [df.dropna(subset=["Price"])] *)
Definition dropna_Price (rows : list row) : list row :=
  filter (λ r, isna (Price r) = false) rows.

(** The body of the [try] block. *)
Definition load_try (file_path : string) : M unit :=
  emit (LogInfo (Loading file_path));;
  df ← lift (pd_read_csv ext file_path);
  selected ← lift (select_columns df);
  set_data (Table (take 1000 selected));;
  rows ← data_column "Description";
  set_data (Table (with_Description (fillna (VStr placeholder)) <$> rows));;
  rows ← data_column "Price";
  set_data (Table (with_Price to_numeric_cell <$> rows));;
  rows ← data_column "Bedrooms";
  beds ← lift (mapM (λ r, clean_bedrooms (Bedrooms r)) rows);
  set_data (Table (zip_with set_Bedrooms rows beds));;
  rows ← data_column "Price";
  set_data (Table (dropna_Price rows));;
  rows ← data_column "Description";
  emit (LogInfo (Vectorizing (length rows)));;
  let descriptions := Description <$> rows in
  emit (ModelEncode descriptions);;
  embeddings ← lift (model_encode ext descriptions);
  set_corpus_embeddings embeddings;;
  emit (LogInfo EngineReady).

(** [load_source] returns [self] on both paths; the engine is the state,
    so the model returns nothing. *)
Definition load_source (file_path : string) : M unit :=
  try_except (load_try file_path)
    (λ e, emit (LogError (CriticalFailure e))).

(** ** [_calculate_hard_scores] *)

(** A comparison of two numbers; numpy turns an int into a float when it
    meets a float, and refuses to order anything else. *)
Definition compare_numbers (on_int : Z → Z → bool)
    (on_float : float → float → bool) (a b : value) : outcome bool :=
  match a, b with
  | VInt x, VInt y => Returned (on_int x y)
  | VInt x, VFloat y => x' ← int_to_float x; Returned (on_float x' y)
  | VFloat x, VInt y => y' ← int_to_float y; Returned (on_float x y')
  | VFloat x, VFloat y => Returned (on_float x y)
  | _, _ => Raised TypeError
  end.

Definition value_le : value → value → outcome bool :=
  compare_numbers Z.leb PrimFloat.leb.

Definition value_ge : value → value → outcome bool :=
  compare_numbers Z.geb (λ x y, PrimFloat.leb y x).

(** pandas refuses to order a numeric column against a text before it
    looks at any cell. *)
Definition check_scalar (v : value) : outcome unit :=
  match v with
  | VStr _ => Raised TypeError
  | VNone | VInt _ | VFloat _ => Returned tt
  end.

(** [col <= v] and [col >= v].  Against a missing scalar ([None], NaN)
    pandas answers [False] for every row without looking at the cells; it
    raises nothing. *)
Definition series_le (col : list value) (v : value) : outcome (list bool) :=
  if isna v then Returned ((λ _, false) <$> col)
  else check_scalar v;; mapM (λ c, value_le c v) col.

Definition series_ge (col : list value) (v : value) : outcome (list bool) :=
  if isna v then Returned ((λ _, false) <$> col)
  else check_scalar v;; mapM (λ c, value_ge c v) col.

(** The divisor of line 85.  The source writes the literal [2]; the
    expression does not look at the columns it has just added up, so this
    function ignores them. *)
Definition hard_score_divisor (match_columns : list (list float)) : float :=
  2%float.

Definition _calculate_hard_scores (prefs : gmap string value) : M (list float) :=
  rows ← data_column "Price";
  max_price ← getitem prefs "max_price";
  price_mask ← lift (series_le (Price <$> rows) max_price);
  let price_match := bool_to_float <$> price_mask in
  rows ← data_column "Bedrooms";
  min_bedrooms ← getitem prefs "min_bedrooms";
  bed_mask ← lift (series_ge (Bedrooms <$> rows) min_bedrooms);
  let bed_match := bool_to_float <$> bed_mask in
  mret (zip_with
          (λ p b, ((p + b) / hard_score_divisor [price_match; bed_match])%float)
          price_match bed_match).

(** ** [run_search] *)

(** The rows of [self.data.copy()]. *)
Definition rows_of (df : frame row) : list row :=
  match df with
  | NoColumns => []
  | Table rows => rows
  end.

(** [results_df[name] = values] for a Python list: pandas insists on one
    value per row. *)
Definition assign_list {A} (rows : list row) (values : list A) : M (list (row * A)) :=
  if (length rows =? length values)%nat
  then mret (zip rows values)
  else raise ValueError.

Definition score_row (w : weights) (r : row * float) (hard_score : float) : scored_row :=
  {| listing := r.1;
     Semantic_Score := r.2;
     Hard_Score := hard_score;
     Final_Score := (hard w * hard_score + semantic w * r.2)%float |}.

(** Steps 1 to 4 of [run_search] on a loaded engine: the scored table
    before it is sorted. *)
Definition score_table (prefs : gmap string value) (embeddings : list vec)
    : M (list scored_row) :=
  q ← getitem prefs "query";
  emit (ModelEncode [q]);;
  query_emb ← lift (model_encode_query ext q);
  emit (LogInfo ComputingSimilarity);;
  let semantic_scores := util_cos_sim ext query_emb embeddings in
  e ← self;
  with_semantic ← assign_list (rows_of (data e)) semantic_scores;
  hard_scores ← _calculate_hard_scores prefs;
  e ← self;
  mret (zip_with (score_row (WEIGHTS (self_config e))) with_semantic hard_scores).

Definition run_search (prefs : gmap string value) : M (frame scored_row) :=
  e ← self;
  match empty (data e), corpus_embeddings e with
  | false, Some embeddings =>
      results_df ← score_table prefs embeddings;
      mret (Table (df_sort_values_desc ext results_df))
  | _, _ =>
      emit (LogError SearchFailedNoData);;
      mret NoColumns
  end.

(** ** [main.py]: the [/search] route *)

(** The validated request body; a field sent as [null] is [None]. *)
Record SearchRequest := {
  query : string;
  max_price : option Z;
  min_bedrooms : option Z;
  threshold : option float
}.

Definition optional_int (o : option Z) : value :=
  match o with
  | Some z => VInt z
  | None => VNone
  end.

Record response := {
  query_received : string;
  total_matches_above_threshold : nat;
  results : list scored_row
}.

(** [.fillna(0)] on a row of the result table. *)
Definition fillna_float (x : float) : float :=
  if is_nan x then 0%float else x.

Definition fillna_row (r : scored_row) : scored_row :=
  {| listing :=
       {| index := index (listing r);
          Price := fillna (VInt 0) (Price (listing r));
          Bedrooms := fillna (VInt 0) (Bedrooms (listing r));
          Bathrooms := fillna (VInt 0) (Bathrooms (listing r));
          City := fillna (VInt 0) (City (listing r));
          Description := fillna (VInt 0) (Description (listing r)) |};
     Semantic_Score := fillna_float (Semantic_Score r);
     Hard_Score := fillna_float (Hard_Score r);
     Final_Score := fillna_float (Final_Score r) |}.

(** [results[results["Final_Score"] >= t]] for a number [t] *)
Definition above_threshold (t : float) (rows : list scored_row) : list scored_row :=
  filter (λ r, (t <=? Final_Score r)%float = true) rows.

(** [results[mask]] for [mask = results["Final_Score"] >= request.threshold].
    A threshold sent as [null] is [None]; pandas then answers [False] on
    every row, so no row is selected and nothing is raised. *)
Definition rows_above (threshold : option float) (rows : list scored_row)
    : list scored_row :=
  match threshold with
  | Some t => above_threshold t rows
  | None => []
  end.

(** The dictionary [prefs] built from the request. *)
Definition request_prefs (request : SearchRequest) : gmap string value :=
  <["query" := VStr (query request)]>
  (<["max_price" := optional_int (max_price request)]>
   (<["min_bedrooms" := optional_int (min_bedrooms request)]> ∅)).

Definition perform_search (request : SearchRequest) : M response :=
  e ← self;
  if empty (data e)
  then raise (HTTPException 500 "Data source not loaded.")
  else
    let prefs := request_prefs request in
    found ← run_search prefs;
    rows ← match found with
           | NoColumns => raise (KeyError "Final_Score")
           | Table rows => mret rows
           end;
    let selected := rows_above (threshold request) rows in
    let top_matches := take 10 (fillna_row <$> selected) in
    mret {| query_received := query request;
            total_matches_above_threshold := length selected;
            results := top_matches |}.

End Engine.

(** ** [sort_values]

    [results_df.sort_values(by="Final_Score", ascending=False)] is code of
    pandas and numpy, not of the repository.  pandas sets aside the rows
    whose score is missing, reverses the others, asks numpy for an
    ascending [argsort] of their scores with its default kind,
    "quicksort", reverses the answer and puts the rows with a missing
    score last.  numpy's "quicksort" is an introsort: quicksort with a
    median of three, insertion sort on sections of at most 17 elements,
    and heapsort for a section taken up again once the depth bound is
    used up.  The definitions follow numpy's scalar routine; on
    processors for which numpy has vector code another routine runs. *)

#[global] Instance float_inhabited : Inhabited float := populate 0%float.

#[global] Instance scored_row_inhabited : Inhabited scored_row :=
  populate {| listing := {| index := 0; Price := VNone; Bedrooms := VNone;
                            Bathrooms := VNone; City := VNone;
                            Description := VNone |};
              Semantic_Score := 0%float; Hard_Score := 0%float;
              Final_Score := 0%float |}.

(** numpy's order on float64 keys, in which NaN comes last. *)
Definition np_less (a b : float) : bool :=
  (a <? b)%float || (is_nan b && negb (is_nan a)).

Section Quicksort.

(** The keys, by position in the array that is sorted; the lists below
    hold positions. *)
Variable key : nat → float.

(** The inner loop of the insertion sort: [vi] moves towards the front of
    the sorted part, kept here back to front, past every position whose
    key is greater. *)
Fixpoint np_insert (vi : nat) (sorted_rev : list nat) : list nat :=
  match sorted_rev with
  | [] => [vi]
  | vk :: rest =>
      if np_less (key vi) (key vk) then vk :: np_insert vi rest
      else vi :: sorted_rev
  end.

Definition np_insertion_sort (section : list nat) : list nat :=
  reverse (foldl (λ sorted_rev vi, np_insert vi sorted_rev) [] section).

(** [INTP_SWAP(a[i], a[j])] *)
Definition swap (a : list nat) (i j : nat) : list nat :=
  <[i := a !!! j]> (<[j := a !!! i]> a).

(** [while (less(v[*pi], vp)) ++pi], at most [fuel] times *)
Fixpoint scan_up (a : list nat) (vp : float) (pi fuel : nat) : nat :=
  match fuel with
  | O => pi
  | S fuel =>
      if np_less (key (a !!! pi)) vp then scan_up a vp (S pi) fuel else pi
  end.

(** [while (less(vp, v[*pj])) --pj], at most [fuel] times *)
Fixpoint scan_down (a : list nat) (vp : float) (pj fuel : nat) : nat :=
  match fuel with
  | O => pj
  | S fuel =>
      if np_less vp (key (a !!! pj)) then scan_down a vp (pred pj) fuel else pj
  end.

(** The partition loop: both pointers move at least one step, then the
    two positions are swapped unless the pointers have met. *)
Fixpoint partition_loop (a : list nat) (vp : float) (pi pj fuel : nat)
    : list nat * nat :=
  match fuel with
  | O => (a, pi)
  | S fuel =>
      let pi := scan_up a vp (S pi) (length a) in
      let pj := scan_down a vp (pred pj) (length a) in
      if (pj <=? pi)%nat then (a, pi)
      else partition_loop (swap a pi pj) vp pi pj fuel
  end.

(** One partition of a section, counted from 0: the median of the first,
    middle and last key becomes the pivot, is parked next to the end, and
    comes to rest at the position returned. *)
Definition np_partition (a : list nat) : list nat * nat :=
  let pr := (length a - 1)%nat in
  let pm := (pr / 2)%nat in
  let a := if np_less (key (a !!! pm)) (key (a !!! 0%nat)) then swap a pm 0 else a in
  let a := if np_less (key (a !!! pr)) (key (a !!! pm)) then swap a pr pm else a in
  let a := if np_less (key (a !!! pm)) (key (a !!! 0%nat)) then swap a pm 0 else a in
  let vp := key (a !!! pm) in
  let a := swap a pm (pr - 1) in
  let '(a, pi) := partition_loop a vp 0 (pr - 1) (length a) in
  (swap a pi (pr - 1), pi).

(** The heap of [aheapsort_] counts its positions from 1. *)
Definition heap_get (a : list nat) (i : nat) : nat := a !!! (i - 1)%nat.

Definition heap_set (a : list nat) (i x : nat) : list nat :=
  <[(i - 1)%nat := x]> a.

(** [tmp] sinks from position [i] into a heap of [n] elements. *)
Fixpoint np_sift (a : list nat) (tmp i j n fuel : nat) : list nat :=
  match fuel with
  | O => heap_set a i tmp
  | S fuel =>
      if (n <? j)%nat then heap_set a i tmp
      else
        let j := if (j <? n)%nat
                    && np_less (key (heap_get a j)) (key (heap_get a (j + 1)))
                 then (j + 1)%nat else j in
        if np_less (key tmp) (key (heap_get a j))
        then np_sift (heap_set a i (heap_get a j)) tmp j (j + j) n fuel
        else heap_set a i tmp
  end.

Fixpoint np_heapify (a : list nat) (l n : nat) : list nat :=
  match l with
  | O => a
  | S l' => np_heapify (np_sift a (heap_get a l) l (l + l) n n) l' n
  end.

Fixpoint np_extract (a : list nat) (n : nat) : list nat :=
  match n with
  | O => a
  | S n' =>
      match n' with
      | O => a
      | S _ =>
          let tmp := heap_get a n in
          let a := heap_set a n (heap_get a 1) in
          np_extract (np_sift a tmp 1 2 n' n') n'
      end
  end.

Definition aheapsort_ (a : list nat) : list nat :=
  let n := length a in
  np_extract (np_heapify a (n / 2) n) n.

(** [aquicksort_] on one section.  numpy keeps the sections still to be
    sorted on a stack; they do not overlap, so each is sorted here where
    it stands.  [from_stack] tells a section taken from the stack (or the
    whole array at the start), for which the depth bound is checked, from
    the smaller half that the loop goes on with at once. *)
Fixpoint aquicksort_ (from_stack : bool) (cdepth : Z) (section : list nat)
    (fuel : nat) : list nat :=
  match fuel with
  | O => section
  | S fuel =>
      if from_stack && (cdepth <? 0) then aheapsort_ section
      else if (17 <? length section)%nat
      then
        let '(a, pi) := np_partition section in
        let left := take pi a in
        let right := drop (S pi) a in
        let cdepth := cdepth - 1 in
        if (pi <? length section - 1 - pi)%nat
        then aquicksort_ false cdepth left fuel
               ++ a !!! pi :: aquicksort_ true cdepth right fuel
        else aquicksort_ true cdepth left fuel
               ++ a !!! pi :: aquicksort_ false cdepth right fuel
      else np_insertion_sort section
  end.

End Quicksort.

(** [v.argsort(kind="quicksort")]; the depth bound is twice the position
    of the highest bit of the length. *)
Definition np_argsort (v : list float) : list nat :=
  let n := length v in
  aquicksort_ (λ i, v !!! i) true (2 * Z.log2 (Z.of_nat n)) (seq 0 n) (S n).

(** The positions pandas hands to numpy and the ones it sets aside. *)
Definition non_nan_idx (items : list float) : list nat :=
  filter (λ i, is_nan (items !!! i) = false) (seq 0 (length items)).

Definition nan_idx (items : list float) : list nat :=
  filter (λ i, is_nan (items !!! i) = true) (seq 0 (length items)).

(** The keys numpy sorts: the scores that are not missing, last first. *)
Definition non_nans_reversed (items : list float) : list float :=
  reverse ((λ i, items !!! i) <$> non_nan_idx items).

(** [nargsort(items, kind="quicksort", ascending=False, na_position="last")] *)
Definition nargsort (items : list float) : list nat :=
  let non_nan_idx := reverse (non_nan_idx items) in
  let indexer :=
    (λ k, non_nan_idx !!! k) <$> np_argsort (non_nans_reversed items) in
  reverse indexer ++ nan_idx items.

(** [df.take(indexer)] *)
Definition df_take (rows : list scored_row) (indexer : list nat) : list scored_row :=
  omap (λ i, rows !! i) indexer.

(** [df.sort_values(by="Final_Score", ascending=False)] as pandas and
    numpy compute it. *)
Definition pandas_sort_values_desc (rows : list scored_row) : list scored_row :=
  df_take rows (nargsort (Final_Score <$> rows)).

(** ** A small concrete setting

    Stand-ins for the libraries, used to run the model: a file system
    with one CSV file, given by its lines; a model that embeds a text as
    its length; a similarity that only tells equal vectors from different
    ones; and an insertion sort that keeps ties in input order. *)

Definition listing_0 : raw_row :=
  {| price := VInt 2000; bedrooms := VInt 2; bathrooms := VFloat 1%float;
     cityname := VStr "Austin"; body := VStr "sunny modern flat" |}.

Definition listing_1 : raw_row :=
  {| price := VInt 3000; bedrooms := VInt 1; bathrooms := VFloat nan;
     cityname := VStr "Austin"; body := VFloat nan |}.

Definition listing_unpriced : raw_row :=
  {| price := VStr "call us"; bedrooms := VStr "two"; bathrooms := VFloat nan;
     cityname := VFloat nan; body := VStr "dark basement" |}.

Definition listing_endless : raw_row :=
  {| price := VInt 900; bedrooms := VFloat infinity; bathrooms := VFloat 1%float;
     cityname := VStr "Reno"; body := VStr "loft" |}.

(** A file of 1001 lines. *)
Definition long_file : list raw_row :=
  (replicate 1000 listing_0 ++ [listing_1])%list.

Definition demo_embed (v : value) : vec :=
  match v with
  | VStr s => [float_of_Z (Z.of_nat (String.length s))]
  | _ => [0%float]
  end.

Fixpoint vec_eqb (a b : vec) : bool :=
  match a, b with
  | [], [] => true
  | x :: a', y :: b' => (x =? y)%float && vec_eqb a' b'
  | _, _ => false
  end.

(** Insertion sort by [Final_Score], largest first and NaN last; a row
    goes in front of the rows of equal score that follow it in the
    input. *)
Fixpoint insert_desc (x : scored_row) (l : list scored_row) : list scored_row :=
  match l with
  | [] => [x]
  | y :: l' =>
      if is_nan (Final_Score y) || (Final_Score y <=? Final_Score x)%float
      then x :: y :: l'
      else y :: insert_desc x l'
  end.

Definition stable_sort_desc (l : list scored_row) : list scored_row :=
  foldr insert_desc [] l.

Definition demo_libs (lines : list raw_row) : libs :=
  {| pd_read_csv := λ path,
       if String.eqb path "data/apartments_for_rent.csv"
       then Returned (Columns lines)
       else Raised (LibraryError "FileNotFoundError");
     pd_parse_number := λ _, nan;
     model_encode := λ texts, Returned (demo_embed <$> texts);
     model_encode_query := λ q, Returned (demo_embed q);
     util_cos_sim := λ q embeddings,
       (λ v, if vec_eqb q v then 1%float else 0.25%float) <$> embeddings;
     df_sort_values_desc := stable_sort_desc |}.

(** The same libraries with another sort. *)
Definition sorting_with (sort : list scored_row → list scored_row) (ext : libs) : libs :=
  {| pd_read_csv := pd_read_csv ext;
     pd_parse_number := pd_parse_number ext;
     model_encode := model_encode ext;
     model_encode_query := model_encode_query ext;
     util_cos_sim := util_cos_sim ext;
     df_sort_values_desc := sort |}.

Definition demo_prefs : gmap string value :=
  <["query" := VStr "sunny modern flat"]>
  (<["max_price" := VInt 2500]> (<["min_bedrooms" := VInt 2]> ∅)).

Definition demo_world : world :=
  (load_source (demo_libs [listing_0; listing_unpriced; listing_1])
     "data/apartments_for_rent.csv" (fresh CONFIG)).2.

(** The scored table of the demo query before it is sorted. *)
Definition demo_scored : list scored_row :=
  Eval vm_compute in
    match (score_table (demo_libs []) demo_prefs
             (default [] (corpus_embeddings (eng demo_world))) demo_world).1 with
    | Returned scored => scored
    | Raised _ => []
    end.

(** An engine loaded from a file that lists the same flat twice. *)
Definition twin_libs : libs := demo_libs [listing_0; listing_0].

Definition twin_world : world :=
  (load_source twin_libs "data/apartments_for_rent.csv" (fresh CONFIG)).2.

(** The libraries with the sort of pandas and numpy. *)
Definition with_pandas_sort (ext : libs) : libs :=
  sorting_with pandas_sort_values_desc ext.

(** A file that lists the same flat [n] times, and the engine loaded from
    it. *)
Definition tied_libs (n : nat) : libs :=
  with_pandas_sort (demo_libs (replicate n listing_0)).

Definition tied_world (n : nat) : world :=
  (load_source (tied_libs n) "data/apartments_for_rent.csv" (fresh CONFIG)).2.

(** ** Cosine similarity

    [util.cos_sim] is code of sentence-transformers and torch, not of the
    repository.  The definitions below follow the specification and the
    library's documented method, with real numbers for the coordinates:
    the rounding of the float32 tensor arithmetic is not modelled. *)

(** Modelled from the spec: the sum of the products of the coordinates of
    two vectors, the numerator of the cosine (section 4.3). *)
Definition dot_product (a b : list R) : R :=
  foldr Rplus 0%R (zip_with Rmult a b).

(** Modelled from the spec: the magnitude of a vector (section 4.3). *)
Definition magnitude (a : list R) : R :=
  R_sqrt.sqrt (dot_product a a).

(** Modelled from the spec: the bound below which the library takes a
    magnitude for zero, 1e-12, so that it never divides by zero
    (section 4.3, "rather than dividing by zero"). *)
Definition eps : R := (/ 10 ^ 12)%R.

(** Modelled from the spec: a vector divided by its magnitude, or by
    [eps] when the magnitude is smaller. *)
Definition normalize (a : list R) : list R :=
  (λ x, x / Rmax (magnitude a) eps)%R <$> a.

(** Modelled from the spec: the cosine similarity of section 4.3, computed
    as the library does, as the product of the two normalised vectors.
    Vectors of different dimensions are refused. *)
Definition cos_sim (a b : list R) : outcome R :=
  if (length a =? length b)%nat
  then Returned (dot_product (normalize a) (normalize b))
  else Raised (LibraryError "RuntimeError").

(** ** Vocabulary of the statements *)

(** The engine cannot search: no rows, or no embeddings. *)
Definition not_ready (e : engine) : Prop :=
  empty (data e) = true ∨ corpus_embeddings e = None.

(** The world after one more event. *)
Definition logged (ev : event) (w : world) : world :=
  {| eng := eng w; trace := trace w ++ [ev] |}.

(** A row as [load_source] leaves it when it succeeds: a price that is a
    number, integer (int64 column) or binary64, and an integer bedroom
    count. *)
Definition cleaned (r : row) : Prop :=
  ((∃ n, Price r = VInt n) ∨ (∃ p, Price r = VFloat p))
  ∧ ∃ b, Bedrooms r = VInt b.

(** The constraint score in the words of the specification.  [priceOk] is
    1.0 when the price is at most the limit and 0.0 otherwise, an integer
    price being compared as an integer; [bedroomsOk] likewise; the two are
    listed, added up, and divided by how many there are. *)
Definition priceOk (price : value) (maxPrice : Z) : float :=
  match price with
  | VInt n => if (n <=? maxPrice)%Z then 1%float else 0%float
  | VFloat p => if (p <=? float_of_Z maxPrice)%float then 1%float else 0%float
  | VNone | VStr _ => 0%float
  end.

Definition bedroomsOk (bedrooms minBedrooms : Z) : float :=
  if (minBedrooms <=? bedrooms)%Z then 1%float else 0%float.

Definition hardScore (price : value) (b : Z) (maxPrice minBedrooms : Z) : float :=
  let subCriteria := [priceOk price maxPrice; bedroomsOk b minBedrooms] in
  (foldr PrimFloat.add 0 subCriteria
   / float_of_Z (Z.of_nat (length subCriteria)))%float.

(** The world after an assignment to [self.data] or to
    [self.corpus_embeddings]. *)
Definition with_data (df : frame row) (w : world) : world :=
  (set_data df w).2.

Definition with_embeddings (t : list vec) (w : world) : world :=
  (set_corpus_embeddings t w).2.

(** A table with integer and binary64 prices side by side in the engine:
    2^53 + 1 as an integer, which no binary64 number equals; a price of
    2500.5; and a price just at the limit. *)
Definition priced_world : world :=
  with_data (Table
    [ {| index := 0; Price := VInt 9007199254740993; Bedrooms := VInt 3;
         Bathrooms := VFloat 1%float; City := VStr "Austin";
         Description := VStr "penthouse" |};
      {| index := 1; Price := VFloat 2500.5%float; Bedrooms := VInt 2;
         Bathrooms := VFloat 1%float; City := VStr "Austin";
         Description := VStr "flat" |};
      {| index := 2; Price := VInt 2500; Bedrooms := VInt 1;
         Bathrooms := VFloat 1%float; City := VStr "Reno";
         Description := VStr "studio" |} ])
    demo_world.

(** The table of [load_source] once the descriptions are filled in and
    the prices are numbers, before the bedroom column is converted. *)
Definition prepared (ext : libs) (lines : list raw_row) : list row :=
  with_Price (to_numeric_cell ext)
    <$> (with_Description (fillna (VStr placeholder))
           <$> take 1000 (imap rename_columns lines)).

(** A row of the engine's table that stems from one of the first 1000
    lines of the file, with the description and the price that
    [load_source] derives from that line. *)
Definition from_line (ext : libs) (lines : list raw_row) (r : row) : Prop :=
  (index r < 1000)%nat
  ∧ ∃ l, lines !! index r = Some l
         ∧ Description r = fillna (VStr placeholder) (body l)
         ∧ Price r = to_numeric_cell ext (price l).

(** What [pd.read_csv] makes of one field of a text column, given the
    texts it takes for missing values: such a field is read as missing,
    any other field is read as its text. *)
Definition read_text (na_values : list string) (field : string) : value :=
  if bool_decide (field ∈ na_values) then VFloat nan else VStr field.

(** The same libraries over a file system where every file has the given
    lines. *)
Definition reading (lines : list raw_row) (ext : libs) : libs :=
  {| pd_read_csv := λ _, Returned (Columns lines);
     pd_parse_number := pd_parse_number ext;
     model_encode := model_encode ext;
     model_encode_query := model_encode_query ext;
     util_cos_sim := util_cos_sim ext;
     df_sort_values_desc := df_sort_values_desc ext |}.

(** What is expected of the model: a batch comes back with one vector per
    text, in the order of the texts, each the vector the model gives that
    text on its own. *)
Definition encode_in_order (ext : libs) : Prop :=
  ∀ texts vectors,
    model_encode ext texts = Returned vectors →
    Forall2 (λ d v, model_encode ext [d] = Returned [v]) texts vectors.

(** The corpus invariant: as many embeddings as rows, the i-th embedding
    being that of the i-th description. *)
Definition aligned (ext : libs) (e : engine) : Prop :=
  ∃ rows embeddings,
    data e = Table rows
    ∧ corpus_embeddings e = Some embeddings
    ∧ length rows = length embeddings
    ∧ Forall2 (λ r v, model_encode ext [Description r] = Returned [v])
        rows embeddings.

(** What can be asked of a loaded engine. *)
Inductive operation :=
| Search (prefs : gmap string value)
| HardScores (prefs : gmap string value)
| Route (request : SearchRequest).

Definition perform (ext : libs) (o : operation) (w : world) : world :=
  match o with
  | Search prefs => (run_search ext prefs w).2
  | HardScores prefs => (_calculate_hard_scores prefs w).2
  | Route request => (perform_search ext request w).2
  end.

Definition after (ext : libs) (ops : list operation) (w : world) : world :=
  foldl (λ w o, perform ext o w) w ops.

(** A statement that leaves the engine as it found it. *)
Definition keeps_engine {A} (m : M A) : Prop :=
  ∀ w, eng (m w).2 = eng w.

(** [a] may stand before [b] in a table sorted by [Final_Score],
    largest first, missing values last. *)
Definition before_desc (a b : scored_row) : Prop :=
  is_nan (Final_Score b) = true
  ∨ (Final_Score b <=? Final_Score a)%float = true.

Definition sorted_desc (l : list scored_row) : Prop :=
  StronglySorted before_desc l.

(** In numpy's order the key at [b] is not less than the key at [a]. *)
Definition key_le (key : nat → float) (a b : nat) : Prop :=
  np_less (key b) (key a) = false.

(** Position [c] of a heap is a child of position [p]. *)
Definition child (p c : nat) : Prop := (c = p + p ∨ c = S (p + p))%nat.

(** From position [l] on, no key among the first [n] is less than a
    child's. *)
Definition heap (key : nat → float) (a : list nat) (l n : nat) : Prop :=
  ∀ p c, (l ≤ p)%nat → child p c → (c ≤ n)%nat →
    np_less (key (heap_get a p)) (key (heap_get a c)) = false.

(** Position [i] may stand before position [j] in a ranking by score,
    largest first: the score at [j] is missing, or it is smaller, or it is
    equal and [i] is the earlier position. *)
Definition ranked (scores : list float) (i j : nat) : Prop :=
  is_nan (scores !!! j) = true
  ∨ (scores !!! j <? scores !!! i)%float = true
  ∨ ((scores !!! i =? scores !!! j)%float = true ∧ (i < j)%nat).

(** The order by key first and by position second. *)
Definition key_then_position (key : nat → float) (a b : nat) : Prop :=
  (key a <? key b)%float = true
  ∨ ((key a =? key b)%float = true ∧ (a < b)%nat).

(** Rows of equal [Final_Score] stand in the order of their index
    labels, which is the order of the corpus. *)
Definition ties_keep_order (l : list scored_row) : Prop :=
  StronglySorted
    (λ a b, (Final_Score a =? Final_Score b)%float = true →
            (index (listing a) < index (listing b))%nat) l.

(** A statement whose result and whose effect on the engine depend on
    the engine alone, not on what was logged before. *)
Definition reads_engine_only {A} (m : M A) : Prop :=
  ∀ w1 w2, eng w1 = eng w2 →
           (m w1).1 = (m w2).1 ∧ eng (m w1).2 = eng (m w2).2.

(** ** The start of the server

    [main.py] builds its engine when the module is loaded, from a path of
    its own. *)
Definition startup (ext : libs) : outcome unit * world :=
  load_source ext "data/apartments_for_rent.csv" (fresh CONFIG).

(** ** The command line of [MatchEngine.py]

    The program under [if __name__ == "__main__"] reads lines from the
    terminal and prints to it.  [int] and [str.lower] are Python's own and
    are taken as given; what is printed is recorded by kind, the table
    with the rows it shows. *)

Record builtins := {
  (** [int(text)] *)
  builtin_int : string → outcome Z;
  (** [text.lower()] *)
  str_lower : string → string
}.

(** One row of the printed table: the six columns the program selects. *)
Record shown_row := {
  shown_Price : value;
  shown_Bedrooms : value;
  shown_City : value;
  shown_Final_Score : float;
  shown_Hard_Score : float;
  shown_Semantic_Score : float
}.

Inductive prompt :=
| AskDescription
| AskMaxPrice
| AskMinBedrooms.

Inductive printed :=
| Banner
| Rule
| Prompt (p : prompt)
| InvalidInput
| TopFiveHeader
| Markdown (rows : list shown_row).

(** How a run of the program ends: its result, the world it leaves, the
    lines it did not read and what it printed. *)
Record session := {
  status : outcome unit;
  final : world;
  unread : list string;
  shown : list printed
}.

Definition printing (out : list printed) (s : session) : session :=
  {| status := status s; final := final s; unread := unread s;
     shown := (out ++ shown s)%list |}.

Definition stopped (o : outcome unit) (w : world) (lines : list string) : session :=
  {| status := o; final := w; unread := lines; shown := [] |}.

(** [input()] at the end of the input. *)
Definition EOFError : py_exn := LibraryError "EOFError".

Definition show_row (r : scored_row) : shown_row :=
  {| shown_Price := Price (listing r);
     shown_Bedrooms := Bedrooms (listing r);
     shown_City := City (listing r);
     shown_Final_Score := Final_Score r;
     shown_Hard_Score := Hard_Score r;
     shown_Semantic_Score := Semantic_Score r |}.

(** [final_ranked[[...six columns...]].head(5)]; on a frame without
    columns the selection raises KeyError for the columns it misses,
    recorded here under the first of them. *)
Definition top_five (final_ranked : frame scored_row) : outcome (list shown_row) :=
  match final_ranked with
  | NoColumns => Raised (KeyError "Price")
  | Table rows => Returned (take 5 (show_row <$> rows))
  end.

(** [int(text or default)] *)
Definition int_or (bi : builtins) (text : string) (default : Z) : outcome Z :=
  if String.eqb text "" then Returned default else builtin_int bi text.

Definition current_prefs (query : string) (max_p min_b : Z) : gmap string value :=
  <["query" := VStr query]>
  (<["max_price" := VInt max_p]> (<["min_bedrooms" := VInt min_b]> ∅)).

(** The end of one turn of the loop, from the search on; [next] is the
    rest of the loop. *)
Definition search_and_show (ext : libs) (query : string) (max_p min_b : Z)
    (lines : list string) (next : world → session) (w : world) : session :=
  match run_search ext (current_prefs query max_p min_b) w with
  | (Raised e, w') => stopped (Raised e) w' lines
  | (Returned final_ranked, w') =>
      printing [TopFiveHeader]
        match top_five final_ranked with
        | Raised e => stopped (Raised e) w' lines
        | Returned rows => printing [Markdown rows] (next w')
        end
  end.

(** The [while True] loop on the lines still to be read. *)
Fixpoint cli_loop (ext : libs) (bi : builtins) (lines : list string) (w : world)
    : session :=
  printing [Rule; Prompt AskDescription]
    match lines with
    | [] => stopped (Raised EOFError) w []
    | query :: lines1 =>
        if String.eqb (str_lower bi query) "exit"
        then stopped (Returned tt) w lines1
        else
          printing [Prompt AskMaxPrice]
            match lines1 with
            | [] => stopped (Raised EOFError) w []
            | price_text :: lines2 =>
                match int_or bi price_text 2500 with
                | Raised ValueError =>
                    printing [InvalidInput]
                      (search_and_show ext query 2500 2 lines2
                         (cli_loop ext bi lines2) w)
                | Raised e => stopped (Raised e) w lines2
                | Returned max_p =>
                    printing [Prompt AskMinBedrooms]
                      match lines2 with
                      | [] => stopped (Raised EOFError) w []
                      | bedrooms_text :: lines3 =>
                          match int_or bi bedrooms_text 2 with
                          | Raised ValueError =>
                              printing [InvalidInput]
                                (search_and_show ext query 2500 2 lines3
                                   (cli_loop ext bi lines3) w)
                          | Raised e => stopped (Raised e) w lines3
                          | Returned min_b =>
                              search_and_show ext query max_p min_b lines3
                                (cli_loop ext bi lines3) w
                          end
                      end
                end
            end
    end.

(** The whole program: build the engine from [CONFIG["FILE_PATH"]], print
    the banner, enter the loop. *)
Definition cli_main (ext : libs) (bi : builtins) (lines : list string) : session :=
  let w := (load_source ext (FILE_PATH CONFIG) (fresh CONFIG)).2 in
  printing [Banner] (cli_loop ext bi lines w).

(** Stand-ins for [int] and [str.lower]: only ["2"], ["3000"] and ["exit"]
    are understood. *)
Definition demo_builtins : builtins :=
  {| builtin_int := λ text,
       if String.eqb text "3000" then Returned 3000
       else if String.eqb text "2" then Returned 2
       else Raised ValueError;
     str_lower := λ text, if String.eqb text "EXIT" then "exit" else text |}.

(** ** More vocabulary *)

(** The row [load_source] makes of line [i] of the file, given the
    bedroom count [b] it computed. *)
Definition cleaned_row (ext : libs) (i : nat) (l : raw_row) (b : value) : row :=
  {| index := i;
     Price := to_numeric_cell ext (price l);
     Bedrooms := b;
     Bathrooms := bathrooms l;
     City := cityname l;
     Description := fillna (VStr placeholder) (body l) |}.

(** The rows that survive the price filter. *)
Definition kept_rows (ext : libs) (lines : list raw_row) (beds : list value) : list row :=
  dropna_Price (zip_with set_Bedrooms (prepared ext lines) beds).

(** The same libraries with a model that is out of order. *)
Definition model_failing (e : py_exn) (ext : libs) : libs :=
  {| pd_read_csv := pd_read_csv ext;
     pd_parse_number := pd_parse_number ext;
     model_encode := λ _, Raised e;
     model_encode_query := λ _, Raised e;
     util_cos_sim := util_cos_sim ext;
     df_sort_values_desc := df_sort_values_desc ext |}.

(** The world [run_search] leaves once it has asked the model for the
    embedding of [q]. *)
Definition after_similarity (q : value) (w : world) : world :=
  logged (LogInfo ComputingSimilarity) (logged (ModelEncode [q]) w).

(** An engine loaded once, then loaded again from a one-line file while
    the model was out of order: one row next to two embeddings. *)
Definition stale_world : world :=
  (load_source (model_failing (LibraryError "RuntimeError") (demo_libs [listing_0]))
     "data/apartments_for_rent.csv" demo_world).2.

(** A file system with a second file, whose only line has a bedroom
    count that is not finite. *)
Definition two_files : libs :=
  {| pd_read_csv := λ path,
       if String.eqb path "other.csv"
       then Returned (Columns [listing_endless])
       else pd_read_csv (demo_libs [listing_0; listing_unpriced; listing_1]) path;
     pd_parse_number := λ _, nan;
     model_encode := λ texts, Returned (demo_embed <$> texts);
     model_encode_query := λ q, Returned (demo_embed q);
     util_cos_sim := util_cos_sim (demo_libs []);
     df_sort_values_desc := stable_sort_desc |}.

(** An engine built from the first file and then loaded again from the
    second. *)
Definition reloaded_world : world :=
  (load_source two_files "other.csv"
     (load_source two_files "data/apartments_for_rent.csv" (fresh CONFIG)).2).2.

(** A row of the answer without any missing value. *)
Definition no_missing (r : scored_row) : Prop :=
  isna (Price (listing r)) = false
  ∧ isna (Bedrooms (listing r)) = false
  ∧ isna (Bathrooms (listing r)) = false
  ∧ isna (City (listing r)) = false
  ∧ isna (Description (listing r)) = false
  ∧ is_nan (Semantic_Score r) = false
  ∧ is_nan (Hard_Score r) = false
  ∧ is_nan (Final_Score r) = false.

(** The same libraries over a file system without the file. *)
Definition without_file (e : py_exn) (ext : libs) : libs :=
  {| pd_read_csv := λ _, Raised e;
     pd_parse_number := pd_parse_number ext;
     model_encode := model_encode ext;
     model_encode_query := model_encode_query ext;
     util_cos_sim := util_cos_sim ext;
     df_sort_values_desc := df_sort_values_desc ext |}.

Definition demo_request : SearchRequest :=
  {| query := "sunny modern flat"; max_price := Some 3000;
     min_bedrooms := Some 2; threshold := Some 0.5%float |}.

(** The answer of the route to the demo request. *)
Definition demo_answer : response :=
  Eval vm_compute in
    match (perform_search (demo_libs []) demo_request demo_world).1 with
    | Returned resp => resp
    | Raised _ => {| query_received := ""; total_matches_above_threshold := 0;
                     results := [] |}
    end.

(** A request whose limits and threshold were all sent as [null]. *)
Definition null_request : SearchRequest :=
  {| query := "sunny modern flat"; max_price := None;
     min_bedrooms := None; threshold := None |}.

(** The answer of the route to it. *)
Definition null_answer : response :=
  Eval vm_compute in
    match (perform_search (demo_libs []) null_request demo_world).1 with
    | Returned resp => resp
    | Raised _ => {| query_received := ""; total_matches_above_threshold := 0;
                     results := [] |}
    end.

(** Two runs of the command line that differ at most in what they
    printed. *)
Definition same_but_for_output (s1 s2 : session) : Prop :=
  status s1 = status s2 ∧ final s1 = final s2 ∧ unread s1 = unread s2.

(** Something printed that is not a table of matches. *)
Definition no_table (p : printed) : Prop :=
  match p with
  | Markdown _ => False
  | _ => True
  end.

(** The line is the word that ends the loop. *)
Definition is_exit (bi : builtins) (line : string) : bool :=
  String.eqb (str_lower bi line) "exit".

(** Something printed that, if a table, has at most five rows. *)
Definition at_most_five (p : printed) : Prop :=
  match p with
  | Markdown rows => (length rows ≤ 5)%nat
  | _ => True
  end.

(** * Properties *)

(** ** Running statements *)

Lemma run_bind {A B} (m : M A) (f : A → M B) (w : world) :
  (m ≫= f) w =
  match m w with
  | (Returned a, w') => f a w'
  | (Raised e, w') => (Raised e, w')
  end.
Proof. reflexivity. Qed.

Ltac run_steps :=
  repeat progress
    (unfold mbind, M_bind, mret, M_ret, data_column, getitem;
     cbn [lift raise emit self set_data set_corpus_embeddings data_column
          getitem select_columns eng data trace corpus_embeddings
          self_config]).

Lemma run_data_column name w rows :
  data (eng w) = Table rows → data_column name w = (Returned rows, w).
Proof. intros H. unfold data_column. rewrite run_bind. simpl. rewrite H. reflexivity. Qed.

Lemma run_data_column_missing name w :
  data (eng w) = NoColumns → data_column name w = (Raised (KeyError name), w).
Proof. intros H. unfold data_column. rewrite run_bind. simpl. rewrite H. reflexivity. Qed.

Lemma run_getitem d key v w :
  d !! key = Some v → getitem d key w = (Returned v, w).
Proof. intros H. unfold getitem. rewrite H. reflexivity. Qed.

Lemma run_getitem_missing d key w :
  d !! key = None → getitem d key w = (Raised (KeyError key), w).
Proof. intros H. unfold getitem. rewrite H. reflexivity. Qed.

Lemma mapM_Returned {A B} (f : A → outcome B) (g : A → B) (l : list A) :
  Forall (λ x, f x = Returned (g x)) l → mapM f l = Returned (g <$> l).
Proof.
  induction 1 as [|x l Hx _ IH]; [reflexivity|].
  cbn [mapM]. rewrite Hx. cbn. rewrite IH. reflexivity.
Qed.

Lemma mapM_Forall2 {A B} (f : A → outcome B) (l : list A) (k : list B) :
  mapM f l = Returned k → Forall2 (λ x y, f x = Returned y) l k.
Proof.
  revert k. induction l as [|x l IH]; intros k; cbn [mapM].
  - intros H. injection H as <-. constructor.
  - destruct (f x) as [y|e] eqn:Hx; [|discriminate]. cbn.
    destruct (mapM f l) as [k'|e]; [|discriminate]. cbn.
    intros H. injection H as <-. constructor; [exact Hx|apply IH; reflexivity].
Qed.

Lemma StronglySorted_seq (j n : nat) : StronglySorted lt (seq j n).
Proof.
  revert j. induction n as [|n IH]; intros j; cbn; constructor; [apply IH|].
  apply Forall_forall. intros k Hk. apply elem_of_seq in Hk. lia.
Qed.

Lemma StronglySorted_fmap_filter {A B} (R : relation B) (f : A → B)
    (P : A → Prop) `{∀ x, Decision (P x)} (l : list A) :
  StronglySorted R (f <$> l) → StronglySorted R (f <$> filter P l).
Proof.
  induction l as [|x l IH]; [intros; constructor|].
  cbn [fmap list_fmap]. intros Hsorted.
  apply StronglySorted_inv in Hsorted as [Hrest Hhead].
  rewrite filter_cons. destruct (decide (P x)); [|exact (IH Hrest)].
  cbn [fmap list_fmap]. constructor; [exact (IH Hrest)|].
  apply Forall_fmap, Forall_forall. intros y Hy.
  apply list_elem_of_filter in Hy as [_ Hy].
  rewrite Forall_fmap in Hhead.
  exact (proj1 (Forall_forall _ _) Hhead y Hy).
Qed.

(** ** The guard of [run_search] *)

Lemma run_search_guard (ext : libs) (prefs : gmap string value) (w : world) :
  not_ready (eng w) →
  run_search ext prefs w = (Returned NoColumns, logged (LogError SearchFailedNoData) w).
Proof.
  intros Hnot. unfold run_search. rewrite run_bind. cbn [self].
  destruct Hnot as [Hempty | Hnone].
  - rewrite Hempty. reflexivity.
  - rewrite Hnone. destruct (empty (data (eng w))); reflexivity.
Qed.

(** C1, as amended: on an engine without rows or without embeddings
    [run_search] writes "Search failed: No data loaded." to the log and
    returns the empty [pd.DataFrame()] as an ordinary result.  Nothing is
    raised, and the engine is left as it was. *)
Theorem run_search_not_ready (ext : libs) (prefs : gmap string value) (w : world) :
  not_ready (eng w) →
  run_search ext prefs w = (Returned NoColumns, logged (LogError SearchFailedNoData) w)
  ∧ eng (run_search ext prefs w).2 = eng w
  ∧ ¬ ∃ e w', run_search ext prefs w = (Raised e, w').
Proof.
  intros Hnot. rewrite (run_search_guard ext prefs w Hnot).
  split; [reflexivity|]. split; [reflexivity|].
  intros (e & w' & H). discriminate H.
Qed.

Lemma run_search_not_ready_witness :
  run_search (demo_libs []) demo_prefs (fresh CONFIG)
  = (Returned NoColumns, logged (LogError SearchFailedNoData) (fresh CONFIG))
  ∧ eng (run_search (demo_libs []) demo_prefs (fresh CONFIG)).2 = eng (fresh CONFIG)
  ∧ ¬ ∃ e w', run_search (demo_libs []) demo_prefs (fresh CONFIG) = (Raised e, w').
Proof. apply run_search_not_ready. left. reflexivity. Defined.

(** C1, as stated, fails: searching an engine that never loaded anything
    raises no error at all. *)
Lemma run_search_unloaded_raises_nothing :
  ¬ ∃ e w', run_search (demo_libs []) demo_prefs (fresh CONFIG) = (Raised e, w').
Proof. intros (e & w' & H). vm_compute in H. discriminate H. Qed.

(** ** The constraint score *)

Lemma run_series_le (rows : list row) (m : Z) :
  Forall cleaned rows →
  is_infinity (float_of_Z m) = false →
  series_le (Price <$> rows) (VInt m)
  = Returned ((λ r, match Price r with
                    | VInt n => (n <=? m)%Z
                    | VFloat p => (p <=? float_of_Z m)%float
                    | _ => false
                    end) <$> rows).
Proof.
  intros Hrows Hm. unfold series_le. cbn [isna check_scalar mbind outcome_bind].
  rewrite (mapM_Returned _ (λ v, match v with
                                 | VInt n => (n <=? m)%Z
                                 | VFloat p => (p <=? float_of_Z m)%float
                                 | _ => false
                                 end)).
  - rewrite <- list_fmap_compose. reflexivity.
  - apply Forall_fmap. eapply Forall_impl; [exact Hrows|].
    intros r [[[n Hp] | [p Hp]] _]; cbn; rewrite Hp; cbn; [reflexivity|].
    unfold int_to_float. rewrite Hm. reflexivity.
Qed.

Lemma run_series_ge (rows : list row) (k : Z) :
  Forall cleaned rows →
  series_ge (Bedrooms <$> rows) (VInt k)
  = Returned ((λ r, match Bedrooms r with
                    | VInt b => (b >=? k)%Z
                    | _ => false
                    end) <$> rows).
Proof.
  intros Hrows. unfold series_ge. cbn [isna check_scalar mbind outcome_bind].
  rewrite (mapM_Returned _ (λ v, match v with
                                 | VInt b => (b >=? k)%Z
                                 | _ => false
                                 end)).
  - rewrite <- list_fmap_compose. reflexivity.
  - apply Forall_fmap. eapply Forall_impl; [exact Hrows|].
    intros r (_ & b & Hb). cbn. rewrite Hb. reflexivity.
Qed.

Lemma zip_with_fmap_same {A B C D} (f : B → C → D) (g : A → B) (h : A → C) (l : list A) :
  zip_with f (g <$> l) (h <$> l) = (λ x, f (g x) (h x)) <$> l.
Proof. induction l as [|x l IH]; [reflexivity|]. cbn. rewrite IH. reflexivity. Qed.

Lemma hardScore_values (price : value) (b m k : Z) :
  hardScore price b m k = 0%float
  ∨ hardScore price b m k = 0.5%float
  ∨ hardScore price b m k = 1%float.
Proof.
  unfold hardScore, priceOk, bedroomsOk.
  destruct price as [|n|p|s]; [|destruct (n <=? m)%Z|destruct (p <=? float_of_Z m)%float|];
    destruct (k <=? b)%Z; cbn; auto.
Qed.

(** The score the source computes for one cleaned row. *)
Lemma run_hard_scores (prefs : gmap string value) (w : world)
    (rows : list row) (m k : Z) :
  data (eng w) = Table rows →
  Forall cleaned rows →
  prefs !! "max_price" = Some (VInt m) →
  prefs !! "min_bedrooms" = Some (VInt k) →
  is_infinity (float_of_Z m) = false →
  _calculate_hard_scores prefs w
  = (Returned
       ((λ r, ((bool_to_float match Price r with
                              | VInt n => (n <=? m)%Z
                              | VFloat p => (p <=? float_of_Z m)%float
                              | _ => false
                              end
                + bool_to_float match Bedrooms r with
                                | VInt b => (b >=? k)%Z
                                | _ => false
                                end) / 2)%float) <$> rows), w).
Proof.
  intros Hdata Hrows Hmax Hmin Hm.
  unfold _calculate_hard_scores.
  rewrite run_bind, (run_data_column _ _ _ Hdata).
  rewrite run_bind, (run_getitem _ _ _ _ Hmax).
  rewrite run_bind. unfold lift at 1. rewrite (run_series_le _ _ Hrows Hm).
  cbn zeta.
  rewrite run_bind, (run_data_column _ _ _ Hdata).
  rewrite run_bind, (run_getitem _ _ _ _ Hmin).
  rewrite run_bind. unfold lift at 1. rewrite (run_series_ge _ _ Hrows).
  cbn zeta. unfold hard_score_divisor.
  rewrite <- !list_fmap_compose, zip_with_fmap_same. reflexivity.
Qed.

(** C2, as amended: with both limits present, every record's hard score
    is the sum of the two binary sub-scores ([priceOk] is 1.0 when the
    price is at most the limit and 0.0 otherwise, [bedroomsOk] is 1.0
    when the bedroom count is at least the limit and 0.0 otherwise)
    divided by their number, and so is one of 0, 0.5 and 1.  The divisor
    is the literal 2 of the source: it is the same whatever columns are
    added up, and is not computed from them. *)
Theorem hard_scores_formula (prefs : gmap string value) (w : world)
    (rows : list row) (m k : Z) :
  data (eng w) = Table rows →
  Forall cleaned rows →
  prefs !! "max_price" = Some (VInt m) →
  prefs !! "min_bedrooms" = Some (VInt k) →
  is_infinity (float_of_Z m) = false →
  (∃ scores,
     _calculate_hard_scores prefs w = (Returned scores, w)
     ∧ Forall2 (λ r h, ∃ b, Bedrooms r = VInt b
                            ∧ h = hardScore (Price r) b m k) rows scores
     ∧ Forall (λ h, h = 0%float ∨ h = 0.5%float ∨ h = 1%float) scores)
  ∧ ∀ match_columns, hard_score_divisor match_columns = 2%float.
Proof.
  intros Hdata Hrows Hmax Hmin Hm. split; [|reflexivity].
  rewrite (run_hard_scores prefs w rows m k Hdata Hrows Hmax Hmin Hm).
  eexists. split; [reflexivity|].
  match goal with
  | |- Forall2 ?R rows ?scores ∧ _ => assert (Hall : Forall2 R rows scores)
  end.
  { apply Forall2_fmap_r, Forall_Forall2_diag.
    eapply Forall_impl; [exact Hrows|].
    intros r (Hprice & b & Hb). exists b. rewrite Hb.
    split; [reflexivity|].
    unfold hardScore, priceOk, bedroomsOk. rewrite Z.geb_leb.
    destruct Hprice as [[n ->] | [p ->]];
      [destruct (n <=? m)%Z|destruct (p <=? float_of_Z m)%float];
      destruct (k <=? b)%Z; reflexivity. }
  split; [exact Hall|].
  apply (Forall2_Forall_r _ _ _ _ Hall).
  apply Forall_forall. intros r _ h (b & _ & ->). apply hardScore_values.
Qed.

Lemma hard_scores_formula_witness :
  (∃ scores,
     _calculate_hard_scores demo_prefs priced_world = (Returned scores, priced_world)
     ∧ Forall2 (λ r h, ∃ b, Bedrooms r = VInt b
                            ∧ h = hardScore (Price r) b 2500 2)
         (rows_of (data (eng priced_world))) scores
     ∧ Forall (λ h, h = 0%float ∨ h = 0.5%float ∨ h = 1%float) scores)
  ∧ ∀ match_columns, hard_score_divisor match_columns = 2%float.
Proof.
  apply (hard_scores_formula demo_prefs priced_world
           (rows_of (data (eng priced_world))) 2500 2).
  - reflexivity.
  - repeat apply List.Forall_cons; try apply List.Forall_nil;
      (split; [|eexists; reflexivity]);
      first [left; eexists; reflexivity | right; eexists; reflexivity].
  - reflexivity.
  - reflexivity.
  - reflexivity.
Defined.

(** An integer price is compared as the integer it is: 2^53 + 1 is above
    a limit of 2^53, although no binary64 number tells the two apart; the
    first row scores 0.5 for its bedrooms alone. *)
Example integer_prices_are_compared_exactly :
  (_calculate_hard_scores (<["max_price" := VInt 9007199254740992]> demo_prefs)
     priced_world).1
  = Returned [0.5%float; 1%float; 0.5%float]
  ∧ (float_of_Z 9007199254740993 <=? float_of_Z 9007199254740992)%float = true.
Proof. split; vm_compute; reflexivity. Qed.

(** C2, as stated, fails for the divisor.  It is not computed from the
    sub-criteria: were a third column added to the sum, the source would
    still divide by 2, not by 3. *)
Lemma hard_score_divisor_is_hardcoded :
  let three_columns := [[1%float]; [1%float]; [1%float]] in
  hard_score_divisor three_columns = 2%float
  ∧ float_of_Z (Z.of_nat (length three_columns)) = 3%float
  ∧ hard_score_divisor three_columns
    ≠ float_of_Z (Z.of_nat (length three_columns)).
Proof.
  cbn zeta. split; [reflexivity|]. split; [vm_compute; reflexivity|].
  intros H. apply (f_equal (λ x, (x =? 2)%float)) in H.
  vm_compute in H. discriminate H.
Qed.

(** C4, as amended: a query that lacks [max_price] or [min_bedrooms] makes
    the scorer raise, and no score is produced.  On a loaded table the
    error is [KeyError] for the first missing key: ["max_price"] when that
    one is absent, ["min_bedrooms"] when only that one is.  The engine is
    not changed.  (The callers always pass both keys.) *)
Theorem hard_scores_need_both_limits (prefs : gmap string value) (w : world) :
  prefs !! "max_price" = None ∨ prefs !! "min_bedrooms" = None →
  ∃ e,
    _calculate_hard_scores prefs w = (Raised e, w)
    ∧ (∀ rows, data (eng w) = Table rows →
               prefs !! "max_price" = None → e = KeyError "max_price")
    ∧ (∀ rows m, data (eng w) = Table rows → Forall cleaned rows →
                 prefs !! "max_price" = Some (VInt m) →
                 is_infinity (float_of_Z m) = false →
                 e = KeyError "min_bedrooms").
Proof.
  intros Hmissing. unfold _calculate_hard_scores.
  destruct (data (eng w)) as [|rows] eqn:Hdata.
  { rewrite run_bind, (run_data_column_missing _ _ Hdata).
    eexists. split; [reflexivity|]. split; intros; discriminate. }
  rewrite run_bind, (run_data_column _ _ _ Hdata).
  destruct (prefs !! "max_price") as [limit|] eqn:Hmax.
  - destruct Hmissing as [Hno | Hmin]; [discriminate Hno|].
    rewrite run_bind, (run_getitem _ _ _ _ Hmax).
    rewrite run_bind. unfold lift at 1.
    destruct (series_le (Price <$> rows) limit) as [price_match|e] eqn:Hle.
    + rewrite run_bind, (run_data_column _ _ _ Hdata).
      rewrite run_bind, (run_getitem_missing _ _ _ Hmin).
      eexists. split; [reflexivity|]. split; [intros; discriminate|reflexivity].
    + eexists. split; [reflexivity|]. split; [intros; discriminate|].
      intros rows' m Hrows' Hclean Hlimit Hm.
      injection Hrows' as <-. injection Hlimit as ->.
      rewrite (run_series_le _ _ Hclean Hm) in Hle. discriminate Hle.
  - rewrite run_bind, (run_getitem_missing _ _ _ Hmax).
    eexists. split; [reflexivity|]. split; [reflexivity|intros; discriminate].
Qed.

Lemma hard_scores_need_both_limits_witness :
  ∃ e,
    _calculate_hard_scores (delete "min_bedrooms" demo_prefs) demo_world
    = (Raised e, demo_world)
    ∧ (∀ rows, data (eng demo_world) = Table rows →
               delete "min_bedrooms" demo_prefs !! "max_price" = None →
               e = KeyError "max_price")
    ∧ (∀ rows m, data (eng demo_world) = Table rows → Forall cleaned rows →
                 delete "min_bedrooms" demo_prefs !! "max_price" = Some (VInt m) →
                 is_infinity (float_of_Z m) = false →
                 e = KeyError "min_bedrooms").
Proof.
  apply (hard_scores_need_both_limits (delete "min_bedrooms" demo_prefs) demo_world).
  right. reflexivity.
Defined.

(** C4, as stated, fails: without [max_price] the scorer does not count
    the price criterion as met, it raises [KeyError]. *)
Lemma hard_scores_without_max_price_raise :
  _calculate_hard_scores (delete "max_price" demo_prefs) demo_world
  = (Raised (KeyError "max_price"), demo_world)
  ∧ ¬ ∃ scores w', _calculate_hard_scores (delete "max_price" demo_prefs) demo_world
                   = (Returned scores, w').
Proof.
  split; [vm_compute; reflexivity|].
  intros (scores & w' & H). vm_compute in H. discriminate H.
Qed.

(** ** [load_source], path by path *)

Lemma load_try_cases (ext : libs) (file_path : string) (w : world) :
  let w0 := logged (LogInfo (Loading file_path)) w in
  match pd_read_csv ext file_path with
  | Raised e => load_try ext file_path w = (Raised e, w0)
  | Returned (LacksColumn name) =>
      load_try ext file_path w = (Raised (KeyError name), w0)
  | Returned (Columns lines) =>
      let rows := prepared ext lines in
      match mapM (λ r, clean_bedrooms ext (Bedrooms r)) rows with
      | Raised e =>
          load_try ext file_path w = (Raised e, with_data (Table rows) w0)
      | Returned beds =>
          let kept := dropna_Price (zip_with set_Bedrooms rows beds) in
          let w1 :=
            logged (ModelEncode (Description <$> kept))
              (logged (LogInfo (Vectorizing (length kept)))
                 (with_data (Table kept) w0)) in
          match model_encode ext (Description <$> kept) with
          | Raised e => load_try ext file_path w = (Raised e, w1)
          | Returned embeddings =>
              load_try ext file_path w
              = (Returned tt, logged (LogInfo EngineReady) (with_embeddings embeddings w1))
          end
      end
  end.
Proof.
  unfold load_try.
  destruct (pd_read_csv ext file_path) as [[name|lines]|e] eqn:Hread; cbn zeta.
  - run_steps. reflexivity.
  - destruct (mapM _ (prepared ext lines)) as [beds|e] eqn:Hbeds.
    + destruct (model_encode ext _) as [embeddings|e] eqn:Hencode.
      * run_steps.
        unfold prepared in Hbeds, Hencode. rewrite Hbeds. run_steps.
        rewrite Hencode. reflexivity.
      * run_steps.
        unfold prepared in Hbeds, Hencode. rewrite Hbeds. run_steps.
        rewrite Hencode. reflexivity.
    + run_steps.
      unfold prepared in Hbeds. rewrite Hbeds. reflexivity.
  - run_steps. reflexivity.
Qed.

Lemma load_source_unfold (ext : libs) (file_path : string) (w : world) :
  load_source ext file_path w =
  match load_try ext file_path w with
  | (Returned a, w') => (Returned a, w')
  | (Raised e, w') => (Returned tt, logged (LogError (CriticalFailure e)) w')
  end.
Proof. reflexivity. Qed.

Lemma load_source_unreadable (ext : libs) (file_path : string) (w : world) :
  (∃ e, pd_read_csv ext file_path = Raised e)
  ∨ (∃ name, pd_read_csv ext file_path = Returned (LacksColumn name)) →
  (load_source ext file_path w).1 = Returned tt
  ∧ eng (load_source ext file_path w).2 = eng w.
Proof.
  intros Hread. rewrite load_source_unfold.
  pose proof (load_try_cases ext file_path w) as Hcases. cbn zeta in Hcases.
  destruct Hread as [[e Hread] | [name Hread]]; rewrite Hread in Hcases;
    rewrite Hcases; split; reflexivity.
Qed.

Lemma prepared_lookup (ext : libs) (lines : list raw_row) (i : nat) (r : row) :
  prepared ext lines !! i = Some r →
  (i < 1000)%nat
  ∧ ∃ l, lines !! i = Some l
         ∧ r = with_Price (to_numeric_cell ext)
                 (with_Description (fillna (VStr placeholder)) (rename_columns i l)).
Proof.
  unfold prepared. rewrite !list_lookup_fmap. intros H.
  destruct (take 1000 (imap rename_columns lines) !! i) as [r0|] eqn:Hr0;
    [|discriminate H].
  apply lookup_take_Some in Hr0 as [Hr0 Hi].
  rewrite list_lookup_imap in Hr0.
  destruct (lines !! i) as [l|]; [|discriminate Hr0].
  cbn in Hr0, H. injection Hr0 as <-. injection H as <-.
  split; [exact Hi|]. exists l. split; reflexivity.
Qed.

Lemma prepared_from_line (ext : libs) (lines : list raw_row) :
  Forall (from_line ext lines) (prepared ext lines).
Proof.
  apply Forall_lookup. intros i r Hr.
  apply prepared_lookup in Hr as (Hi & l & Hl & ->).
  split; [exact Hi|]. exists l. cbn. split; [exact Hl|]. split; reflexivity.
Qed.

Lemma set_Bedrooms_from_line (ext : libs) (lines : list raw_row)
    (rows : list row) (beds : list value) :
  Forall (from_line ext lines) rows →
  Forall (from_line ext lines) (zip_with set_Bedrooms rows beds).
Proof.
  intros Hrows. revert beds.
  induction Hrows as [|r rows Hr _ IH]; intros [|b beds]; cbn; constructor;
    [exact Hr | apply IH].
Qed.

Lemma dropna_from_line (ext : libs) (lines : list raw_row) (rows : list row) :
  Forall (from_line ext lines) rows →
  Forall (from_line ext lines) (dropna_Price rows).
Proof.
  intros Hrows. apply Forall_forall. intros r Hr.
  apply list_elem_of_filter in Hr as [_ Hr].
  exact (proj1 (Forall_forall _ _) Hrows r Hr).
Qed.

(** The table the engine holds once [read_csv] has delivered its lines,
    whatever happens afterwards. *)
Lemma load_source_rows_from_lines (ext : libs) (file_path : string)
    (w : world) (lines : list raw_row) :
  pd_read_csv ext file_path = Returned (Columns lines) →
  Forall (from_line ext lines)
    (rows_of (data (eng (load_source ext file_path w).2))).
Proof.
  intros Hread. rewrite load_source_unfold.
  pose proof (load_try_cases ext file_path w) as Hcases.
  rewrite Hread in Hcases. cbn zeta in Hcases.
  pose proof (prepared_from_line ext lines) as Hprep.
  destruct (mapM _ (prepared ext lines)) as [beds|e].
  - pose proof (dropna_from_line _ _ _
                  (set_Bedrooms_from_line _ _ _ beds Hprep)) as Hkept.
    destruct (model_encode ext _) as [embeddings|e];
      rewrite Hcases; exact Hkept.
  - rewrite Hcases. exact Hprep.
Qed.

Lemma prepared_lookup_iff (ext : libs) (lines : list raw_row) (i : nat) (r : row) :
  prepared ext lines !! i = Some r
  ↔ (i < 1000)%nat ∧ ∃ l, lines !! i = Some l ∧ r = cleaned_row ext i l (bedrooms l).
Proof.
  split.
  - intros Hr. apply prepared_lookup in Hr as (Hi & l & Hl & ->).
    split; [exact Hi|]. exists l. split; [exact Hl|reflexivity].
  - intros (Hi & l & Hl & ->). unfold prepared.
    rewrite !list_lookup_fmap, (lookup_take_lt _ _ _ Hi), list_lookup_imap, Hl.
    reflexivity.
Qed.

Lemma bedded_lookup (ext : libs) (lines : list raw_row) (beds : list value)
    (i : nat) (r : row) :
  mapM (λ r, clean_bedrooms ext (Bedrooms r)) (prepared ext lines) = Returned beds →
  zip_with set_Bedrooms (prepared ext lines) beds !! i = Some r
  ↔ (i < 1000)%nat
    ∧ ∃ l b, lines !! i = Some l
             ∧ clean_bedrooms ext (bedrooms l) = Returned b
             ∧ r = cleaned_row ext i l b.
Proof.
  intros Hbeds. apply mapM_Forall2 in Hbeds.
  rewrite lookup_zip_with_Some. split.
  - intros (r0 & b & -> & Hr0 & Hb).
    pose proof (Forall2_lookup_lr _ _ _ _ _ _ Hbeds Hr0 Hb) as Hclean.
    apply prepared_lookup_iff in Hr0 as (Hi & l & Hl & ->).
    split; [exact Hi|]. exists l, b. split; [exact Hl|]. split; [exact Hclean|reflexivity].
  - intros (Hi & l & b & Hl & Hclean & ->).
    assert (Hr0 : prepared ext lines !! i = Some (cleaned_row ext i l (bedrooms l))).
    { apply prepared_lookup_iff. split; [exact Hi|]. exists l. split; [exact Hl|reflexivity]. }
    destruct (Forall2_lookup_l _ _ _ _ _ Hbeds Hr0) as (b' & Hb' & Hclean').
    cbn in Hclean'. rewrite Hclean in Hclean'. injection Hclean' as <-.
    exists (cleaned_row ext i l (bedrooms l)), b.
    split; [reflexivity|]. split; [exact Hr0|exact Hb'].
Qed.

(** A build that runs to its end, read backwards. *)
Lemma load_try_success (ext : libs) (file_path : string) (w w' : world) :
  load_try ext file_path w = (Returned tt, w') →
  ∃ lines beds embeddings,
    pd_read_csv ext file_path = Returned (Columns lines)
    ∧ mapM (λ r, clean_bedrooms ext (Bedrooms r)) (prepared ext lines) = Returned beds
    ∧ model_encode ext (Description <$> kept_rows ext lines beds) = Returned embeddings
    ∧ w' = logged (LogInfo EngineReady)
             (with_embeddings embeddings
                (logged (ModelEncode (Description <$> kept_rows ext lines beds))
                   (logged (LogInfo (Vectorizing (length (kept_rows ext lines beds))))
                      (with_data (Table (kept_rows ext lines beds))
                         (logged (LogInfo (Loading file_path)) w))))).
Proof.
  intros Hrun.
  pose proof (load_try_cases ext file_path w) as Hcases. cbn zeta in Hcases.
  destruct (pd_read_csv ext file_path) as [[name|lines]|e];
    [rewrite Hcases in Hrun; discriminate Hrun| |rewrite Hcases in Hrun; discriminate Hrun].
  destruct (mapM _ (prepared ext lines)) as [beds|e] eqn:Hbeds;
    [|rewrite Hcases in Hrun; discriminate Hrun].
  destruct (model_encode ext _) as [embeddings|e] eqn:Hencode;
    [|rewrite Hcases in Hrun; discriminate Hrun].
  rewrite Hcases in Hrun. injection Hrun as <-.
  exists lines, beds, embeddings.
  split; [reflexivity|]. split; [exact Hbeds|]. split; [exact Hencode|reflexivity].
Qed.

Lemma numeric_cell_kept (ext : libs) (v : value) :
  is_nan (to_numeric ext v) = false → isna (to_numeric_cell ext v) = false.
Proof. destruct v; cbn; intros H; try exact H; reflexivity. Qed.

Lemma kept_rows_elem (ext : libs) (lines : list raw_row) (beds : list value) (r : row) :
  mapM (λ r, clean_bedrooms ext (Bedrooms r)) (prepared ext lines) = Returned beds →
  r ∈ kept_rows ext lines beds
  ↔ (index r < 1000)%nat
    ∧ ∃ l b, lines !! index r = Some l
             ∧ clean_bedrooms ext (bedrooms l) = Returned b
             ∧ isna (to_numeric_cell ext (price l)) = false
             ∧ r = cleaned_row ext (index r) l b.
Proof.
  intros Hbeds. unfold kept_rows, dropna_Price.
  rewrite list_elem_of_filter, list_elem_of_lookup. split.
  - intros (Hprice & i & Hr).
    apply (bedded_lookup ext lines beds i r Hbeds) in Hr as (Hi & l & b & Hl & Hb & ->).
    cbn in Hprice |- *. split; [exact Hi|]. exists l, b. repeat split; assumption.
  - intros (Hi & l & b & Hl & Hb & Hprice & Hr). split.
    + rewrite Hr. exact Hprice.
    + exists (index r). apply (bedded_lookup ext lines beds _ r Hbeds).
      split; [exact Hi|]. exists l, b. repeat split; assumption.
Qed.

(** ** Failures of [load_source] *)

(** C8, as amended: [load_source] never raises.  Whatever goes wrong
    inside is caught and logged as a critical failure, and the call
    returns.  When the file cannot be read the engine is left as it was.
    After any failed build the embeddings are the ones held before (none,
    on a new engine), and a search on a new engine whose build failed, or
    on a table without rows, answers with the empty [pd.DataFrame()]. *)
Theorem load_source_never_raises (ext : libs) (file_path : string) (w : world) :
  let w' := (load_source ext file_path w).2 in
  (load_source ext file_path w).1 = Returned tt
  ∧ (∀ e, pd_read_csv ext file_path = Raised e → eng w' = eng w)
  ∧ (∀ e, (load_try ext file_path w).1 = Raised e →
          corpus_embeddings (eng w') = corpus_embeddings (eng w)
          ∧ last (trace w') = Some (LogError (CriticalFailure e)))
  ∧ (∀ e prefs, (load_try ext file_path w).1 = Raised e →
                corpus_embeddings (eng w) = None →
                (run_search ext prefs w').1 = Returned NoColumns)
  ∧ (∀ prefs, empty (data (eng w')) = true →
              (run_search ext prefs w').1 = Returned NoColumns).
Proof.
  cbn zeta.
  assert (Hfail : ∀ e, (load_try ext file_path w).1 = Raised e →
            corpus_embeddings (eng (load_source ext file_path w).2)
            = corpus_embeddings (eng w)
            ∧ last (trace (load_source ext file_path w).2)
              = Some (LogError (CriticalFailure e))).
  { intros e He. rewrite load_source_unfold.
    pose proof (load_try_cases ext file_path w) as Hcases. cbn zeta in Hcases.
    destruct (pd_read_csv ext file_path) as [[name|lines]|e0].
    - rewrite Hcases in He |- *. injection He as ->.
      split; [reflexivity|apply last_snoc].
    - destruct (mapM _ (prepared ext lines)) as [beds|e1].
      + destruct (model_encode ext _) as [embeddings|e2];
          rewrite Hcases in He |- *; [discriminate He|].
        injection He as ->. split; [reflexivity|apply last_snoc].
      + rewrite Hcases in He |- *. injection He as ->.
        split; [reflexivity|apply last_snoc].
    - rewrite Hcases in He |- *. injection He as ->.
      split; [reflexivity|apply last_snoc]. }
  split; [|split; [|split; [|split]]].
  - rewrite load_source_unfold.
    destruct (load_try ext file_path w) as [[[]|e] w']; reflexivity.
  - intros e He. rewrite load_source_unfold.
    pose proof (load_try_cases ext file_path w) as Hcases.
    rewrite He in Hcases. cbn zeta in Hcases. rewrite Hcases. reflexivity.
  - exact Hfail.
  - intros e prefs He Hnone. rewrite run_search_guard; [reflexivity|].
    right. rewrite (proj1 (Hfail e He)). exact Hnone.
  - intros prefs Hempty. rewrite run_search_guard; [reflexivity|].
    left. exact Hempty.
Qed.

(** C8, as stated, fails, on three files.  A file that cannot be read: the
    call returns normally.  A file whose only line has no usable price:
    the call returns normally and even logs that the engine is ready.  A
    file with an infinite bedroom count: the build fails half way and the
    engine keeps the rows already read, without embeddings. *)
Lemma load_source_failures_return :
  (load_source (demo_libs []) "missing.csv" (fresh CONFIG)).1 = Returned tt
  ∧ (let w' := (load_source (demo_libs [listing_unpriced])
                  "data/apartments_for_rent.csv" (fresh CONFIG)) in
     w'.1 = Returned tt
     ∧ data (eng w'.2) = Table []
     ∧ last (trace w'.2) = Some (LogInfo EngineReady))
  ∧ (let w' := (load_source (demo_libs [listing_0; listing_endless])
                  "data/apartments_for_rent.csv" (fresh CONFIG)).2 in
     empty (data (eng w')) = false
     ∧ corpus_embeddings (eng w') = None
     ∧ last (trace w') = Some (LogError (CriticalFailure ValueError))).
Proof. cbn zeta. repeat split; vm_compute; reflexivity. Qed.

(** ** Descriptions *)

Lemma filled_description_not_empty (l : raw_row) :
  body l ≠ VStr "" →
  fillna (VStr placeholder) (body l) ≠ VStr ""
  ∧ isna (fillna (VStr placeholder) (body l)) = false.
Proof.
  intros Hbody. unfold fillna.
  destruct (isna (body l)) eqn:Hna.
  - split; [discriminate|reflexivity].
  - split; [exact Hbody|exact Hna].
Qed.

Lemma from_line_descriptions (ext : libs) (lines : list raw_row) (rows : list row) :
  Forall (λ l, body l ≠ VStr "") lines →
  Forall (from_line ext lines) rows →
  Forall (λ d, d ≠ VStr "" ∧ isna d = false) (Description <$> rows).
Proof.
  intros Hlines Hrows. apply Forall_fmap.
  eapply Forall_impl; [exact Hrows|].
  intros r (_ & l & Hl & Hd & _). cbn. rewrite Hd.
  apply filled_description_not_empty.
  exact (proj1 (Forall_forall _ _) Hlines l (list_elem_of_lookup_2 _ _ _ Hl)).
Qed.

Lemma read_text_not_empty (na_values : list string) (field : string) :
  "" ∈ na_values → read_text na_values field ≠ VStr "".
Proof.
  intros Hna. unfold read_text.
  destruct (bool_decide_reflect (field ∈ na_values)) as [Hin|Hout]; [discriminate|].
  intros H. injection H as ->. contradiction.
Qed.

Lemma read_text_missing (na_values : list string) (field : string) :
  field ∈ na_values → isna (read_text na_values field) = true.
Proof.
  intros Hin. unfold read_text. rewrite (bool_decide_eq_true_2 _ Hin). reflexivity.
Qed.

Lemma read_lines_not_empty (na_values : list string) (fields : list string)
    (lines : list raw_row) :
  "" ∈ na_values →
  body <$> lines = read_text na_values <$> fields →
  Forall (λ l, body l ≠ VStr "") lines.
Proof.
  intros Hna Hfields. apply Forall_lookup. intros i l Hl.
  assert (Hcell : (body <$> lines) !! i = Some (body l)).
  { rewrite list_lookup_fmap, Hl. reflexivity. }
  rewrite Hfields, list_lookup_fmap in Hcell.
  destruct (fields !! i) as [field|]; [|discriminate Hcell].
  injection Hcell as <-. apply read_text_not_empty, Hna.
Qed.

(** C7: every line whose description field is empty, or is another of the
    texts that [read_csv] reads as missing, gets the text
    "No description available" before the descriptions are sent to the
    model.  [load_source] calls the model at most once, with the
    descriptions of exactly the rows it keeps; it does call it whenever
    the bedroom column could be converted; and a line among the first
    1000 with a numeric price and such a description is one of those
    rows, with the placeholder as its description.  No text sent to the
    model is the empty string or a missing value. *)
Theorem descriptions_never_empty (ext : libs) (file_path : string) (w : world)
    (lines : list raw_row) (na_values fields : list string) :
  pd_read_csv ext file_path = Returned (Columns lines) →
  "" ∈ na_values →
  body <$> lines = read_text na_values <$> fields →
  let w' := (load_source ext file_path w).2 in
  (∃ new : list event, trace w' = (trace w ++ new)%list
     ∧ (∀ texts, ModelEncode texts ∈ new →
          texts = Description <$> rows_of (data (eng w'))
          ∧ Forall (λ d, d ≠ VStr "" ∧ isna d = false) texts)
     ∧ (∀ beds,
          mapM (λ r, clean_bedrooms ext (Bedrooms r)) (prepared ext lines)
          = Returned beds →
          ModelEncode (Description <$> rows_of (data (eng w'))) ∈ new))
  ∧ Forall (λ r, ∃ l, lines !! index r = Some l
                      ∧ Description r = if isna (body l) then VStr placeholder
                                        else body l)
      (rows_of (data (eng w')))
  ∧ (∀ beds i l field,
       mapM (λ r, clean_bedrooms ext (Bedrooms r)) (prepared ext lines)
       = Returned beds →
       lines !! i = Some l →
       fields !! i = Some field →
       (i < 1000)%nat →
       isna (to_numeric_cell ext (price l)) = false →
       field ∈ na_values →
       ∃ k r, rows_of (data (eng w')) !! k = Some r
              ∧ index r = i
              ∧ Description r = VStr placeholder
              ∧ (Description <$> rows_of (data (eng w'))) !! k
                = Some (VStr placeholder)).
Proof.
  intros Hread Hna Hfields. cbn zeta.
  pose proof (read_lines_not_empty na_values fields lines Hna Hfields) as Hlines.
  pose proof (load_try_cases ext file_path w) as Hcases.
  rewrite Hread in Hcases. cbn zeta in Hcases.
  pose proof (prepared_from_line ext lines) as Hprep.
  split; [|split].
  - rewrite load_source_unfold.
    destruct (mapM _ (prepared ext lines)) as [beds|e].
    + pose proof (from_line_descriptions ext lines _ Hlines
                    (dropna_from_line _ _ _
                       (set_Bedrooms_from_line _ _ _ beds Hprep))) as Hsent.
      destruct (model_encode ext _) as [embeddings|e]; rewrite Hcases; cbn;
        eexists; (split; [rewrite <- !app_assoc; reflexivity|]);
        (split;
         [ intros texts Hin; apply list_elem_of_In in Hin; cbn in Hin;
           repeat (destruct Hin as [Hin|Hin];
                   [try discriminate Hin; injection Hin as <-;
                    (split; [reflexivity|exact Hsent])|]);
           destruct Hin
         | intros ? _; do 2 apply list_elem_of_further; apply list_elem_of_here ]).
    + rewrite Hcases. cbn. eexists.
      split; [rewrite <- !app_assoc; reflexivity|]. split.
      * intros texts Hin. apply list_elem_of_In in Hin. cbn in Hin.
        repeat (destruct Hin as [Hin|Hin]; [discriminate Hin|]).
        destruct Hin.
      * intros beds Hbeds. discriminate Hbeds.
  - eapply Forall_impl; [exact (load_source_rows_from_lines ext file_path w lines Hread)|].
    intros r (_ & l & Hl & Hd & _). exists l. split; [exact Hl|exact Hd].
  - intros beds i l field Hbeds Hl Hfield Hi Hprice Hmissing.
    assert (Hbody : body l = read_text na_values field).
    { assert (Hcell : (body <$> lines) !! i = Some (body l)).
      { rewrite list_lookup_fmap, Hl. reflexivity. }
      rewrite Hfields, list_lookup_fmap, Hfield in Hcell.
      injection Hcell as <-. reflexivity. }
    assert (Hdata : rows_of (data (eng (load_source ext file_path w).2))
                    = kept_rows ext lines beds).
    { rewrite load_source_unfold. rewrite Hbeds in Hcases.
      destruct (model_encode ext _) as [embeddings|e]; rewrite Hcases; reflexivity. }
    rewrite Hdata.
    assert (Hr0 : prepared ext lines !! i = Some (cleaned_row ext i l (bedrooms l))).
    { apply prepared_lookup_iff. split; [exact Hi|]. exists l. split; [exact Hl|reflexivity]. }
    destruct (Forall2_lookup_l _ _ _ _ _ (mapM_Forall2 _ _ _ Hbeds) Hr0)
      as (b & _ & Hb). cbn in Hb.
    assert (Hin : cleaned_row ext i l b ∈ kept_rows ext lines beds).
    { apply (kept_rows_elem ext lines beds _ Hbeds). cbn.
      split; [exact Hi|]. exists l, b. repeat split; assumption. }
    apply list_elem_of_lookup in Hin as [k Hk].
    assert (Hd : Description (cleaned_row ext i l b) = VStr placeholder).
    { cbn. unfold fillna. rewrite Hbody, (read_text_missing _ _ Hmissing). reflexivity. }
    exists k, (cleaned_row ext i l b).
    split; [exact Hk|]. split; [reflexivity|]. split; [exact Hd|].
    rewrite list_lookup_fmap, Hk. cbn [fmap option_fmap option_map]. rewrite <- Hd.
    reflexivity.
Qed.

Lemma descriptions_never_empty_witness :
  let lines := [listing_0; listing_unpriced; listing_1] in
  let ext := demo_libs lines in
  let w' := (load_source ext "data/apartments_for_rent.csv" (fresh CONFIG)).2 in
  (∃ new : list event, trace w' = (trace (fresh CONFIG) ++ new)%list
     ∧ (∀ texts, ModelEncode texts ∈ new →
          texts = Description <$> rows_of (data (eng w'))
          ∧ Forall (λ d, d ≠ VStr "" ∧ isna d = false) texts)
     ∧ (∀ beds,
          mapM (λ r, clean_bedrooms ext (Bedrooms r)) (prepared ext lines)
          = Returned beds →
          ModelEncode (Description <$> rows_of (data (eng w'))) ∈ new))
  ∧ Forall (λ r, ∃ l, lines !! index r = Some l
                      ∧ Description r = if isna (body l) then VStr placeholder
                                        else body l)
      (rows_of (data (eng w')))
  ∧ (∀ beds i l field,
       mapM (λ r, clean_bedrooms ext (Bedrooms r)) (prepared ext lines)
       = Returned beds →
       lines !! i = Some l →
       ["sunny modern flat"; "dark basement"; ""] !! i = Some field →
       (i < 1000)%nat →
       isna (to_numeric_cell ext (price l)) = false →
       field ∈ [""; "NA"; "NaN"] →
       ∃ k r, rows_of (data (eng w')) !! k = Some r
              ∧ index r = i
              ∧ Description r = VStr placeholder
              ∧ (Description <$> rows_of (data (eng w'))) !! k
                = Some (VStr placeholder)).
Proof.
  apply (descriptions_never_empty
           (demo_libs [listing_0; listing_unpriced; listing_1])
           "data/apartments_for_rent.csv" (fresh CONFIG)
           [listing_0; listing_unpriced; listing_1]
           [""; "NA"; "NaN"] ["sunny modern flat"; "dark basement"; ""]).
  - reflexivity.
  - apply list_elem_of_here.
  - reflexivity.
Defined.

(** The line without a description in the demo file is sent to the model
    as the placeholder. *)
Example demo_placeholder_sent :
  ModelEncode [VStr "sunny modern flat"; VStr "No description available"]
  ∈ trace demo_world.
Proof. vm_compute. do 2 apply list_elem_of_further. apply list_elem_of_here. Qed.

(** ** The engine is read-only after the build *)

Lemma keeps_engine_bind {A B} (m : M A) (f : A → M B) :
  keeps_engine m → (∀ a, keeps_engine (f a)) → keeps_engine (m ≫= f).
Proof.
  intros Hm Hf w. rewrite run_bind. specialize (Hm w).
  destruct (m w) as [[a|e] w1]; cbn in Hm |- *.
  - rewrite Hf. exact Hm.
  - exact Hm.
Qed.

Lemma keeps_engine_ret {A} (a : A) : keeps_engine (mret a).
Proof. intros w. reflexivity. Qed.

Lemma keeps_engine_raise {A} (e : py_exn) : keeps_engine (@raise A e).
Proof. intros w. reflexivity. Qed.

Lemma keeps_engine_lift {A} (o : outcome A) : keeps_engine (lift o).
Proof. intros w. reflexivity. Qed.

Lemma keeps_engine_emit (ev : event) : keeps_engine (emit ev).
Proof. intros w. reflexivity. Qed.

Lemma keeps_engine_self : keeps_engine self.
Proof. intros w. reflexivity. Qed.

Lemma keeps_engine_getitem d key : keeps_engine (getitem d key).
Proof. intros w. unfold getitem. destruct (d !! key); reflexivity. Qed.

Lemma keeps_engine_data_column name : keeps_engine (data_column name).
Proof.
  apply keeps_engine_bind; [apply keeps_engine_self|].
  intros e. destruct (data e); [apply keeps_engine_raise|apply keeps_engine_ret].
Qed.

Lemma keeps_engine_assign_list {A} rows (values : list A) :
  keeps_engine (assign_list rows values).
Proof.
  unfold assign_list.
  destruct (length rows =? length values)%nat;
    [apply keeps_engine_ret|apply keeps_engine_raise].
Qed.

Create HintDb keeps discriminated.
#[local] Hint Resolve keeps_engine_ret keeps_engine_raise keeps_engine_lift
  keeps_engine_emit keeps_engine_self keeps_engine_getitem
  keeps_engine_data_column keeps_engine_assign_list : keeps.

Ltac keeps :=
  repeat first
    [ solve [auto with keeps]
    | apply keeps_engine_bind; [|intros ?] ].

Lemma keeps_engine_hard_scores prefs : keeps_engine (_calculate_hard_scores prefs).
Proof. unfold _calculate_hard_scores. keeps. Qed.

#[local] Hint Resolve keeps_engine_hard_scores : keeps.

Lemma keeps_engine_score_table ext prefs embeddings :
  keeps_engine (score_table ext prefs embeddings).
Proof. unfold score_table. keeps. Qed.

#[local] Hint Resolve keeps_engine_score_table : keeps.

Lemma keeps_engine_run_search ext prefs : keeps_engine (run_search ext prefs).
Proof.
  unfold run_search. apply keeps_engine_bind; [apply keeps_engine_self|].
  intros e. destruct (empty (data e)), (corpus_embeddings e); keeps.
Qed.

Lemma keeps_engine_perform_search ext request :
  keeps_engine (perform_search ext request).
Proof.
  unfold perform_search. apply keeps_engine_bind; [apply keeps_engine_self|].
  intros e. destruct (empty (data e)); [apply keeps_engine_raise|].
  apply keeps_engine_bind; [apply keeps_engine_run_search|].
  intros found. apply keeps_engine_bind.
  { destruct found; auto with keeps. }
  intros rows. apply keeps_engine_ret.
Qed.

Lemma after_keeps_engine ext ops w : eng (after ext ops w) = eng w.
Proof.
  revert w. induction ops as [|o ops IH]; intros w; [reflexivity|].
  change (eng (after ext ops (perform ext o w)) = eng w).
  rewrite IH. destruct o; cbn [perform].
  - apply keeps_engine_run_search.
  - apply keeps_engine_hard_scores.
  - apply keeps_engine_perform_search.
Qed.

(** ** Rows and embeddings stay side by side *)

Lemma load_try_embedded (ext : libs) (file_path : string) (w w' : world) :
  load_try ext file_path w = (Returned tt, w') →
  ∃ rows embeddings,
    data (eng w') = Table rows
    ∧ corpus_embeddings (eng w') = Some embeddings
    ∧ model_encode ext (Description <$> rows) = Returned embeddings.
Proof.
  intros Hrun.
  apply load_try_success in Hrun as (lines & beds & embeddings & _ & _ & Hencode & ->).
  exists (kept_rows ext lines beds), embeddings.
  split; [reflexivity|]. split; [reflexivity|exact Hencode].
Qed.

Lemma load_try_aligned (ext : libs) (file_path : string) (w w' : world) :
  encode_in_order ext →
  load_try ext file_path w = (Returned tt, w') →
  aligned ext (eng w').
Proof.
  intros Hmodel Hrun.
  apply load_try_embedded in Hrun as (rows & embeddings & Hdata & Hemb & Hencode).
  apply Hmodel in Hencode. apply Forall2_fmap_l in Hencode.
  exists rows, embeddings. split; [exact Hdata|]. split; [exact Hemb|].
  split; [exact (Forall2_length _ _ _ Hencode)|exact Hencode].
Qed.

(** C9, as amended: when [load_source] runs to its end, the embeddings the
    engine holds are the model's answer to the descriptions of exactly the
    rows it holds, in row order; so, with a model that answers a batch
    with one vector per text in the order of the texts, there are as many
    embeddings as rows and the i-th embedding is that of the i-th row.
    Searches, scoring and the [/search] route leave the engine, and hence
    this correspondence, untouched; so does a later [load_source] of a
    file that cannot be read; and a later [load_source] that runs to its
    end sets it up again for the new table.  (A later [load_source] that
    fails after it has replaced the table is not covered: it breaks the
    correspondence.) *)
Theorem load_source_aligns (ext : libs) (file_path : string) (w w' : world) :
  load_try ext file_path w = (Returned tt, w') →
  load_source ext file_path w = (Returned tt, w')
  ∧ (∃ rows embeddings,
       data (eng w') = Table rows
       ∧ corpus_embeddings (eng w') = Some embeddings
       ∧ model_encode ext (Description <$> rows) = Returned embeddings)
  ∧ (∀ ops, eng (after ext ops w') = eng w')
  ∧ (∀ ops path,
       (∃ e, pd_read_csv ext path = Raised e)
       ∨ (∃ name, pd_read_csv ext path = Returned (LacksColumn name)) →
       eng (load_source ext path (after ext ops w')).2 = eng w')
  ∧ (encode_in_order ext →
     (∀ ops, aligned ext (eng (after ext ops w')))
     ∧ (∀ ops path w'',
          load_try ext path (after ext ops w') = (Returned tt, w'') →
          aligned ext (eng w''))).
Proof.
  intros Hrun. split; [|split; [|split; [|split]]].
  - rewrite load_source_unfold, Hrun. reflexivity.
  - exact (load_try_embedded ext file_path w w' Hrun).
  - intros ops. apply after_keeps_engine.
  - intros ops path Hread.
    destruct (load_source_unreadable ext path (after ext ops w') Hread) as [_ Heng].
    rewrite Heng. apply after_keeps_engine.
  - intros Hmodel. split.
    + intros ops. rewrite after_keeps_engine.
      exact (load_try_aligned ext file_path w w' Hmodel Hrun).
    + intros ops path w'' Hagain.
      exact (load_try_aligned ext path _ w'' Hmodel Hagain).
Qed.

Lemma demo_encode_in_order (lines : list raw_row) : encode_in_order (demo_libs lines).
Proof.
  intros texts vectors H. cbn in H. injection H as <-.
  apply Forall2_fmap_r, Forall_Forall2_diag, Forall_forall.
  intros d _. reflexivity.
Qed.

Lemma load_source_aligns_witness :
  let ext := demo_libs [listing_0; listing_unpriced; listing_1] in
  load_source ext "data/apartments_for_rent.csv" (fresh CONFIG)
  = (Returned tt, demo_world)
  ∧ (∃ rows embeddings,
       data (eng demo_world) = Table rows
       ∧ corpus_embeddings (eng demo_world) = Some embeddings
       ∧ model_encode ext (Description <$> rows) = Returned embeddings)
  ∧ (∀ ops, eng (after ext ops demo_world) = eng demo_world)
  ∧ (∀ ops path,
       (∃ e, pd_read_csv ext path = Raised e)
       ∨ (∃ name, pd_read_csv ext path = Returned (LacksColumn name)) →
       eng (load_source ext path (after ext ops demo_world)).2 = eng demo_world)
  ∧ (encode_in_order ext →
     (∀ ops, aligned ext (eng (after ext ops demo_world)))
     ∧ (∀ ops path w'',
          load_try ext path (after ext ops demo_world) = (Returned tt, w'') →
          aligned ext (eng w''))).
Proof.
  apply (load_source_aligns (demo_libs [listing_0; listing_unpriced; listing_1])
           "data/apartments_for_rent.csv" (fresh CONFIG) demo_world).
  vm_compute. reflexivity.
Defined.

(** C9, as stated, fails for a later [load_source].  An engine is built
    from a file of three lines and holds two rows with their two
    embeddings.  It is then loaded from a second file whose only line has
    an infinite bedroom count: the call returns normally, the table is
    that one line, and the embeddings are still the two of the first
    file. *)
Lemma failed_reload_breaks_alignment :
  let built := (load_source two_files "data/apartments_for_rent.csv" (fresh CONFIG)).2 in
  load_try two_files "data/apartments_for_rent.csv" (fresh CONFIG) = (Returned tt, built)
  ∧ encode_in_order two_files
  ∧ aligned two_files (eng built)
  ∧ load_source two_files "other.csv" built = (Returned tt, reloaded_world)
  ∧ length (rows_of (data (eng reloaded_world))) = 1%nat
  ∧ length <$> corpus_embeddings (eng reloaded_world) = Some 2%nat
  ∧ ¬ aligned two_files (eng reloaded_world).
Proof.
  cbn zeta.
  assert (Hmodel : encode_in_order two_files).
  { intros texts vectors H. cbn in H. injection H as <-.
    apply Forall2_fmap_r, Forall_Forall2_diag, Forall_forall.
    intros d _. reflexivity. }
  assert (Hrun : load_try two_files "data/apartments_for_rent.csv" (fresh CONFIG)
                 = (Returned tt,
                    (load_source two_files "data/apartments_for_rent.csv"
                       (fresh CONFIG)).2)).
  { vm_compute. reflexivity. }
  split; [exact Hrun|]. split; [exact Hmodel|].
  split; [exact (load_try_aligned two_files _ _ _ Hmodel Hrun)|].
  split; [vm_compute; reflexivity|]. split; [vm_compute; reflexivity|].
  split; [vm_compute; reflexivity|].
  intros (rows & embeddings & Hdata & Hemb & Hlen & _).
  vm_compute in Hdata, Hemb.
  injection Hdata as <-. injection Hemb as <-. discriminate Hlen.
Qed.

(** ** Only the first 1000 lines *)

Lemma take_imap {A B} (f : nat → A → B) (n : nat) (l : list A) :
  take n (imap f l) = imap f (take n l).
Proof.
  revert f n. induction l as [|x l IH]; intros f [|n]; try reflexivity.
  cbn. rewrite IH. reflexivity.
Qed.

Lemma prepared_take (ext : libs) (lines : list raw_row) :
  prepared ext (take 1000 lines) = prepared ext lines.
Proof.
  unfold prepared. rewrite <- take_imap, take_take, Nat.min_id. reflexivity.
Qed.

Lemma load_try_first_1000 (ext : libs) (file_path : string) (w : world)
    (lines : list raw_row) :
  pd_read_csv ext file_path = Returned (Columns lines) →
  load_try ext file_path w = load_try (reading (take 1000 lines) ext) file_path w.
Proof.
  intros Hread.
  pose proof (load_try_cases ext file_path w) as H1.
  pose proof (load_try_cases (reading (take 1000 lines) ext) file_path w) as H2.
  rewrite Hread in H1. cbn [pd_read_csv reading] in H2. cbn zeta in H1, H2.
  change (prepared (reading (take 1000 lines) ext) (take 1000 lines))
    with (prepared ext (take 1000 lines)) in H2.
  rewrite prepared_take in H2.
  change (clean_bedrooms (reading (take 1000 lines) ext))
    with (clean_bedrooms ext) in H2.
  destruct (mapM _ (prepared ext lines)) as [beds|e].
  - change (model_encode (reading (take 1000 lines) ext))
      with (model_encode ext) in H2.
    destruct (model_encode ext _) as [embeddings|e]; rewrite H1, H2; reflexivity.
  - rewrite H1, H2. reflexivity.
Qed.

Lemma prepared_length (ext : libs) (lines : list raw_row) :
  length (prepared ext lines) = (1000 `min` length lines)%nat.
Proof.
  unfold prepared. rewrite !length_fmap, length_take, length_imap. reflexivity.
Qed.

Lemma prepared_index (ext : libs) (lines : list raw_row) :
  index <$> prepared ext lines = seq 0 (1000 `min` length lines).
Proof.
  apply list_eq. intros i. rewrite list_lookup_fmap.
  destruct (prepared ext lines !! i) as [r|] eqn:Hr.
  - pose proof (lookup_lt_Some _ _ _ Hr) as Hi.
    rewrite prepared_length in Hi.
    apply prepared_lookup_iff in Hr as (_ & l & _ & ->).
    rewrite (lookup_seq_lt _ _ _ Hi). reflexivity.
  - apply lookup_ge_None in Hr. rewrite prepared_length in Hr.
    rewrite (lookup_seq_ge _ _ _ Hr). reflexivity.
Qed.

Lemma kept_rows_index (ext : libs) (lines : list raw_row) (beds : list value) (i : nat) :
  mapM (λ r, clean_bedrooms ext (Bedrooms r)) (prepared ext lines) = Returned beds →
  i ∈ index <$> kept_rows ext lines beds
  ↔ (i < 1000)%nat
    ∧ ∃ l, lines !! i = Some l ∧ isna (to_numeric_cell ext (price l)) = false.
Proof.
  intros Hbeds. rewrite list_elem_of_fmap. split.
  - intros (r & -> & Hr).
    apply (kept_rows_elem ext lines beds r Hbeds) in Hr
      as (Hi & l & b & Hl & _ & Hprice & _).
    split; [exact Hi|]. exists l. split; [exact Hl|exact Hprice].
  - intros (Hi & l & Hl & Hprice).
    assert (Hr0 : prepared ext lines !! i = Some (cleaned_row ext i l (bedrooms l))).
    { apply prepared_lookup_iff. split; [exact Hi|]. exists l. split; [exact Hl|reflexivity]. }
    destruct (Forall2_lookup_l _ _ _ _ _ (mapM_Forall2 _ _ _ Hbeds) Hr0)
      as (b & _ & Hb). cbn in Hb.
    exists (cleaned_row ext i l b). split; [reflexivity|].
    apply (kept_rows_elem ext lines beds _ Hbeds). cbn.
    split; [exact Hi|]. exists l, b. repeat split; assumption.
Qed.

(** C10: [load_source] works on the first 1000 lines of the file and on
    nothing else.  Loading a file gives exactly what loading its first
    1000 lines gives, and every row the engine holds afterwards carries an
    index label below 1000.  All of the first 1000 lines are taken, and
    the cut comes before the price filter: after a build that runs to its
    end, a line number is the label of a row exactly when it is below 1000
    and the price of that line is a number, so line 999 is in whenever its
    price is a number, and line 1000 is out even when lines before it were
    dropped; and when the build stops at the bedroom column, before the
    filter, the table holds the lines 0 to 999 (all lines, for a shorter
    file), one row each.  Nothing is raised or logged for the lines left
    out. *)
Theorem load_source_first_1000 (ext : libs) (file_path : string) (w : world)
    (lines : list raw_row) :
  pd_read_csv ext file_path = Returned (Columns lines) →
  load_source ext file_path w
  = load_source (reading (take 1000 lines) ext) file_path w
  ∧ Forall (λ r, (index r < 1000)%nat)
      (rows_of (data (eng (load_source ext file_path w).2)))
  ∧ (∀ w', load_try ext file_path w = (Returned tt, w') →
       ∀ i, i ∈ index <$> rows_of (data (eng w'))
            ↔ (i < 1000)%nat
              ∧ ∃ l, lines !! i = Some l
                     ∧ isna (to_numeric_cell ext (price l)) = false)
  ∧ (∀ e, mapM (λ r, clean_bedrooms ext (Bedrooms r)) (prepared ext lines) = Raised e →
       index <$> rows_of (data (eng (load_source ext file_path w).2))
       = seq 0 (1000 `min` length lines)).
Proof.
  intros Hread. split; [|split; [|split]].
  - rewrite !load_source_unfold.
    rewrite (load_try_first_1000 ext file_path w lines Hread). reflexivity.
  - eapply Forall_impl;
      [exact (load_source_rows_from_lines ext file_path w lines Hread)|].
    intros r [Hindex _]. exact Hindex.
  - intros w' Hrun i.
    apply load_try_success in Hrun
      as (lines' & beds & embeddings & Hread' & Hbeds & _ & ->).
    rewrite Hread in Hread'. injection Hread' as <-. cbn.
    apply kept_rows_index, Hbeds.
  - intros e Hbeds. rewrite load_source_unfold.
    pose proof (load_try_cases ext file_path w) as Hcases.
    rewrite Hread in Hcases. cbn zeta in Hcases. rewrite Hbeds in Hcases.
    rewrite Hcases. cbn. apply prepared_index.
Qed.

Lemma load_source_first_1000_witness :
  let lines := long_file in
  let ext := demo_libs lines in
  load_source ext "data/apartments_for_rent.csv" (fresh CONFIG)
  = load_source (reading (take 1000 lines) ext) "data/apartments_for_rent.csv"
      (fresh CONFIG)
  ∧ Forall (λ r, (index r < 1000)%nat)
      (rows_of (data (eng (load_source ext "data/apartments_for_rent.csv"
                             (fresh CONFIG)).2)))
  ∧ (∀ w', load_try ext "data/apartments_for_rent.csv" (fresh CONFIG)
           = (Returned tt, w') →
       ∀ i, i ∈ index <$> rows_of (data (eng w'))
            ↔ (i < 1000)%nat
              ∧ ∃ l, lines !! i = Some l
                     ∧ isna (to_numeric_cell ext (price l)) = false)
  ∧ (∀ e, mapM (λ r, clean_bedrooms ext (Bedrooms r)) (prepared ext lines) = Raised e →
       index <$> rows_of (data (eng (load_source ext "data/apartments_for_rent.csv"
                                       (fresh CONFIG)).2))
       = seq 0 (1000 `min` length lines)).
Proof.
  apply (load_source_first_1000 (demo_libs long_file)
           "data/apartments_for_rent.csv" (fresh CONFIG) long_file).
  reflexivity.
Defined.

(** ** Reading a successful run backwards *)

Lemma bind_Returned {A B} (m : M A) (f : A → M B) w b w' :
  (m ≫= f) w = (Returned b, w') →
  ∃ a w1, m w = (Returned a, w1) ∧ f a w1 = (Returned b, w').
Proof.
  rewrite run_bind. destruct (m w) as [[a|e] w1]; [|discriminate].
  intros H. exists a, w1. split; [reflexivity|exact H].
Qed.

Lemma data_column_Returned name w rows w' :
  data_column name w = (Returned rows, w') → w' = w ∧ data (eng w) = Table rows.
Proof.
  unfold data_column. rewrite run_bind. cbn [self].
  destruct (data (eng w)); [discriminate|].
  intros H. injection H as <- <-. split; reflexivity.
Qed.

Lemma getitem_Returned d key w v w' :
  getitem d key w = (Returned v, w') → w' = w ∧ d !! key = Some v.
Proof.
  unfold getitem. destruct (d !! key); [|discriminate].
  intros H. injection H as <- <-. split; reflexivity.
Qed.

Lemma lift_Returned {A} (o : outcome A) w a w' :
  lift o w = (Returned a, w') → w' = w ∧ o = Returned a.
Proof. unfold lift. intros H. injection H as -> <-. split; reflexivity. Qed.

Lemma mapM_length {A B} (f : A → outcome B) (l : list A) (k : list B) :
  mapM f l = Returned k → length k = length l.
Proof.
  revert k. induction l as [|x l IH]; intros k; cbn [mapM].
  - intros H. injection H as <-. reflexivity.
  - destruct (f x) as [y|e]; [|discriminate]. cbn.
    destruct (mapM f l) as [k'|e]; [|discriminate]. cbn.
    intros H. injection H as <-. cbn. rewrite (IH k' eq_refl). reflexivity.
Qed.

Lemma series_le_length col v l :
  series_le col v = Returned l → length l = length col.
Proof.
  unfold series_le. destruct (isna v).
  - intros H. injection H as <-. apply length_fmap.
  - destruct (check_scalar v); [|discriminate]. apply mapM_length.
Qed.

Lemma series_ge_length col v l :
  series_ge col v = Returned l → length l = length col.
Proof.
  unfold series_ge. destruct (isna v).
  - intros H. injection H as <-. apply length_fmap.
  - destruct (check_scalar v); [|discriminate]. apply mapM_length.
Qed.

Lemma hard_scores_Returned prefs w hs w' :
  _calculate_hard_scores prefs w = (Returned hs, w') →
  w' = w ∧ length hs = length (rows_of (data (eng w))).
Proof.
  unfold _calculate_hard_scores. intros H.
  apply bind_Returned in H as (rows & w1 & Hrows & H).
  apply data_column_Returned in Hrows as [-> Hdata].
  apply bind_Returned in H as (limit & w1 & Hlimit & H).
  apply getitem_Returned in Hlimit as [-> _].
  apply bind_Returned in H as (price_match & w1 & Hprice & H).
  apply lift_Returned in Hprice as [-> Hprice].
  apply bind_Returned in H as (rows' & w1 & Hrows' & H).
  apply data_column_Returned in Hrows' as [-> Hdata'].
  apply bind_Returned in H as (least & w1 & Hleast & H).
  apply getitem_Returned in Hleast as [-> _].
  apply bind_Returned in H as (bed_match & w1 & Hbed & H).
  apply lift_Returned in Hbed as [-> Hbed].
  injection H as <- <-. split; [reflexivity|].
  apply series_le_length in Hprice. apply series_ge_length in Hbed.
  rewrite length_fmap in Hprice, Hbed.
  rewrite Hdata' in Hdata. injection Hdata as ->.
  rewrite length_zip_with, !length_fmap, Hprice, Hbed, Hdata'. cbn. lia.
Qed.

Lemma listing_scored (cfg : weights) (rows : list row) (sem hs : list float) :
  length sem = length rows → length hs = length rows →
  listing <$> zip_with (score_row cfg) (zip rows sem) hs = rows.
Proof.
  revert sem hs. induction rows as [|r rows IH]; intros [|s sem] [|h hs];
    cbn; intros Hs Hh; try discriminate; [reflexivity|].
  rewrite IH by lia. reflexivity.
Qed.

Lemma score_table_Returned ext prefs embeddings w scored w1 :
  score_table ext prefs embeddings w = (Returned scored, w1) →
  eng w1 = eng w ∧ listing <$> scored = rows_of (data (eng w)).
Proof.
  intros H. split.
  { pose proof (keeps_engine_score_table ext prefs embeddings w) as Hk.
    rewrite H in Hk. exact Hk. }
  unfold score_table in H.
  apply bind_Returned in H as (q & w2 & Hq & H).
  apply getitem_Returned in Hq as [-> _].
  apply bind_Returned in H as ([] & w2 & Hemit & H).
  injection Hemit as <-.
  apply bind_Returned in H as (query_emb & w2 & Hencode & H).
  apply lift_Returned in Hencode as [-> _].
  apply bind_Returned in H as ([] & w2 & Hemit & H).
  injection Hemit as <-.
  apply bind_Returned in H as (e & w2 & He & H).
  injection He as <- <-.
  apply bind_Returned in H as (with_semantic & w2 & Hassign & H).
  unfold assign_list in Hassign. cbn [eng data] in Hassign.
  destruct (length _ =? length _)%nat eqn:Hlen; [|discriminate Hassign].
  injection Hassign as <- <-. apply Nat.eqb_eq in Hlen.
  apply bind_Returned in H as (hs & w2 & Hhard & H).
  apply hard_scores_Returned in Hhard as [-> Hhs]. cbn [eng data] in Hhs.
  apply bind_Returned in H as (e & w2 & He & H).
  injection He as <- <-. injection H as <- _.
  apply listing_scored; [symmetry; exact Hlen|exact Hhs].
Qed.

Lemma run_search_Table ext prefs w res w1 :
  run_search ext prefs w = (Returned (Table res), w1) →
  ∃ embeddings scored,
    empty (data (eng w)) = false
    ∧ corpus_embeddings (eng w) = Some embeddings
    ∧ score_table ext prefs embeddings w = (Returned scored, w1)
    ∧ res = df_sort_values_desc ext scored.
Proof.
  unfold run_search. rewrite run_bind. cbn [self].
  destruct (empty (data (eng w))), (corpus_embeddings (eng w)) as [embeddings|];
    try discriminate.
  intros H. apply bind_Returned in H as (scored & w2 & Hscored & H).
  injection H as <- <-. exists embeddings, scored. repeat split. exact Hscored.
Qed.

(** ** The ranking is complete; the cut is made by the route *)

Lemma run_search_rows ext prefs w res w1 :
  (∀ l, df_sort_values_desc ext l ≡ₚ l) →
  run_search ext prefs w = (Returned (Table res), w1) →
  listing <$> res ≡ₚ rows_of (data (eng w))
  ∧ length res = length (rows_of (data (eng w))).
Proof.
  intros Hsort Hrun.
  apply run_search_Table in Hrun as (embeddings & scored & _ & _ & Hscored & ->).
  apply score_table_Returned in Hscored as [_ Hrows].
  assert (Hperm : listing <$> df_sort_values_desc ext scored
                  ≡ₚ rows_of (data (eng w))).
  { rewrite <- Hrows. apply fmap_Permutation, Hsort. }
  split; [exact Hperm|].
  rewrite <- (Permutation_length Hperm). symmetry. apply length_fmap.
Qed.

Lemma perform_search_Returned ext request w resp w2 :
  perform_search ext request w = (Returned resp, w2) →
  ∃ found,
    run_search ext (request_prefs request) w = (Returned (Table found), w2)
    ∧ total_matches_above_threshold resp
      = length (rows_above (threshold request) found)
    ∧ results resp = take 10 (fillna_row <$> rows_above (threshold request) found).
Proof.
  unfold perform_search. rewrite run_bind. cbn [self].
  destruct (empty (data (eng w))); [discriminate|].
  cbn zeta. intros H.
  apply bind_Returned in H as (found & w3 & Hfound & H).
  apply bind_Returned in H as (rows & w4 & Hrows & H).
  destruct found as [|found]; [discriminate Hrows|].
  injection Hrows as <- <-. injection H as <- <-.
  exists found. repeat split. exact Hfound.
Qed.

Lemma perform_search_answers ext request w found w2 :
  run_search ext (request_prefs request) w = (Returned (Table found), w2) →
  perform_search ext request w
  = (Returned {| query_received := query request;
                 total_matches_above_threshold :=
                   length (rows_above (threshold request) found);
                 results :=
                   take 10 (fillna_row <$> rows_above (threshold request) found) |},
     w2).
Proof.
  intros Hrun. pose proof Hrun as Hready.
  apply run_search_Table in Hready as (_ & _ & Hempty & _).
  unfold perform_search. rewrite run_bind. cbn [self]. rewrite Hempty.
  cbn zeta. rewrite run_bind, Hrun. reflexivity.
Qed.

Lemma run_search_returns ext prefs w rows embeddings q query_emb m k :
  data (eng w) = Table rows →
  rows ≠ [] →
  Forall cleaned rows →
  corpus_embeddings (eng w) = Some embeddings →
  prefs !! "query" = Some q →
  model_encode_query ext q = Returned query_emb →
  length (util_cos_sim ext query_emb embeddings) = length rows →
  prefs !! "max_price" = Some (VInt m) →
  is_infinity (float_of_Z m) = false →
  prefs !! "min_bedrooms" = Some (VInt k) →
  ∃ res w1, run_search ext prefs w = (Returned (Table res), w1).
Proof.
  intros Hdata Hrows Hclean Hemb Hq Hencode Hlen Hmax Hm Hmin.
  unfold run_search. rewrite run_bind. cbn [self]. rewrite Hdata, Hemb.
  destruct rows as [|r rows]; [contradiction|]. cbn [empty].
  rewrite run_bind. unfold score_table.
  rewrite run_bind, (run_getitem _ _ _ _ Hq).
  rewrite run_bind. cbn [emit].
  rewrite run_bind. unfold lift at 1. rewrite Hencode.
  rewrite run_bind. cbn [emit].
  rewrite run_bind. cbn [self eng]. rewrite Hdata. cbn [rows_of].
  rewrite run_bind. unfold assign_list. rewrite Hlen, Nat.eqb_refl.
  unfold mret at 1, M_ret at 1.
  rewrite run_bind.
  erewrite (run_hard_scores prefs _ (r :: rows) m k);
    [|exact Hdata|exact Hclean|exact Hmax|exact Hmin|exact Hm].
  rewrite run_bind. cbn [self]. eexists _, _. reflexivity.
Qed.

(** C5: [run_search] returns the whole scored table.  On a loaded engine
    and a well-formed query it does return a table, and whenever it
    returns a table, that table holds every row of the corpus exactly
    once, so it is as long as the corpus: nothing is dropped for its score
    and nothing is cut off.  The threshold and the limit of ten are
    applied by the [/search] route, to the table it gets from
    [run_search]: the route answers whenever [run_search] returns a table
    and only then; it counts the rows whose final score is at or above
    the threshold and lists the first ten of them, in the order of the
    table; for a threshold sent as null it counts none and lists none.
    (The sort is only asked to return the rows it was given.) *)
Theorem run_search_complete (ext : libs) (prefs : gmap string value) (w : world) :
  (∀ l, df_sort_values_desc ext l ≡ₚ l) →
  (∀ rows embeddings q query_emb m k,
      data (eng w) = Table rows →
      rows ≠ [] →
      Forall cleaned rows →
      corpus_embeddings (eng w) = Some embeddings →
      prefs !! "query" = Some q →
      model_encode_query ext q = Returned query_emb →
      length (util_cos_sim ext query_emb embeddings) = length rows →
      prefs !! "max_price" = Some (VInt m) →
      is_infinity (float_of_Z m) = false →
      prefs !! "min_bedrooms" = Some (VInt k) →
      ∃ res w1, run_search ext prefs w = (Returned (Table res), w1))
  ∧ (∀ res w1,
      run_search ext prefs w = (Returned (Table res), w1) →
      listing <$> res ≡ₚ rows_of (data (eng w))
      ∧ length res = length (rows_of (data (eng w))))
  ∧ (∀ request found w2,
      run_search ext (request_prefs request) w = (Returned (Table found), w2) →
      ∃ resp,
        perform_search ext request w = (Returned resp, w2)
        ∧ length found = length (rows_of (data (eng w)))
        ∧ match threshold request with
          | Some t =>
              total_matches_above_threshold resp
              = length (filter (λ r, (t <=? Final_Score r)%float = true) found)
              ∧ results resp
                = take 10 (fillna_row
                             <$> filter (λ r, (t <=? Final_Score r)%float = true) found)
          | None =>
              total_matches_above_threshold resp = 0%nat ∧ results resp = []
          end)
  ∧ (∀ request resp w2,
      perform_search ext request w = (Returned resp, w2) →
      ∃ found,
        run_search ext (request_prefs request) w = (Returned (Table found), w2)).
Proof.
  intros Hsort. split; [|split; [|split]].
  - intros rows embeddings q query_emb m k. apply run_search_returns.
  - intros res w1. apply run_search_rows, Hsort.
  - intros request found w2 Hfound.
    eexists. split; [exact (perform_search_answers ext request w found w2 Hfound)|].
    destruct (run_search_rows ext _ w found w2 Hsort Hfound) as [_ Hlen].
    split; [exact Hlen|].
    cbn [total_matches_above_threshold results].
    destruct (threshold request) as [t|]; split; reflexivity.
  - intros request resp w2 Hroute.
    apply perform_search_Returned in Hroute as (found & Hfound & _).
    exists found. exact Hfound.
Qed.

Lemma insert_desc_perm x l : insert_desc x l ≡ₚ x :: l.
Proof.
  induction l as [|y l IH]; [reflexivity|]. cbn [insert_desc].
  destruct (_ || _); [reflexivity|].
  rewrite IH. apply perm_swap.
Qed.

Lemma stable_sort_desc_perm l : stable_sort_desc l ≡ₚ l.
Proof.
  induction l as [|x l IH]; [reflexivity|].
  cbn. rewrite insert_desc_perm. apply perm_skip, IH.
Qed.

Lemma run_search_complete_witness :
  let ext := demo_libs [] in
  (∀ rows embeddings q query_emb m k,
      data (eng demo_world) = Table rows →
      rows ≠ [] →
      Forall cleaned rows →
      corpus_embeddings (eng demo_world) = Some embeddings →
      demo_prefs !! "query" = Some q →
      model_encode_query ext q = Returned query_emb →
      length (util_cos_sim ext query_emb embeddings) = length rows →
      demo_prefs !! "max_price" = Some (VInt m) →
      is_infinity (float_of_Z m) = false →
      demo_prefs !! "min_bedrooms" = Some (VInt k) →
      ∃ res w1, run_search ext demo_prefs demo_world = (Returned (Table res), w1))
  ∧ (∀ res w1,
      run_search ext demo_prefs demo_world = (Returned (Table res), w1) →
      listing <$> res ≡ₚ rows_of (data (eng demo_world))
      ∧ length res = length (rows_of (data (eng demo_world))))
  ∧ (∀ request found w2,
      run_search ext (request_prefs request) demo_world
      = (Returned (Table found), w2) →
      ∃ resp,
        perform_search ext request demo_world = (Returned resp, w2)
        ∧ length found = length (rows_of (data (eng demo_world)))
        ∧ match threshold request with
          | Some t =>
              total_matches_above_threshold resp
              = length (filter (λ r, (t <=? Final_Score r)%float = true) found)
              ∧ results resp
                = take 10 (fillna_row
                             <$> filter (λ r, (t <=? Final_Score r)%float = true) found)
          | None =>
              total_matches_above_threshold resp = 0%nat ∧ results resp = []
          end)
  ∧ (∀ request resp w2,
      perform_search ext request demo_world = (Returned resp, w2) →
      ∃ found,
        run_search ext (request_prefs request) demo_world
        = (Returned (Table found), w2)).
Proof.
  apply (run_search_complete (demo_libs []) demo_prefs demo_world).
  intros l. apply stable_sort_desc_perm.
Defined.

(** ** The order of the result *)

Lemma reads_engine_only_bind {A B} (m : M A) (f : A → M B) :
  reads_engine_only m → (∀ a, reads_engine_only (f a)) →
  reads_engine_only (m ≫= f).
Proof.
  intros Hm Hf w1 w2 Heng. rewrite !run_bind.
  destruct (Hm w1 w2 Heng) as [Hout Heng'].
  destruct (m w1) as [[a1|e1] v1], (m w2) as [[a2|e2] v2];
    cbn in Hout, Heng'; try discriminate Hout.
  - injection Hout as ->. apply Hf, Heng'.
  - injection Hout as ->. split; [reflexivity|exact Heng'].
Qed.

Lemma reads_engine_only_const {A} (o : outcome A) : reads_engine_only (lift o).
Proof. intros w1 w2 Heng. split; [reflexivity|exact Heng]. Qed.

Lemma reads_engine_only_emit (ev : event) : reads_engine_only (emit ev).
Proof. intros w1 w2 Heng. split; [reflexivity|exact Heng]. Qed.

Lemma reads_engine_only_self : reads_engine_only self.
Proof. intros w1 w2 Heng. cbn. rewrite Heng. split; reflexivity. Qed.

Lemma reads_engine_only_getitem d key : reads_engine_only (getitem d key).
Proof.
  unfold getitem. destruct (d !! key); apply (reads_engine_only_const _).
Qed.

Lemma reads_engine_only_data_column name : reads_engine_only (data_column name).
Proof.
  apply reads_engine_only_bind; [apply reads_engine_only_self|].
  intros e. destruct (data e); apply (reads_engine_only_const _).
Qed.

Lemma reads_engine_only_assign_list {A} rows (values : list A) :
  reads_engine_only (assign_list rows values).
Proof.
  unfold assign_list.
  destruct (length rows =? length values)%nat; apply (reads_engine_only_const _).
Qed.

Create HintDb reads discriminated.
#[local] Hint Resolve reads_engine_only_emit reads_engine_only_self
  reads_engine_only_getitem reads_engine_only_data_column
  reads_engine_only_assign_list : reads.
#[local] Hint Extern 1 (reads_engine_only (lift _)) =>
  apply reads_engine_only_const : reads.
#[local] Hint Extern 1 (reads_engine_only (mret _)) =>
  apply (reads_engine_only_const (Returned _)) : reads.
#[local] Hint Extern 1 (reads_engine_only (raise _)) =>
  apply (reads_engine_only_const (Raised _)) : reads.

Ltac reads :=
  repeat first
    [ solve [auto with reads]
    | apply reads_engine_only_bind; [|intros ?] ].

Lemma reads_engine_only_hard_scores prefs :
  reads_engine_only (_calculate_hard_scores prefs).
Proof. unfold _calculate_hard_scores. reads. Qed.

#[local] Hint Resolve reads_engine_only_hard_scores : reads.

Lemma reads_engine_only_score_table ext prefs embeddings :
  reads_engine_only (score_table ext prefs embeddings).
Proof. unfold score_table. reads. Qed.

#[local] Hint Resolve reads_engine_only_score_table : reads.

Lemma reads_engine_only_run_search ext prefs :
  reads_engine_only (run_search ext prefs).
Proof.
  unfold run_search. apply reads_engine_only_bind; [apply reads_engine_only_self|].
  intros e. destruct (empty (data e)), (corpus_embeddings e); reads.
Qed.

Ltac compare_cases :=
  repeat match goal with
    | H : context [PosDef.Pos.compare_cont Eq ?a ?b] |- _ =>
        change (PosDef.Pos.compare_cont Eq a b) with (Pos.compare a b) in H
    | |- context [PosDef.Pos.compare_cont Eq ?a ?b] =>
        change (PosDef.Pos.compare_cont Eq a b) with (Pos.compare a b)
    end;
  repeat match goal with
    | H : context [Z.compare ?a ?b] |- _ => destruct (Z.compare_spec a b)
    | |- context [Z.compare ?a ?b] => destruct (Z.compare_spec a b)
    | H : context [Pos.compare ?a ?b] |- _ => destruct (Pos.compare_spec a b)
    | |- context [Pos.compare ?a ?b] => destruct (Pos.compare_spec a b)
    end.

Lemma SFcompare_antisym (x y : spec_float) :
  SFcompare y x = CompOpp <$> SFcompare x y.
Proof.
  destruct x as [sx|sx| |sx mx ex], y as [sy|sy| |sy my ey]; try reflexivity;
    try (destruct sx; reflexivity); try (destruct sy; reflexivity);
    try (destruct sx, sy; reflexivity).
  destruct sx, sy; cbn; try reflexivity; f_equal;
    compare_cases; subst; cbn; try reflexivity; lia.
Qed.

Lemma SFcompare_trans (x y z : spec_float) (c1 c2 : comparison) :
  SFcompare x y = Some c1 → SFcompare y z = Some c2 →
  c1 ≠ Gt → c2 ≠ Gt →
  ∃ c3, SFcompare x z = Some c3 ∧ c3 ≠ Gt ∧ (c3 = Eq ↔ c1 = Eq ∧ c2 = Eq).
Proof.
  destruct x as [sx|sx| |sx mx ex], y as [sy|sy| |sy my ey], z as [sz|sz| |sz mz ez];
    cbn; intros H1 H2 Hc1 Hc2; try discriminate H1; try discriminate H2;
    injection H1 as <-; injection H2 as <-; eexists; (split; [reflexivity|]);
    repeat match goal with s : bool |- _ => destruct s end;
    cbn in *; try congruence;
    try (split; [discriminate|split; [discriminate|intros []; discriminate]]);
    try (split; [discriminate|split; [reflexivity|split; reflexivity]]);
    try (split; [discriminate|split; [intros _; split; reflexivity|reflexivity]]).
  all: compare_cases; subst; cbn in *; try congruence; try lia;
    try (split; [discriminate|split; [discriminate|intros []; discriminate]]);
    try (split; [discriminate|split; [intros _; split; reflexivity|reflexivity]]).
Qed.

(** ** The order of binary64 numbers that are not NaN *)

Lemma Prim2SF_not_nan (x : float) : is_nan x = false → Prim2SF x ≠ S754_nan.
Proof.
  intros Hx. unfold Prim2SF. rewrite Hx.
  destruct (is_zero x); [discriminate|].
  destruct (is_infinity x); [discriminate|].
  destruct (Z.frexp x) as [r e].
  destruct (shr_fexp _ _ _ _ _) as [shr e'].
  destruct (shr_m shr); discriminate.
Qed.

Lemma float_compare (x y : float) :
  is_nan x = false → is_nan y = false →
  ∃ c, SFcompare (Prim2SF x) (Prim2SF y) = Some c.
Proof.
  intros Hx Hy. apply Prim2SF_not_nan in Hx, Hy.
  destruct (Prim2SF x), (Prim2SF y); try contradiction; cbn; eauto.
Qed.

Lemma ltb_compare (x y : float) :
  (x <? y)%float = true ↔ SFcompare (Prim2SF x) (Prim2SF y) = Some Lt.
Proof.
  rewrite FloatAxioms.ltb_spec. unfold SFltb.
  destruct (SFcompare _ _) as [[]|]; split; congruence.
Qed.

Lemma eqb_compare (x y : float) :
  (x =? y)%float = true ↔ SFcompare (Prim2SF x) (Prim2SF y) = Some Eq.
Proof.
  rewrite FloatAxioms.eqb_spec. unfold SFeqb.
  destruct (SFcompare _ _) as [[]|]; split; congruence.
Qed.

Lemma leb_compare (x y : float) :
  (x <=? y)%float = true
  ↔ SFcompare (Prim2SF x) (Prim2SF y) = Some Lt
    ∨ SFcompare (Prim2SF x) (Prim2SF y) = Some Eq.
Proof.
  rewrite FloatAxioms.leb_spec. unfold SFleb.
  destruct (SFcompare _ _) as [[]|]; split; try tauto; try congruence;
    intros [H|H]; congruence.
Qed.

Lemma ltb_total (x y : float) :
  is_nan x = false → is_nan y = false →
  (x <? y)%float = false → (y <? x)%float = true ∨ (y =? x)%float = true.
Proof.
  intros Hx Hy Hlt. destruct (float_compare x y Hx Hy) as [c Hc].
  rewrite ltb_compare, eqb_compare, (SFcompare_antisym (Prim2SF x)), Hc. cbn.
  destruct c; auto.
  apply ltb_compare in Hc. congruence.
Qed.

Lemma eqb_sym (x y : float) : (x =? y)%float = true → (y =? x)%float = true.
Proof.
  rewrite !eqb_compare, (SFcompare_antisym (Prim2SF x)). intros ->. reflexivity.
Qed.

Lemma ltb_leb (x y : float) : (x <? y)%float = true → (x <=? y)%float = true.
Proof. rewrite ltb_compare, leb_compare. auto. Qed.

Lemma eqb_leb (x y : float) : (x =? y)%float = true → (x <=? y)%float = true.
Proof. rewrite eqb_compare, leb_compare. auto. Qed.

Lemma ltb_not_eqb (x y : float) :
  (x <? y)%float = true → (y =? x)%float = true → False.
Proof.
  rewrite ltb_compare, eqb_compare, (SFcompare_antisym (Prim2SF x)).
  intros ->. discriminate.
Qed.

Lemma leb_trans (x y z : float) :
  (x <=? y)%float = true → (y <=? z)%float = true → (x <=? z)%float = true.
Proof.
  rewrite !leb_compare. intros Hxy Hyz.
  assert (∃ c1, SFcompare (Prim2SF x) (Prim2SF y) = Some c1 ∧ c1 ≠ Gt) as (c1 & H1 & Hc1)
    by (destruct Hxy as [H|H]; eexists; (split; [exact H|discriminate])).
  assert (∃ c2, SFcompare (Prim2SF y) (Prim2SF z) = Some c2 ∧ c2 ≠ Gt) as (c2 & H2 & Hc2)
    by (destruct Hyz as [H|H]; eexists; (split; [exact H|discriminate])).
  destruct (SFcompare_trans _ _ _ _ _ H1 H2 Hc1 Hc2) as (c3 & H3 & Hc3 & _).
  rewrite H3. destruct c3; auto. contradiction.
Qed.

Lemma key_then_position_trans (key : nat → float) (a b c : nat) :
  key_then_position key a b → key_then_position key b c →
  key_then_position key a c.
Proof.
  unfold key_then_position. rewrite !ltb_compare, !eqb_compare.
  intros Hab Hbc.
  assert (∃ c1, SFcompare (Prim2SF (key a)) (Prim2SF (key b)) = Some c1 ∧ c1 ≠ Gt
                ∧ (c1 = Eq → (a < b)%nat)) as (c1 & H1 & Hc1 & Hn1).
  { destruct Hab as [H|[H Hn]]; eexists; (split; [exact H|]);
      (split; [discriminate|]); [discriminate|auto]. }
  assert (∃ c2, SFcompare (Prim2SF (key b)) (Prim2SF (key c)) = Some c2 ∧ c2 ≠ Gt
                ∧ (c2 = Eq → (b < c)%nat)) as (c2 & H2 & Hc2 & Hn2).
  { destruct Hbc as [H|[H Hn]]; eexists; (split; [exact H|]);
      (split; [discriminate|]); [discriminate|auto]. }
  destruct (SFcompare_trans _ _ _ _ _ H1 H2 Hc1 Hc2) as (c3 & H3 & Hc3 & Heq).
  rewrite H3. destruct c3; [right|left; reflexivity|contradiction].
  split; [reflexivity|]. destruct (proj1 Heq eq_refl) as [-> ->].
  specialize (Hn1 eq_refl). specialize (Hn2 eq_refl). lia.
Qed.

(** ** numpy's insertion sort *)

Lemma np_less_ltb (a b : float) :
  is_nan b = false → np_less a b = (a <? b)%float.
Proof. intros Hb. unfold np_less. rewrite Hb. apply orb_false_r. Qed.

Lemma np_insert_perm (key : nat → float) (vi : nat) (l : list nat) :
  np_insert key vi l ≡ₚ vi :: l.
Proof.
  induction l as [|vk l IH]; [reflexivity|]. cbn [np_insert].
  destruct (np_less _ _); [|reflexivity].
  rewrite IH. apply perm_swap.
Qed.

Lemma np_insert_sorted (key : nat → float) (vi : nat) (l : list nat) :
  is_nan (key vi) = false →
  Forall (λ x, is_nan (key x) = false) l →
  Forall (λ x, (x < vi)%nat) l →
  StronglySorted (flip (key_then_position key)) l →
  StronglySorted (flip (key_then_position key)) (np_insert key vi l).
Proof.
  intros Hvi Hkeys Hbelow Hsorted.
  induction Hsorted as [|vk l Hsorted IH Hhead]; [repeat constructor|].
  apply Forall_cons in Hkeys as [Hvk Hkeys].
  apply Forall_cons in Hbelow as [Hlt Hbelow].
  cbn [np_insert]. rewrite (np_less_ltb _ _ Hvk).
  destruct (key vi <? key vk)%float eqn:Hless.
  - constructor; [exact (IH Hkeys Hbelow)|].
    rewrite np_insert_perm. constructor; [left; exact Hless|exact Hhead].
  - assert (Hvk_vi : key_then_position key vk vi).
    { destruct (ltb_total _ _ Hvi Hvk Hless) as [H|H]; [left; exact H|].
      right. split; [exact H|exact Hlt]. }
    constructor; [constructor; assumption|].
    constructor; [exact Hvk_vi|].
    eapply Forall_impl; [exact Hhead|].
    intros x Hx. exact (key_then_position_trans key x vk vi Hx Hvk_vi).
Qed.

Lemma StronglySorted_reverse {A} (R : relation A) (l : list A) :
  StronglySorted (flip R) l → StronglySorted R (reverse l).
Proof.
  induction 1 as [|x l _ IH Hhead]; [constructor|].
  rewrite reverse_cons. apply StronglySorted_app_2; [|exact IH|repeat constructor].
  intros y z Hy Hz. apply list_elem_of_singleton in Hz as ->.
  rewrite elem_of_reverse in Hy. exact (proj1 (Forall_forall _ _) Hhead y Hy).
Qed.

Lemma np_insertion_sort_spec (key : nat → float) (segment : list nat) :
  Forall (λ x, is_nan (key x) = false) segment →
  StronglySorted lt segment →
  np_insertion_sort key segment ≡ₚ segment
  ∧ StronglySorted (key_then_position key) (np_insertion_sort key segment).
Proof.
  intros Hkeys Hsegment. unfold np_insertion_sort.
  assert (Hgen : ∀ acc,
            Forall (λ x, is_nan (key x) = false) acc →
            (∀ x y, x ∈ acc → y ∈ segment → (x < y)%nat) →
            StronglySorted (flip (key_then_position key)) acc →
            foldl (λ sorted_rev vi, np_insert key vi sorted_rev) acc segment
            ≡ₚ reverse segment ++ acc
            ∧ StronglySorted (flip (key_then_position key))
                (foldl (λ sorted_rev vi, np_insert key vi sorted_rev) acc segment)).
  { induction Hsegment as [|vi segment Hsegment IH Hhead]; intros acc Hacc Hbelow Hsorted.
    - split; [reflexivity|exact Hsorted].
    - apply Forall_cons in Hkeys as [Hvi Hkeys]. cbn [foldl].
      destruct (IH Hkeys (np_insert key vi acc)) as [Hperm Hs].
      + rewrite np_insert_perm. constructor; assumption.
      + intros x y Hx Hy. rewrite np_insert_perm in Hx.
        apply elem_of_cons in Hx as [->|Hx].
        * exact (proj1 (Forall_forall _ _) Hhead y Hy).
        * apply Hbelow; [exact Hx|right; exact Hy].
      + apply np_insert_sorted; try assumption.
        apply Forall_forall. intros x Hx. apply Hbelow; [exact Hx|left].
      + split; [|exact Hs].
        rewrite Hperm, np_insert_perm, reverse_cons, <- app_assoc. reflexivity. }
  destruct (Hgen []) as [Hperm Hsorted].
  - constructor.
  - intros x y Hx. apply not_elem_of_nil in Hx. destruct Hx.
  - constructor.
  - split.
    + rewrite reverse_Permutation, Hperm, app_nil_r. apply reverse_Permutation.
    + apply StronglySorted_reverse, Hsorted.
Qed.

Lemma np_argsort_small (v : list float) :
  (length v ≤ 17)%nat →
  np_argsort v = np_insertion_sort (λ i, v !!! i) (seq 0 (length v)).
Proof.
  intros Hlen. unfold np_argsort. cbn [aquicksort_].
  assert (H0 : (2 * Z.log2 (Z.of_nat (length v)) <? 0) = false).
  { apply Z.ltb_ge. pose proof (Z.log2_nonneg (Z.of_nat (length v))). lia. }
  rewrite H0. cbn [andb]. rewrite length_seq.
  destruct (17 <? length v)%nat eqn:Hbig; [|reflexivity].
  apply Nat.ltb_lt in Hbig. lia.
Qed.

(** ** numpy's order on keys

    With NaN last it is a strict weak order on all binary64 numbers. *)

Lemma Prim2SF_nan (x : float) : is_nan x = true → Prim2SF x = S754_nan.
Proof. intros Hx. unfold Prim2SF. rewrite Hx. reflexivity. Qed.

Lemma ltb_nan_l (x y : float) : is_nan x = true → (x <? y)%float = false.
Proof.
  intros Hx. rewrite FloatAxioms.ltb_spec, (Prim2SF_nan x Hx). reflexivity.
Qed.

Lemma ltb_nan_r (x y : float) : is_nan y = true → (x <? y)%float = false.
Proof.
  intros Hy. rewrite FloatAxioms.ltb_spec, (Prim2SF_nan y Hy).
  unfold SFltb. destruct (Prim2SF x); reflexivity.
Qed.

Lemma ltb_irrefl (x : float) : (x <? x)%float = false.
Proof.
  destruct (x <? x)%float eqn:H; [|reflexivity].
  apply ltb_compare in H. pose proof (SFcompare_antisym (Prim2SF x) (Prim2SF x)) as Ha.
  rewrite H in Ha. discriminate Ha.
Qed.

Lemma ltb_asym (x y : float) : (x <? y)%float = true → (y <? x)%float = false.
Proof.
  intros H. apply ltb_compare in H.
  destruct (y <? x)%float eqn:H'; [|reflexivity].
  apply ltb_compare in H'. rewrite (SFcompare_antisym (Prim2SF x)), H in H'.
  discriminate H'.
Qed.

Lemma not_ltb_trans (x y z : float) :
  is_nan x = false → is_nan y = false → is_nan z = false →
  (y <? x)%float = false → (z <? y)%float = false → (z <? x)%float = false.
Proof.
  intros Hx Hy Hz Hxy Hyz.
  destruct (float_compare x y Hx Hy) as [c1 H1].
  destruct (float_compare y z Hy Hz) as [c2 H2].
  assert (Hc1 : c1 ≠ Gt).
  { intros ->. assert (H : (y <? x)%float = true).
    { apply ltb_compare. rewrite (SFcompare_antisym (Prim2SF x)), H1. reflexivity. }
    congruence. }
  assert (Hc2 : c2 ≠ Gt).
  { intros ->. assert (H : (z <? y)%float = true).
    { apply ltb_compare. rewrite (SFcompare_antisym (Prim2SF y)), H2. reflexivity. }
    congruence. }
  destruct (SFcompare_trans _ _ _ _ _ H1 H2 Hc1 Hc2) as (c3 & H3 & Hc3 & _).
  destruct (z <? x)%float eqn:H; [|reflexivity].
  apply ltb_compare in H. rewrite (SFcompare_antisym (Prim2SF x)), H3 in H.
  destruct c3; try discriminate H. contradiction.
Qed.

Lemma np_less_cases (a b : float) :
  np_less a b = if is_nan a then false
                else if is_nan b then true else (a <? b)%float.
Proof.
  unfold np_less. destruct (is_nan a) eqn:Ha, (is_nan b) eqn:Hb; cbn.
  - rewrite (ltb_nan_l _ _ Ha). reflexivity.
  - rewrite (ltb_nan_l _ _ Ha). reflexivity.
  - apply orb_true_r.
  - apply orb_false_r.
Qed.

Lemma np_less_irrefl (a : float) : np_less a a = false.
Proof. rewrite np_less_cases. destruct (is_nan a); [reflexivity|apply ltb_irrefl]. Qed.

Lemma np_less_asym (a b : float) : np_less a b = true → np_less b a = false.
Proof.
  rewrite !np_less_cases.
  destruct (is_nan a), (is_nan b); try discriminate; try reflexivity.
  apply ltb_asym.
Qed.

Lemma np_not_less_trans (a b c : float) :
  np_less b a = false → np_less c b = false → np_less c a = false.
Proof.
  rewrite !np_less_cases.
  destruct (is_nan a) eqn:Ha, (is_nan b) eqn:Hb, (is_nan c) eqn:Hc;
    try discriminate; try reflexivity.
  apply not_ltb_trans; assumption.
Qed.

Lemma np_not_less_ltb (a b : float) : np_less a b = false → (a <? b)%float = false.
Proof. unfold np_less. intros H. apply orb_false_elim in H as [H _]. exact H. Qed.

Lemma key_le_refl key a : key_le key a a.
Proof. apply np_less_irrefl. Qed.

Lemma key_le_trans key a b c : key_le key a b → key_le key b c → key_le key a c.
Proof. apply np_not_less_trans. Qed.

Lemma key_lt_le key a b : np_less (key a) (key b) = true → key_le key a b.
Proof. apply np_less_asym. Qed.

(** ** The insertion sort sorts any keys *)

Lemma np_insert_key_sorted (key : nat → float) (vi : nat) (l : list nat) :
  StronglySorted (flip (key_le key)) l →
  StronglySorted (flip (key_le key)) (np_insert key vi l).
Proof.
  induction 1 as [|vk l Hsorted IH Hhead]; [repeat constructor|].
  cbn [np_insert]. destruct (np_less (key vi) (key vk)) eqn:Hless.
  - constructor; [exact IH|].
    rewrite np_insert_perm. constructor; [apply key_lt_le, Hless|exact Hhead].
  - constructor; [constructor; assumption|].
    constructor; [exact Hless|].
    eapply Forall_impl; [exact Hhead|].
    intros x Hx. exact (key_le_trans key x vk vi Hx Hless).
Qed.

Lemma np_insertion_sort_sorts (key : nat → float) (section : list nat) :
  np_insertion_sort key section ≡ₚ section
  ∧ StronglySorted (key_le key) (np_insertion_sort key section).
Proof.
  unfold np_insertion_sort.
  assert (Hgen : ∀ acc,
            StronglySorted (flip (key_le key)) acc →
            foldl (λ sorted_rev vi, np_insert key vi sorted_rev) acc section
            ≡ₚ reverse section ++ acc
            ∧ StronglySorted (flip (key_le key))
                (foldl (λ sorted_rev vi, np_insert key vi sorted_rev) acc section)).
  { induction section as [|vi section IH]; intros acc Hsorted.
    - split; [reflexivity|exact Hsorted].
    - cbn [foldl].
      destruct (IH (np_insert key vi acc)) as [Hperm Hs].
      + apply np_insert_key_sorted, Hsorted.
      + split; [|exact Hs].
        rewrite Hperm, np_insert_perm, reverse_cons, <- app_assoc. reflexivity. }
  destruct (Hgen []) as [Hperm Hsorted]; [constructor|].
  split.
  - rewrite reverse_Permutation, Hperm, app_nil_r. apply reverse_Permutation.
  - apply StronglySorted_reverse, Hsorted.
Qed.

(** ** The partition *)

Section Partition.

Local Open Scope nat_scope.

Variable key : nat → float.

Lemma swap_length (a : list nat) (i j : nat) : length (swap a i j) = length a.
Proof. unfold swap. rewrite !length_insert. reflexivity. Qed.

Lemma swap_perm (a : list nat) (i j : nat) :
  i < length a → j < length a → swap a i j ≡ₚ a.
Proof.
  intros Hi Hj. unfold swap. apply Permutation_insert_swap.
  - apply list_lookup_lookup_total_lt, Hj.
  - apply list_lookup_lookup_total_lt, Hi.
Qed.

Lemma swap_lookup (a : list nat) (i j k : nat) :
  i < length a → j < length a →
  swap a i j !!! k
  = if decide (k = i) then a !!! j
    else if decide (k = j) then a !!! i else a !!! k.
Proof.
  intros Hi Hj. unfold swap. rewrite !list_lookup_total_insert, !length_insert.
  repeat destruct (decide _); try reflexivity; try lia; destruct_and?; subst; try lia;
    try reflexivity; exfalso; tauto.
Qed.

Lemma scan_up_spec (a : list nat) (vp : float) (q fuel p : nat) :
  p ≤ q → q - p < fuel →
  np_less (key (a !!! q)) vp = false →
  p ≤ scan_up key a vp p fuel ≤ q
  ∧ np_less (key (a !!! scan_up key a vp p fuel)) vp = false
  ∧ ∀ i, p ≤ i < scan_up key a vp p fuel → np_less (key (a !!! i)) vp = true.
Proof.
  revert p. induction fuel as [|fuel IH]; intros p Hpq Hfuel Hq; [lia|].
  cbn [scan_up]. destruct (np_less (key (a !!! p)) vp) eqn:Hp.
  - assert (p ≠ q) by (intros ->; congruence).
    destruct (IH (S p)) as (Hr & Hstop & Hbelow); [lia|lia|exact Hq|].
    split; [lia|]. split; [exact Hstop|].
    intros i Hi. destruct (decide (i = p)) as [->|]; [exact Hp|apply Hbelow; lia].
  - split; [lia|]. split; [exact Hp|]. intros i Hi. lia.
Qed.

Lemma scan_down_spec (a : list nat) (vp : float) (q fuel p : nat) :
  q ≤ p → p - q < fuel →
  np_less vp (key (a !!! q)) = false →
  q ≤ scan_down key a vp p fuel ≤ p
  ∧ np_less vp (key (a !!! scan_down key a vp p fuel)) = false
  ∧ ∀ i, scan_down key a vp p fuel < i ≤ p → np_less vp (key (a !!! i)) = true.
Proof.
  revert p. induction fuel as [|fuel IH]; intros p Hpq Hfuel Hq; [lia|].
  cbn [scan_down]. destruct (np_less vp (key (a !!! p))) eqn:Hp.
  - assert (p ≠ q) by (intros ->; congruence).
    destruct (IH (pred p)) as (Hr & Hstop & Habove); [lia|lia|exact Hq|].
    split; [lia|]. split; [exact Hstop|].
    intros i Hi. destruct (decide (i = p)) as [->|]; [exact Hp|apply Habove; lia].
  - split; [lia|]. split; [exact Hp|]. intros i Hi. lia.
Qed.

Lemma partition_loop_spec (vp : float) (fuel : nat) :
  ∀ (a : list nat) (pi pj : nat),
    pi < pj → pj < length a → pj - pi ≤ fuel →
    (∀ i, i ≤ pi → np_less vp (key (a !!! i)) = false) →
    (∀ j, pj ≤ j → j < length a → np_less (key (a !!! j)) vp = false) →
    ∃ a' p,
      partition_loop key a vp pi pj fuel = (a', p)
      ∧ a' ≡ₚ a
      ∧ length a' = length a
      ∧ pi < p ≤ pj
      ∧ (∀ i, i < p → np_less vp (key (a' !!! i)) = false)
      ∧ (∀ j, p ≤ j → j < length a → np_less (key (a' !!! j)) vp = false)
      ∧ (∀ j, pj ≤ j → a' !!! j = a !!! j).
Proof.
  induction fuel as [|fuel IH]; intros a pi pj Hij Hj Hfuel Hlow Hhigh; [lia|].
  cbn [partition_loop].
  destruct (scan_up_spec a vp pj (length a) (S pi)) as (Hup & Hup_stop & Hup_below);
    [lia|lia|apply Hhigh; lia|].
  destruct (scan_down_spec a vp pi (length a) (pred pj))
    as (Hdown & Hdown_stop & Hdown_above); [lia|lia|apply Hlow; lia|].
  set (p := scan_up key a vp (S pi) (length a)) in *.
  set (q := scan_down key a vp (pred pj) (length a)) in *.
  assert (Hlow_p : ∀ i, i < p → np_less vp (key (a !!! i)) = false).
  { intros i Hi. destruct (decide (i ≤ pi)); [apply Hlow; assumption|].
    apply np_less_asym, Hup_below. lia. }
  assert (Hhigh_q : ∀ j, q < j → j < length a → np_less (key (a !!! j)) vp = false).
  { intros j Hq Hlen. destruct (decide (pj ≤ j)); [apply Hhigh; assumption|].
    apply np_less_asym, Hdown_above. lia. }
  destruct (q <=? p) eqn:Hmeet.
  - apply Nat.leb_le in Hmeet. exists a, p.
    split; [reflexivity|]. split; [reflexivity|]. split; [reflexivity|].
    split; [lia|]. split; [exact Hlow_p|]. split; [|reflexivity].
    intros j Hpj Hlen. destruct (decide (j = p)) as [->|]; [exact Hup_stop|].
    apply Hhigh_q; lia.
  - apply Nat.leb_gt in Hmeet.
    destruct (IH (swap a p q) p q) as (a' & r & Hrun & Hperm & Hlen & Hr & Hlow' & Hhigh' & Hsame).
    + exact Hmeet.
    + rewrite swap_length. lia.
    + lia.
    + intros i Hi. rewrite swap_lookup by lia.
      destruct (decide (i = p)); [exact Hdown_stop|].
      destruct (decide (i = q)); [lia|]. apply Hlow_p. lia.
    + intros j Hqj Hlen. rewrite swap_length in Hlen. rewrite swap_lookup by lia.
      destruct (decide (j = p)); [lia|].
      destruct (decide (j = q)); [exact Hup_stop|]. apply Hhigh_q; lia.
    + exists a', r. split; [exact Hrun|].
      split; [rewrite Hperm; apply swap_perm; lia|].
      split; [rewrite Hlen; apply swap_length|].
      split; [lia|]. split; [exact Hlow'|].
      split.
      * intros j Hrj Hlenj. apply Hhigh'; [exact Hrj|]. rewrite swap_length. exact Hlenj.
      * intros j Hpj. rewrite Hsame by lia. rewrite swap_lookup by lia.
        destruct (decide (j = p)); [lia|]. destruct (decide (j = q)); [lia|reflexivity].
Qed.

End Partition.

Section Median.

Local Open Scope nat_scope.

Variable key : nat → float.

(** The three conditional swaps leave the median of the first, middle and
    last key in the middle. *)
Lemma median_of_three (a : list nat) (pm pr : nat) :
  0 < pm → pm < pr → pr < length a →
  let a1 := if np_less (key (a !!! pm)) (key (a !!! 0)) then swap a pm 0 else a in
  let a2 := if np_less (key (a1 !!! pr)) (key (a1 !!! pm)) then swap a1 pr pm else a1 in
  let a3 := if np_less (key (a2 !!! pm)) (key (a2 !!! 0)) then swap a2 pm 0 else a2 in
  a3 ≡ₚ a
  ∧ length a3 = length a
  ∧ np_less (key (a3 !!! pm)) (key (a3 !!! 0)) = false
  ∧ np_less (key (a3 !!! pr)) (key (a3 !!! pm)) = false.
Proof.
  intros H0 Hm Hr a1 a2 a3.
  assert (H1 : a1 ≡ₚ a ∧ length a1 = length a
               ∧ np_less (key (a1 !!! pm)) (key (a1 !!! 0)) = false
               ∧ a1 !!! pr = a !!! pr).
  { subst a1. destruct (np_less (key (a !!! pm)) (key (a !!! 0))) eqn:Hless.
    - split; [apply swap_perm; lia|]. split; [apply swap_length|].
      rewrite !swap_lookup by lia.
      repeat (destruct (decide _); try lia).
      split; [apply np_less_asym, Hless|reflexivity].
    - split; [reflexivity|]. split; [reflexivity|]. split; [exact Hless|reflexivity]. }
  destruct H1 as (Hp1 & Hl1 & Hk1 & Hr1).
  assert (H2 : a2 ≡ₚ a1 ∧ length a2 = length a1
               ∧ np_less (key (a2 !!! pr)) (key (a2 !!! pm)) = false
               ∧ np_less (key (a2 !!! pr)) (key (a2 !!! 0)) = false
               ∧ a2 !!! 0 = a1 !!! 0).
  { subst a2. destruct (np_less (key (a1 !!! pr)) (key (a1 !!! pm))) eqn:Hless.
    - split; [apply swap_perm; lia|]. split; [apply swap_length|].
      rewrite !swap_lookup by lia.
      repeat (destruct (decide _); try lia).
      split; [apply np_less_asym, Hless|]. split; [|reflexivity].
      exact Hk1.
    - split; [reflexivity|]. split; [reflexivity|]. split; [exact Hless|].
      split; [|reflexivity].
      exact (np_not_less_trans _ _ _ Hk1 Hless). }
  destruct H2 as (Hp2 & Hl2 & Hk2 & Hk2' & H02).
  subst a3. destruct (np_less (key (a2 !!! pm)) (key (a2 !!! 0))) eqn:Hless.
  - split; [rewrite swap_perm by lia; rewrite Hp2; exact Hp1|].
    split; [rewrite swap_length; lia|].
    rewrite !swap_lookup by lia.
    repeat (destruct (decide _); try lia).
    split; [apply np_less_asym, Hless|exact Hk2'].
  - split; [rewrite Hp2; exact Hp1|]. split; [lia|]. split; [exact Hless|exact Hk2].
Qed.

Lemma np_partition_spec (a : list nat) :
  3 ≤ length a →
  ∃ a' p,
    np_partition key a = (a', p)
    ∧ a' ≡ₚ a
    ∧ 0 < p < length a - 1
    ∧ (∀ i, i < p → np_less (key (a' !!! p)) (key (a' !!! i)) = false)
    ∧ (∀ j, p < j → j < length a → np_less (key (a' !!! j)) (key (a' !!! p)) = false).
Proof.
  intros Hlen. unfold np_partition.
  set (pr := length a - 1). set (pm := pr / 2).
  assert (Hpm : 0 < pm ∧ pm < pr).
  { subst pm. split.
    - apply Nat.div_str_pos. lia.
    - apply Nat.div_lt; lia. }
  destruct (median_of_three a pm pr) as (Hp3 & Hl3 & Hlow3 & Hhigh3); [lia|lia|lia|].
  set (a3 := if np_less (key (_ !!! pm)) (key (_ !!! 0)) then swap _ pm 0 else _) in *.
  clearbody a3.
  set (vp := key (a3 !!! pm)) in *.
  set (a4 := swap a3 pm (pr - 1)).
  assert (Hl4 : length a4 = length a) by (subst a4; rewrite swap_length; exact Hl3).
  destruct (partition_loop_spec key vp (length a4) a4 0 (pr - 1))
    as (a5 & p & Hrun & Hp5 & Hl5 & Hp & Hlow5 & Hhigh5 & Hsame).
  - lia.
  - lia.
  - lia.
  - intros i Hi. assert (i = 0) as -> by lia. subst a4.
    rewrite swap_lookup by lia.
    repeat (destruct (decide _); try lia). exact Hlow3.
  - intros j Hj Hjlen. subst a4. rewrite swap_lookup by lia.
    destruct (decide (j = pm)) as [->|]; [|destruct (decide (j = pr - 1)) as [->|]].
    + assert (pm = pr - 1) as <- by lia. apply np_less_irrefl.
    + apply np_less_irrefl.
    + rewrite swap_length in Hjlen. assert (j = pr) as -> by lia. exact Hhigh3.
  - rewrite Hrun. exists (swap a5 p (pr - 1)), p.
    split; [reflexivity|].
    split; [rewrite swap_perm by lia; rewrite Hp5; subst a4;
            rewrite swap_perm by lia; exact Hp3|].
    split; [lia|].
    assert (Hpivot : key (a5 !!! (pr - 1)) = vp).
    { rewrite Hsame by lia. subst a4. rewrite swap_lookup by lia.
      destruct (decide (pr - 1 = pm)) as [<-|]; [reflexivity|].
      destruct (decide (pr - 1 = pr - 1)); [reflexivity|lia]. }
    split.
    + intros i Hi. rewrite !swap_lookup by lia.
      destruct (decide (p = p)); [|lia].
      destruct (decide (i = p)); [lia|].
      destruct (decide (i = pr - 1)); [lia|].
      rewrite Hpivot. apply Hlow5, Hi.
    + intros j Hj Hjlen. rewrite !swap_lookup by lia.
      destruct (decide (p = p)); [|lia].
      destruct (decide (j = p)); [lia|].
      rewrite Hpivot.
      destruct (decide (j = pr - 1)); apply Hhigh5; lia.
Qed.

End Median.

(** ** The heap sort *)

Section Heapsort.

Local Open Scope nat_scope.

Variable key : nat → float.

Lemma half_cases (c : nat) : c = c / 2 + c / 2 ∨ c = S (c / 2 + c / 2).
Proof.
  pose proof (Nat.div_mod_eq c 2) as Hc.
  pose proof (Nat.mod_upper_bound c 2) as Hr. lia.
Qed.

Lemma heap_get_set (a : list nat) (i k x : nat) :
  1 ≤ i → i ≤ length a → 1 ≤ k →
  heap_get (heap_set a i x) k = if decide (k = i) then x else heap_get a k.
Proof.
  intros Hi Hlen Hk. unfold heap_get, heap_set. rewrite list_lookup_total_insert.
  destruct (decide (i - 1 = k - 1 ∧ i - 1 < length a)) as [[Heq _]|Hne];
    destruct (decide (k = i)); try reflexivity; exfalso; [lia|apply Hne; lia].
Qed.

Lemma heap_set_length (a : list nat) (i x : nat) :
  length (heap_set a i x) = length a.
Proof. apply length_insert. Qed.

Lemma heap_set_drop (a : list nat) (i n x : nat) :
  1 ≤ i → i ≤ n → drop n (heap_set a i x) = drop n a.
Proof. intros Hi Hn. apply drop_insert_lt. lia. Qed.

(** Moving the value at [j] into the hole at [i] moves the hole to [j]. *)
Lemma heap_set_moves_hole (a : list nat) (i j tmp : nat) :
  1 ≤ i → i ≤ length a → 1 ≤ j → j ≤ length a → i ≠ j →
  heap_set (heap_set a i (heap_get a j)) j tmp ≡ₚ heap_set a i tmp.
Proof.
  intros Hi Hilen Hj Hjlen Hij. unfold heap_set, heap_get.
  set (b := <[i - 1 := tmp]> a).
  replace (<[i - 1 := a !!! (j - 1)]> a) with (<[i - 1 := a !!! (j - 1)]> b)
    by (subst b; apply list_insert_insert_eq).
  apply Permutation_insert_swap.
  - subst b. apply list_lookup_insert_eq. lia.
  - subst b. rewrite list_lookup_insert_ne by lia.
    apply list_lookup_lookup_total_lt. lia.
Qed.

Lemma take_Permutation (a b : list nat) (n : nat) :
  a ≡ₚ b → drop n a = drop n b → take n a ≡ₚ take n b.
Proof.
  intros Hperm Hdrop.
  rewrite <- (take_drop n a), <- (take_drop n b), Hdrop in Hperm.
  exact (Permutation_app_inv_r _ _ _ Hperm).
Qed.

(** A hole can be filled when what goes in is no less than the children
    of the hole and not greater than its parent. *)
Lemma heap_hole_filled (a : list nat) (l n i tmp : nat) :
  1 ≤ l → l ≤ i → i ≤ length a →
  (∀ p c, l ≤ p → p ≠ i → c ≠ i → child p c → c ≤ n →
     np_less (key (heap_get a p)) (key (heap_get a c)) = false) →
  (∀ p, l ≤ p → child p i → np_less (key (heap_get a p)) (key tmp) = false) →
  (∀ c, child i c → c ≤ n → np_less (key tmp) (key (heap_get a c)) = false) →
  heap key (heap_set a i tmp) l n.
Proof.
  intros Hl Hi Hlen Hrest Hparent Hchildren p c Hp Hc Hcn.
  assert (1 ≤ c) by (destruct Hc; lia).
  rewrite !heap_get_set by lia.
  destruct (decide (p = i)) as [->|Hpi], (decide (c = i)) as [->|Hci].
  - destruct Hc; lia.
  - apply Hchildren; assumption.
  - apply Hparent; assumption.
  - apply Hrest; assumption.
Qed.

(** [tmp] sinks from the hole at [i] and leaves a heap. *)
Lemma np_sift_spec (l n tmp : nat) (fuel : nat) :
  ∀ (a : list nat) (i : nat),
    1 ≤ l → l ≤ i → i ≤ n → n ≤ length a → n - i < fuel →
    (∀ p c, l ≤ p → p ≠ i → c ≠ i → child p c → c ≤ n →
       np_less (key (heap_get a p)) (key (heap_get a c)) = false) →
    (∀ p c, l ≤ p → child p i → child i c → c ≤ n →
       np_less (key (heap_get a p)) (key (heap_get a c)) = false) →
    (∀ p, l ≤ p → child p i → np_less (key (heap_get a p)) (key tmp) = false) →
    heap key (np_sift key a tmp i (i + i) n fuel) l n
    ∧ np_sift key a tmp i (i + i) n fuel ≡ₚ heap_set a i tmp
    ∧ drop n (np_sift key a tmp i (i + i) n fuel) = drop n a.
Proof.
  induction fuel as [|fuel IH]; intros a i Hl Hi Hin Hlen Hfuel Hrest Hgrand Hparent;
    [lia|].
  cbn [np_sift]. destruct (n <? i + i) eqn:Hleaf.
  - apply Nat.ltb_lt in Hleaf.
    split; [|split; [reflexivity|apply heap_set_drop; lia]].
    apply heap_hole_filled; try assumption; try lia.
    intros c Hc Hcn. destruct Hc; lia.
  - apply Nat.ltb_ge in Hleaf.
    set (j := if (i + i <? n)
                 && np_less (key (heap_get a (i + i))) (key (heap_get a (i + i + 1)))
              then i + i + 1 else i + i).
    assert (Hj : child i j ∧ j ≤ n
                 ∧ ∀ c, child i c → c ≤ n →
                        np_less (key (heap_get a j)) (key (heap_get a c)) = false).
    { subst j. destruct (i + i <? n) eqn:Hboth; cbn [andb].
      - apply Nat.ltb_lt in Hboth.
        destruct (np_less (key (heap_get a (i + i))) (key (heap_get a (i + i + 1))))
          eqn:Hless.
        + split; [right; lia|]. split; [lia|].
          intros c [->| ->] _.
          * apply np_less_asym. exact Hless.
          * replace (S (i + i)) with (i + i + 1) by lia. apply np_less_irrefl.
        + split; [left; reflexivity|]. split; [lia|].
          intros c [->| ->] _.
          * apply np_less_irrefl.
          * replace (S (i + i)) with (i + i + 1) by lia. exact Hless.
      - apply Nat.ltb_ge in Hboth.
        split; [left; reflexivity|]. split; [lia|].
        intros c [->| ->] Hcn; [apply np_less_irrefl|lia]. }
    clearbody j. destruct Hj as (Hchild & Hjn & Hmax).
    assert (Hij : i < j) by (destruct Hchild; lia).
    destruct (np_less (key tmp) (key (heap_get a j))) eqn:Hless.
    + destruct (IH (heap_set a i (heap_get a j)) j) as (Hheap & Hperm & Hdrop).
      * exact Hl.
      * lia.
      * exact Hjn.
      * rewrite heap_set_length. exact Hlen.
      * lia.
      * intros p c Hp Hpj Hcj Hc Hcn.
        assert (1 ≤ c) by (destruct Hc; lia).
        rewrite !heap_get_set by lia.
        destruct (decide (p = i)) as [->|Hpi], (decide (c = i)) as [->|Hci].
        -- destruct Hc; lia.
        -- apply Hmax; assumption.
        -- apply Hgrand; assumption.
        -- apply Hrest; assumption.
      * intros p c Hp Hpj Hc Hcn.
        assert (p = i) as -> by (destruct Hpj, Hchild; lia).
        assert (c ≠ i) by (destruct Hc; lia).
        rewrite !heap_get_set by (destruct Hc; lia).
        destruct (decide (i = i)); [|contradiction].
        destruct (decide (c = i)); [contradiction|].
        apply Hrest; try assumption; lia.
      * intros p Hp Hpj.
        assert (p = i) as -> by (destruct Hpj, Hchild; lia).
        rewrite heap_get_set by lia.
        destruct (decide (i = i)); [|contradiction].
        apply np_less_asym. exact Hless.
      * split; [exact Hheap|]. split.
        -- rewrite Hperm. apply heap_set_moves_hole; lia.
        -- rewrite Hdrop. apply heap_set_drop; lia.
    + split; [|split; [reflexivity|apply heap_set_drop; lia]].
      apply heap_hole_filled; try assumption; try lia.
      intros c Hc Hcn.
      exact (np_not_less_trans _ _ _ (Hmax c Hc Hcn) Hless).
Qed.

(** The first position of a heap holds a greatest key. *)
Lemma heap_root_max (a : list nat) (n : nat) :
  heap key a 1 n →
  ∀ c, 1 ≤ c → c ≤ n →
       np_less (key (heap_get a 1)) (key (heap_get a c)) = false.
Proof.
  intros Hheap c. induction c as [c IH] using lt_wf_ind. intros Hc Hcn.
  destruct (decide (c = 1)) as [->|Hne]; [apply np_less_irrefl|].
  pose proof (half_cases c) as Hhalf.
  assert (Hp : 1 ≤ c / 2 ∧ c / 2 < c) by lia.
  refine (np_not_less_trans _ _ _ _ (IH (c / 2) _ _ _)); try lia.
  apply Hheap; [lia|exact Hhalf|exact Hcn].
Qed.

Lemma np_heapify_spec (n l : nat) :
  ∀ a, l ≤ n → n ≤ length a → heap key a (S l) n →
       heap key (np_heapify key a l n) 1 n
       ∧ np_heapify key a l n ≡ₚ a
       ∧ drop n (np_heapify key a l n) = drop n a.
Proof.
  induction l as [|l IH]; intros a Hl Hlen Hheap.
  - split; [exact Hheap|]. split; reflexivity.
  - cbn [np_heapify].
    destruct (np_sift_spec (S l) n (heap_get a (S l)) n a (S l))
      as (Hheap1 & Hperm1 & Hdrop1); try lia.
    + intros p c Hp Hpi _ Hc Hcn. apply Hheap; [lia|exact Hc|exact Hcn].
    + intros p c Hp Hpi. destruct Hpi; lia.
    + intros p Hp Hpi. destruct Hpi; lia.
    + assert (Hid : heap_set a (S l) (heap_get a (S l)) = a).
      { unfold heap_set, heap_get. apply list_insert_id.
        apply list_lookup_lookup_total_lt. lia. }
      rewrite Hid in Hperm1.
      destruct (IH (np_sift key a (heap_get a (S l)) (S l) (S l + S l) n n))
        as (Hheap2 & Hperm2 & Hdrop2).
      * lia.
      * rewrite Hperm1. exact Hlen.
      * exact Hheap1.
      * split; [exact Hheap2|]. split.
        -- rewrite Hperm2. exact Hperm1.
        -- rewrite Hdrop2. exact Hdrop1.
Qed.

Lemma np_extract_spec (n : nat) :
  ∀ a, n ≤ length a → heap key a 1 n →
       StronglySorted (key_le key) (drop n a) →
       (∀ x y, x ∈ take n a → y ∈ drop n a → key_le key x y) →
       np_extract key a n ≡ₚ a
       ∧ StronglySorted (key_le key) (np_extract key a n).
Proof.
  induction n as [|n IH]; intros a Hlen Hheap Hsorted Hcross.
  - split; [reflexivity|exact Hsorted].
  - cbn [np_extract]. destruct n as [|m].
    + split; [reflexivity|].
      rewrite <- (take_drop 1 a). apply StronglySorted_app_2.
      * exact Hcross.
      * destruct a as [|x a]; cbn; repeat constructor.
      * exact Hsorted.
    + set (n := S m) in *.
      set (a1 := heap_set a (S n) (heap_get a 1)).
      assert (Hlen1 : length a1 = length a) by apply heap_set_length.
      destruct (np_sift_spec 1 n (heap_get a (S n)) n a1 1)
        as (Hheap2 & Hperm2 & Hdrop2); try lia.
      * intros p c Hp Hp1 Hc1 Hc Hcn. subst a1.
        rewrite !heap_get_set by (destruct Hc; lia).
        destruct (decide (p = S n)); [destruct Hc; lia|].
        destruct (decide (c = S n)); [lia|].
        apply Hheap; [exact Hp|exact Hc|lia].
      * intros p c Hp Hp1. destruct Hp1; lia.
      * intros p Hp Hp1. destruct Hp1; lia.
      * change (1 + 1) with 2 in *.
        set (a2 := np_sift key a1 (heap_get a (S n)) 1 2 n n) in *.
        assert (Hperm : heap_set a1 1 (heap_get a (S n)) ≡ₚ a).
        { subst a1. unfold heap_set, heap_get.
          replace (S n - 1) with n by lia. replace (1 - 1) with 0 by lia.
          apply Permutation_insert_swap; apply list_lookup_lookup_total_lt; lia. }
        assert (Hdrop1 : drop n a1 = a !!! 0 :: drop (S n) a).
        { subst a1. unfold heap_set, heap_get.
          replace (S n - 1) with n by lia. replace (1 - 1) with 0 by lia.
          rewrite (drop_S _ (a !!! 0) n) by (apply list_lookup_insert_eq; lia).
          rewrite drop_insert_lt by lia. reflexivity. }
        assert (Hroot : ∀ x, x ∈ take (S n) a → key_le key x (a !!! 0)).
        { intros x Hx. apply list_elem_of_lookup in Hx as [k Hk].
          apply lookup_take_Some in Hk as [Hk Hkn].
          pose proof (heap_root_max a (S n) Hheap (S k)) as Hmax.
          unfold heap_get in Hmax. replace (S k - 1) with k in Hmax by lia.
          replace (1 - 1) with 0 in Hmax by lia.
          rewrite (list_lookup_total_correct _ _ _ Hk) in Hmax.
          apply Hmax; lia. }
        assert (Hfirst : a !!! 0 ∈ take (S n) a).
        { apply list_elem_of_lookup. exists 0.
          rewrite lookup_take_lt by lia. apply list_lookup_lookup_total_lt. lia. }
        assert (Hkept : ∀ x, x ∈ take n a2 → x ∈ take (S n) a).
        { intros x Hx.
          rewrite (take_Permutation a2 (heap_set a1 1 (heap_get a (S n))) n) in Hx;
            [|exact Hperm2|rewrite Hdrop2; symmetry; apply heap_set_drop; lia].
          apply list_elem_of_lookup in Hx as [k Hk].
          apply lookup_take_Some in Hk as [Hk Hkn].
          apply list_elem_of_lookup. unfold heap_set, heap_get in Hk.
          replace (1 - 1) with 0 in Hk by lia.
          replace (S n - 1) with n in Hk by lia.
          destruct (decide (k = 0)) as [->|Hk0].
          - rewrite list_lookup_insert_eq in Hk by lia. injection Hk as <-.
            exists n. rewrite lookup_take_lt by lia.
            apply list_lookup_lookup_total_lt. lia.
          - rewrite list_lookup_insert_ne in Hk by lia.
            subst a1. unfold heap_set in Hk.
            rewrite list_lookup_insert_ne in Hk by lia.
            exists k. rewrite lookup_take_lt by lia. exact Hk. }
        destruct (IH a2) as (Hperm3 & Hsorted3).
        -- rewrite Hperm2, heap_set_length. lia.
        -- exact Hheap2.
        -- rewrite Hdrop2, Hdrop1. constructor; [exact Hsorted|].
           apply Forall_forall. intros y Hy. apply Hcross; [exact Hfirst|exact Hy].
        -- intros x y Hx Hy. rewrite Hdrop2, Hdrop1 in Hy.
           apply Hkept in Hx. apply elem_of_cons in Hy as [->|Hy].
           ++ apply Hroot, Hx.
           ++ apply Hcross; assumption.
        -- split; [|exact Hsorted3].
           rewrite Hperm3, Hperm2. exact Hperm.
Qed.

Lemma aheapsort_spec (a : list nat) :
  aheapsort_ key a ≡ₚ a ∧ StronglySorted (key_le key) (aheapsort_ key a).
Proof.
  unfold aheapsort_.
  pose proof (half_cases (length a)) as Hhalf.
  destruct (np_heapify_spec (length a) (length a / 2) a)
    as (Hheap & Hperm & Hdrop).
  - lia.
  - lia.
  - intros p c Hp Hc Hcn. destruct Hc; lia.
  - destruct (np_extract_spec (length a) (np_heapify key a (length a / 2) (length a)))
      as (Hperm' & Hsorted).
    + rewrite Hperm. lia.
    + exact Hheap.
    + rewrite Hdrop, drop_all. constructor.
    + intros x y _ Hy. rewrite Hdrop, drop_all in Hy. inversion Hy.
    + split; [rewrite Hperm'; exact Hperm|exact Hsorted].
Qed.

End Heapsort.

(** ** The quicksort *)

Section QuicksortSorts.

Local Open Scope nat_scope.

Variable key : nat → float.

(** The two halves of a partition, each sorted, make a sorted section. *)
Lemma sorted_halves (a left right : list nat) (p : nat) :
  p < length a →
  (∀ i, i < p → np_less (key (a !!! p)) (key (a !!! i)) = false) →
  (∀ j, p < j → j < length a → np_less (key (a !!! j)) (key (a !!! p)) = false) →
  left ≡ₚ take p a → StronglySorted (key_le key) left →
  right ≡ₚ drop (S p) a → StronglySorted (key_le key) right →
  left ++ a !!! p :: right ≡ₚ a
  ∧ StronglySorted (key_le key) (left ++ a !!! p :: right).
Proof.
  intros Hp Hlow Hhigh Hleft Hleft_sorted Hright Hright_sorted.
  assert (Hbelow : ∀ x, x ∈ left → key_le key x (a !!! p)).
  { intros x Hx. rewrite Hleft in Hx.
    apply list_elem_of_lookup in Hx as [i Hi].
    apply lookup_take_Some in Hi as [Hi Hip].
    rewrite <- (list_lookup_total_correct _ _ _ Hi). apply Hlow, Hip. }
  assert (Habove : ∀ y, y ∈ right → key_le key (a !!! p) y).
  { intros y Hy. rewrite Hright in Hy.
    apply list_elem_of_lookup in Hy as [j Hj].
    rewrite lookup_drop in Hj.
    rewrite <- (list_lookup_total_correct _ _ _ Hj).
    apply Hhigh; [lia|]. apply lookup_lt_Some in Hj. exact Hj. }
  split.
  - rewrite Hleft, Hright.
    rewrite (take_drop_middle a p (a !!! p)); [reflexivity|].
    apply list_lookup_lookup_total_lt, Hp.
  - apply StronglySorted_app_2.
    + intros x y Hx Hy. apply elem_of_cons in Hy as [->|Hy].
      * apply Hbelow, Hx.
      * exact (key_le_trans key _ _ _ (Hbelow x Hx) (Habove y Hy)).
    + exact Hleft_sorted.
    + constructor; [exact Hright_sorted|].
      apply Forall_forall. exact Habove.
Qed.

(** The quicksort sorts every section, whichever of its three sorts it
    comes to use. *)
Lemma aquicksort_spec (fuel : nat) :
  ∀ (from_stack : bool) (cdepth : Z) (section : list nat),
    length section < fuel →
    aquicksort_ key from_stack cdepth section fuel ≡ₚ section
    ∧ StronglySorted (key_le key) (aquicksort_ key from_stack cdepth section fuel).
Proof.
  induction fuel as [|fuel IH]; intros from_stack cdepth section Hfuel; [lia|].
  cbn [aquicksort_].
  destruct (from_stack && (cdepth <? 0)%Z); [apply aheapsort_spec|].
  destruct (17 <? length section) eqn:Hlong; [|apply np_insertion_sort_sorts].
  apply Nat.ltb_lt in Hlong.
  destruct (np_partition_spec key section) as (a & p & -> & Hperm & Hp & Hlow & Hhigh);
    [lia|].
  assert (Hlen : length a = length section) by (rewrite Hperm; reflexivity).
  assert (Hleft : length (take p a) < fuel) by (rewrite length_take; lia).
  assert (Hright : length (drop (S p) a) < fuel) by (rewrite length_drop; lia).
  assert (Hhigh' : ∀ j, p < j → j < length a →
                         np_less (key (a !!! j)) (key (a !!! p)) = false)
    by (intros j Hpj Hj; apply Hhigh; lia).
  destruct (p <? length section - 1 - p).
  - destruct (IH false (cdepth - 1)%Z _ Hleft) as [Hl Hls].
    destruct (IH true (cdepth - 1)%Z _ Hright) as [Hr Hrs].
    destruct (sorted_halves a _ _ p ltac:(lia) Hlow Hhigh' Hl Hls Hr Hrs) as [H1 H2].
    split; [rewrite H1; exact Hperm|exact H2].
  - destruct (IH true (cdepth - 1)%Z _ Hleft) as [Hl Hls].
    destruct (IH false (cdepth - 1)%Z _ Hright) as [Hr Hrs].
    destruct (sorted_halves a _ _ p ltac:(lia) Hlow Hhigh' Hl Hls Hr Hrs) as [H1 H2].
    split; [rewrite H1; exact Hperm|exact H2].
Qed.

End QuicksortSorts.

(** [argsort] returns the positions of the array, each once, and no key
    is less than one before it in numpy's order, whatever the keys. *)
Lemma np_argsort_sorts (v : list float) :
  np_argsort v ≡ₚ seq 0 (length v)
  ∧ StronglySorted (key_le (λ i, v !!! i)) (np_argsort v).
Proof.
  unfold np_argsort. apply aquicksort_spec. rewrite length_seq. lia.
Qed.

(** ** pandas around numpy *)

Lemma StronglySorted_with {A} (R : relation A) (P : A → Prop) (l : list A) :
  Forall P l → StronglySorted R l →
  StronglySorted (λ a b, R a b ∧ P a ∧ P b) l.
Proof.
  intros HP Hsorted. induction Hsorted as [|x l _ IH Hhead]; [constructor|].
  apply Forall_cons in HP as [Hx HP]. constructor; [exact (IH HP)|].
  apply Forall_forall. intros y Hy. split; [|split].
  - exact (proj1 (Forall_forall _ _) Hhead y Hy).
  - exact Hx.
  - exact (proj1 (Forall_forall _ _) HP y Hy).
Qed.

Lemma StronglySorted_last {A} (R : relation A) (l : list A) :
  Forall (λ y, ∀ x, R x y) l → StronglySorted R l.
Proof.
  induction 1 as [|y l Hy Hl IH]; constructor; [exact IH|].
  eapply Forall_impl; [exact Hl|]. intros z Hz. apply Hz.
Qed.

Lemma StronglySorted_lt_lookup (l : list nat) (i j : nat) :
  StronglySorted lt l → (i < j)%nat → (j < length l)%nat →
  (l !!! i < l !!! j)%nat.
Proof.
  intros Hsorted. revert i j.
  induction Hsorted as [|x l _ IH Hhead]; intros i j Hij Hj; [cbn in Hj; lia|].
  destruct j as [|j]; [lia|]. cbn in Hj.
  destruct i as [|i]; cbn.
  - apply (proj1 (Forall_forall _ _) Hhead).
    apply list_elem_of_lookup_total_2. lia.
  - apply IH; lia.
Qed.

Lemma reverse_lookup_total_lt (l : list nat) (a b : nat) :
  StronglySorted lt l → (a < b)%nat → (b < length l)%nat →
  (reverse l !!! b < reverse l !!! a)%nat.
Proof.
  intros Hsorted Hab Hb.
  rewrite !list_lookup_total_alt, !reverse_lookup by lia.
  rewrite <- !list_lookup_total_alt.
  apply StronglySorted_lt_lookup; [exact Hsorted|lia|lia].
Qed.

Lemma fmap_lookup_total_seq {A} `{Inhabited A} (l : list A) :
  (λ k, l !!! k) <$> seq 0 (length l) = l.
Proof.
  apply list_eq. intros i. rewrite list_lookup_fmap.
  destruct (l !! i) as [x|] eqn:Hx.
  - pose proof (lookup_lt_Some _ _ _ Hx) as Hi.
    rewrite (lookup_seq_lt _ _ _ Hi). cbn.
    rewrite (list_lookup_total_correct _ _ _ Hx). reflexivity.
  - apply lookup_ge_None in Hx. rewrite (lookup_seq_ge _ _ _ Hx). reflexivity.
Qed.

Lemma filter_split (f : nat → bool) (l : list nat) :
  filter (λ i, f i = false) l ++ filter (λ i, f i = true) l ≡ₚ l.
Proof.
  induction l as [|x l IH]; [reflexivity|].
  rewrite !filter_cons. destruct (f x) eqn:Hx.
  - destruct (decide (true = false)) as [Hd|_]; [discriminate Hd|].
    destruct (decide (true = true)) as [_|Hd]; [|contradiction].
    rewrite <- Permutation_middle. apply perm_skip, IH.
  - destruct (decide (false = false)) as [_|Hd]; [|contradiction].
    destruct (decide (false = true)) as [Hd|_]; [discriminate Hd|].
    cbn. apply perm_skip, IH.
Qed.

Lemma StronglySorted_filter {A} (R : relation A) (P : A → Prop)
    `{∀ x, Decision (P x)} (l : list A) :
  StronglySorted R l → StronglySorted R (filter P l).
Proof.
  induction 1 as [|x l _ IH Hhead]; [constructor|].
  rewrite filter_cons. destruct (decide (P x)); [|exact IH].
  constructor; [exact IH|].
  apply Forall_forall. intros y Hy. apply list_elem_of_filter in Hy as [_ Hy].
  exact (proj1 (Forall_forall _ _) Hhead y Hy).
Qed.

Lemma StronglySorted_impl {A} (R R' : relation A) (l : list A) :
  (∀ x y, R x y → R' x y) → StronglySorted R l → StronglySorted R' l.
Proof.
  intros Himpl. induction 1 as [|x l _ IH Hhead]; constructor; [exact IH|].
  eapply Forall_impl; [exact Hhead|]. intros y. apply Himpl.
Qed.

Lemma non_nan_idx_sorted (items : list float) :
  StronglySorted lt (non_nan_idx items).
Proof. unfold non_nan_idx. apply StronglySorted_filter, StronglySorted_seq. Qed.

Lemma non_nans_reversed_eq (items : list float) :
  non_nans_reversed items = (λ i, items !!! i) <$> reverse (non_nan_idx items).
Proof. unfold non_nans_reversed. symmetry. apply fmap_reverse. Qed.

Lemma non_nans_reversed_length (items : list float) :
  length (non_nans_reversed items) = length (non_nan_idx items).
Proof. unfold non_nans_reversed. rewrite length_reverse, length_fmap. reflexivity. Qed.

Lemma non_nans_reversed_lookup (items : list float) (k : nat) :
  (k < length (non_nan_idx items))%nat →
  non_nans_reversed items !!! k = items !!! (reverse (non_nan_idx items) !!! k)
  ∧ is_nan (non_nans_reversed items !!! k) = false.
Proof.
  intros Hk. rewrite non_nans_reversed_eq.
  assert (Hk' : (k < length (reverse (non_nan_idx items)))%nat)
    by (rewrite length_reverse; exact Hk).
  rewrite (list_lookup_total_fmap _ (reverse (non_nan_idx items)) k Hk').
  split; [reflexivity|].
  assert (Hin : reverse (non_nan_idx items) !!! k ∈ non_nan_idx items).
  { rewrite <- elem_of_reverse. apply list_elem_of_lookup_total_2, Hk'. }
  unfold non_nan_idx in Hin. apply list_elem_of_filter in Hin as [Hin _]. exact Hin.
Qed.

(** What pandas makes of numpy's answer: whatever order [R] numpy left
    among the positions it got, if [R] turns into [R'] under the two
    reversals, the positions pandas returns are all positions, each once,
    in the order [R'], those with a missing score last. *)
Lemma nargsort_order (items : list float) (R R' : relation nat) :
  np_argsort (non_nans_reversed items) ≡ₚ seq 0 (length (non_nans_reversed items)) →
  StronglySorted R (np_argsort (non_nans_reversed items)) →
  (∀ a b, (a < length (non_nan_idx items))%nat →
          (b < length (non_nan_idx items))%nat →
          R a b →
          R' (reverse (non_nan_idx items) !!! b) (reverse (non_nan_idx items) !!! a)) →
  (∀ i j, is_nan (items !!! j) = true → R' i j) →
  nargsort items ≡ₚ seq 0 (length items)
  ∧ StronglySorted R' (nargsort items).
Proof.
  intros Hperm Hsorted Hturn Hnan. unfold nargsort.
  rewrite non_nans_reversed_length in Hperm.
  set (s := np_argsort (non_nans_reversed items)) in *.
  set (m := length (non_nan_idx items)) in *.
  split.
  - rewrite reverse_Permutation, Hperm.
    replace m with (length (reverse (non_nan_idx items)))
      by (apply length_reverse).
    rewrite fmap_lookup_total_seq, reverse_Permutation.
    apply (filter_split (λ i, is_nan (items !!! i))).
  - assert (Hbelow : Forall (λ k, (k < m)%nat) s).
    { rewrite Hperm. apply Forall_forall. intros k Hk.
      apply elem_of_seq in Hk. lia. }
    apply StronglySorted_app_2.
    + intros x y _ Hy. apply Hnan.
      unfold nan_idx in Hy. apply list_elem_of_filter in Hy as [Hy _]. exact Hy.
    + apply StronglySorted_reverse.
      apply (StronglySorted_fmap _
               (λ a b, R a b ∧ (a < m)%nat ∧ (b < m)%nat)).
      * intros a b (Hab & Ha & Hb). apply Hturn; assumption.
      * apply StronglySorted_with; assumption.
    + apply StronglySorted_last, Forall_forall. intros y Hy x. apply Hnan.
      unfold nan_idx in Hy. apply list_elem_of_filter in Hy as [Hy _]. exact Hy.
Qed.

(** With at most 17 scores the positions come back ranked, equal scores
    in the order of their positions. *)
Lemma nargsort_small (items : list float) :
  (length items ≤ 17)%nat →
  nargsort items ≡ₚ seq 0 (length items)
  ∧ StronglySorted (ranked items) (nargsort items).
Proof.
  intros Hlen.
  assert (Hm : (length (non_nans_reversed items) ≤ 17)%nat).
  { rewrite non_nans_reversed_length. unfold non_nan_idx.
    etransitivity; [apply length_filter|]. rewrite length_seq. exact Hlen. }
  destruct (np_insertion_sort_spec (λ i, non_nans_reversed items !!! i)
              (seq 0 (length (non_nans_reversed items)))) as [Hperm Hsorted].
  { apply Forall_forall. intros k Hk. apply elem_of_seq in Hk.
    apply non_nans_reversed_lookup. rewrite <- non_nans_reversed_length. lia. }
  { apply StronglySorted_seq. }
  rewrite <- (np_argsort_small _ Hm) in Hperm, Hsorted.
  apply (nargsort_order items _ (ranked items) Hperm Hsorted).
  - intros a b Ha Hb Hab.
    destruct (non_nans_reversed_lookup items a Ha) as [Hka _].
    destruct (non_nans_reversed_lookup items b Hb) as [Hkb _].
    unfold key_then_position in Hab. rewrite Hka, Hkb in Hab.
    right. destruct Hab as [Hless|[Heq Hlt]]; [left; exact Hless|right].
    split; [apply eqb_sym, Heq|].
    apply reverse_lookup_total_lt; [apply non_nan_idx_sorted|exact Hlt|exact Hb].
  - intros i j Hj. left. exact Hj.
Qed.

(** With any number of scores the positions come back with no score
    above an earlier one and the missing scores last. *)
Lemma nargsort_sorted (items : list float) :
  nargsort items ≡ₚ seq 0 (length items)
  ∧ StronglySorted (λ i j, is_nan (items !!! j) = true
                           ∨ (items !!! j <=? items !!! i)%float = true)
      (nargsort items).
Proof.
  destruct (np_argsort_sorts (non_nans_reversed items)) as [Hperm Hsorted].
  apply (nargsort_order items _ _ Hperm Hsorted).
  - intros a b Ha Hb Hab. apply np_not_less_ltb in Hab.
    destruct (non_nans_reversed_lookup items a Ha) as [Hka Hna].
    destruct (non_nans_reversed_lookup items b Hb) as [Hkb Hnb].
    right. rewrite <- Hka, <- Hkb.
    destruct (ltb_total _ _ Hnb Hna Hab) as [H|H]; [apply ltb_leb, H|apply eqb_leb, H].
  - intros i j Hj. left. exact Hj.
Qed.

Ltac sorted_by_evaluation :=
  repeat first
    [ apply SSorted_nil
    | apply SSorted_cons
    | apply List.Forall_nil
    | apply List.Forall_cons; [right; vm_compute; reflexivity|] ].

Lemma df_take_fmap (rows : list scored_row) (indexer : list nat) :
  Forall (λ i, (i < length rows)%nat) indexer →
  df_take rows indexer = (λ i, rows !!! i) <$> indexer.
Proof.
  unfold df_take. induction 1 as [|i indexer Hi _ IH]; [reflexivity|].
  cbn [omap list_omap fmap list_fmap].
  destruct (lookup_lt_is_Some_2 _ _ Hi) as [r Hr].
  rewrite Hr, (list_lookup_total_correct _ _ _ Hr). cbn. f_equal. exact IH.
Qed.

Lemma indexer_in_range (rows : list scored_row) (indexer : list nat) :
  indexer ≡ₚ seq 0 (length rows) →
  Forall (λ i, (i < length rows)%nat) indexer.
Proof.
  intros Hperm. rewrite Hperm. apply Forall_forall. intros i Hi.
  apply elem_of_seq in Hi. lia.
Qed.

Lemma df_take_Permutation (rows : list scored_row) (indexer : list nat) :
  indexer ≡ₚ seq 0 (length rows) → df_take rows indexer ≡ₚ rows.
Proof.
  intros Hperm. rewrite (df_take_fmap _ _ (indexer_in_range _ _ Hperm)).
  rewrite Hperm. rewrite fmap_lookup_total_seq. reflexivity.
Qed.

Lemma df_take_sorted (rows : list scored_row) (indexer : list nat) :
  indexer ≡ₚ seq 0 (length rows) →
  StronglySorted (λ i j, is_nan ((Final_Score <$> rows) !!! j) = true
                         ∨ ((Final_Score <$> rows) !!! j
                            <=? (Final_Score <$> rows) !!! i)%float = true)
    indexer →
  sorted_desc (df_take rows indexer).
Proof.
  intros Hperm Hsorted. pose proof (indexer_in_range _ _ Hperm) as Hrange.
  rewrite (df_take_fmap _ _ Hrange). unfold sorted_desc.
  apply (StronglySorted_fmap _
           (λ i j, (is_nan ((Final_Score <$> rows) !!! j) = true
                    ∨ ((Final_Score <$> rows) !!! j
                       <=? (Final_Score <$> rows) !!! i)%float = true)
                   ∧ (i < length rows)%nat ∧ (j < length rows)%nat)).
  - intros i j (Hij & Hi & Hj). unfold before_desc.
    rewrite (list_lookup_total_fmap Final_Score rows i Hi),
      (list_lookup_total_fmap Final_Score rows j Hj) in Hij.
    exact Hij.
  - apply StronglySorted_with; assumption.
Qed.

Lemma ranked_sorted (scores : list float) (indexer : list nat) :
  StronglySorted (ranked scores) indexer →
  StronglySorted (λ i j, is_nan (scores !!! j) = true
                         ∨ (scores !!! j <=? scores !!! i)%float = true) indexer.
Proof.
  apply StronglySorted_impl. intros i j [Hnan|[Hless|[Heq _]]].
  - left. exact Hnan.
  - right. apply ltb_leb, Hless.
  - right. apply eqb_leb, eqb_sym, Heq.
Qed.

(** C3, as amended: on a loaded engine the result of [run_search] is the
    scored table, whose rows stand in corpus order, rearranged by
    [sort_values] as pandas and numpy compute it.  Whatever the size of
    the corpus and whatever the scores, the result holds every scored row
    once, sorted by [Final_Score], largest first and missing scores last.
    For a corpus of at most 17 records rows of equal score keep their
    corpus order; for a larger corpus they need not.  A second search with
    the same query on the same engine returns the same table in the same
    order. *)
Theorem run_search_sorted (ext : libs) (prefs : gmap string value)
    (w w1 : world) (embeddings : list vec) (scored : list scored_row) :
  df_sort_values_desc ext = pandas_sort_values_desc →
  empty (data (eng w)) = false →
  corpus_embeddings (eng w) = Some embeddings →
  score_table ext prefs embeddings w = (Returned scored, w1) →
  let scores := Final_Score <$> scored in
  let res := df_take scored (nargsort scores) in
  run_search ext prefs w = (Returned (Table res), w1)
  ∧ listing <$> scored = rows_of (data (eng w))
  ∧ nargsort scores ≡ₚ seq 0 (length scored)
  ∧ res ≡ₚ scored
  ∧ sorted_desc res
  ∧ ((length scored ≤ 17)%nat →
     StronglySorted (ranked scores) (nargsort scores))
  ∧ (∀ w2, eng w2 = eng w →
           (run_search ext prefs w2).1 = Returned (Table res)).
Proof.
  intros Hsort Hempty Hemb Hscored. cbn zeta.
  assert (Hrun : run_search ext prefs w
                 = (Returned (Table (df_take scored (nargsort (Final_Score <$> scored)))),
                    w1)).
  { unfold run_search. rewrite run_bind. cbn [self].
    rewrite Hempty, Hemb, run_bind, Hscored, Hsort. reflexivity. }
  assert (Hlen : length (Final_Score <$> scored) = length scored)
    by apply length_fmap.
  destruct (nargsort_sorted (Final_Score <$> scored)) as [Hperm Hsorted].
  rewrite Hlen in Hperm.
  split; [exact Hrun|]. split; [|split; [|split; [|split; [|split]]]].
  - exact (proj2 (score_table_Returned ext prefs embeddings w scored w1 Hscored)).
  - exact Hperm.
  - apply df_take_Permutation, Hperm.
  - apply df_take_sorted; assumption.
  - intros Hsmall. apply nargsort_small. rewrite Hlen. exact Hsmall.
  - intros w2 Heng.
    destruct (reads_engine_only_run_search ext prefs w2 w Heng) as [Hout _].
    rewrite Hout, Hrun. reflexivity.
Qed.

Lemma run_search_sorted_witness :
  let ext := with_pandas_sort (demo_libs []) in
  let scores := Final_Score <$> demo_scored in
  let res := df_take demo_scored (nargsort scores) in
  run_search ext demo_prefs demo_world
  = (Returned (Table res), (run_search ext demo_prefs demo_world).2)
  ∧ listing <$> demo_scored = rows_of (data (eng demo_world))
  ∧ nargsort scores ≡ₚ seq 0 (length demo_scored)
  ∧ res ≡ₚ demo_scored
  ∧ sorted_desc res
  ∧ ((length demo_scored ≤ 17)%nat →
     StronglySorted (ranked scores) (nargsort scores))
  ∧ (∀ w2, eng w2 = eng demo_world →
           (run_search ext demo_prefs w2).1 = Returned (Table res)).
Proof.
  apply (run_search_sorted (with_pandas_sort (demo_libs [])) demo_prefs demo_world
           (run_search (with_pandas_sort (demo_libs [])) demo_prefs demo_world).2
           (default [] (corpus_embeddings (eng demo_world))) demo_scored).
  - reflexivity.
  - reflexivity.
  - reflexivity.
  - vm_compute. reflexivity.
Defined.

(** C3, as stated, fails for the order of ties.  A file lists the same
    flat 18 times, so the 18 rows of the corpus, labelled 0 to 17 in file
    order, all get the final score 1.  The search returns them in the
    order 0, 1, 16, 15, ..., 2, 17: numpy's quicksort partitions an array
    of more than 17 keys, and its partition swaps equal keys. *)
Lemma eighteen_equal_scores_are_reordered :
  index <$> rows_of (data (eng (tied_world 18))) = seq 0 18
  ∧ ∃ res w1,
      run_search (tied_libs 18) demo_prefs (tied_world 18)
      = (Returned (Table res), w1)
      ∧ Forall (λ r, Final_Score r = 1%float) res
      ∧ (λ r, index (listing r)) <$> res
        = [0; 1; 16; 15; 14; 13; 12; 11; 10; 9; 8; 7; 6; 5; 4; 3; 2; 17]%nat
      ∧ sorted_desc res
      ∧ ¬ ties_keep_order res.
Proof.
  split; [vm_compute; reflexivity|].
  eexists _, _. split; [vm_compute; reflexivity|].
  split; [repeat constructor|]. split; [reflexivity|]. split.
  - unfold sorted_desc. sorted_by_evaluation.
  - intros Hties.
    do 2 (apply StronglySorted_inv in Hties as [Hties _]).
    apply StronglySorted_inv in Hties as [_ Hhead].
    inversion Hhead as [|b rest Hlt _]; subst.
    specialize (Hlt eq_refl). cbn in Hlt. lia.
Qed.

(** With one flat less the rows come back in file order. *)
Example seventeen_equal_scores_keep_their_order :
  ∃ res w1,
    run_search (tied_libs 17) demo_prefs (tied_world 17)
    = (Returned (Table res), w1)
    ∧ (λ r, index (listing r)) <$> res = seq 0 17.
Proof. eexists _, _. split; vm_compute; reflexivity. Qed.

(** ** What a successful build leaves behind *)

Lemma clean_bedrooms_int (ext : libs) (v b : value) :
  clean_bedrooms ext v = Returned b → ∃ z, b = VInt z.
Proof.
  unfold clean_bedrooms, astype_int.
  destruct (trunc_float _) as [z|]; [|discriminate].
  intros H. injection H as <-. eexists. reflexivity.
Qed.

Lemma set_Bedrooms_cleaned (ext : libs) (lines : list raw_row)
    (rows : list row) (beds : list value) :
  Forall (from_line ext lines) rows →
  Forall2 (λ r b, clean_bedrooms ext (Bedrooms r) = Returned b) rows beds →
  Forall cleaned (zip_with set_Bedrooms rows beds).
Proof.
  intros Hrows Hbeds. induction Hbeds as [|r b rows beds Hb _ IH]; cbn.
  - constructor.
  - apply Forall_cons in Hrows as [(_ & l & _ & _ & Hprice) Hrows].
    apply List.Forall_cons; [|exact (IH Hrows)].
    apply clean_bedrooms_int in Hb as [z ->].
    split; [|exists z; reflexivity]. cbn. rewrite Hprice.
    destruct (price l); cbn; eauto.
Qed.

Lemma load_source_cleans (ext : libs) (file_path : string) (w w' : world) :
  load_try ext file_path w = (Returned tt, w') →
  Forall cleaned (rows_of (data (eng w')))
  ∧ Forall (λ r, isna (Price r) = false) (rows_of (data (eng w'))).
Proof.
  intros Hrun.
  pose proof (load_try_cases ext file_path w) as Hcases. cbn zeta in Hcases.
  destruct (pd_read_csv ext file_path) as [[name|lines]|e];
    [rewrite Hcases in Hrun; discriminate Hrun| |rewrite Hcases in Hrun; discriminate Hrun].
  destruct (mapM _ (prepared ext lines)) as [beds|e] eqn:Hbeds;
    [|rewrite Hcases in Hrun; discriminate Hrun].
  destruct (model_encode ext _) as [embeddings|e];
    [|rewrite Hcases in Hrun; discriminate Hrun].
  rewrite Hcases in Hrun. injection Hrun as <-. cbn.
  apply mapM_Forall2 in Hbeds.
  pose proof (set_Bedrooms_cleaned ext lines _ _ (prepared_from_line ext lines) Hbeds)
    as Hclean.
  split.
  - apply Forall_forall. intros r Hr.
    apply list_elem_of_filter in Hr as [_ Hr].
    exact (proj1 (Forall_forall _ _) Hclean r Hr).
  - apply Forall_forall. intros r Hr.
    apply list_elem_of_filter in Hr as [Hr _]. exact Hr.
Qed.

(** ** The route on an engine that is not ready *)

Lemma perform_search_not_loaded (ext : libs) (request : SearchRequest) (w : world) :
  empty (data (eng w)) = true →
  perform_search ext request w
  = (Raised (HTTPException 500 "Data source not loaded."), w).
Proof.
  intros Hempty. unfold perform_search. rewrite run_bind. cbn [self].
  rewrite Hempty. reflexivity.
Qed.

Lemma perform_search_without_embeddings (ext : libs) (request : SearchRequest)
    (w : world) :
  empty (data (eng w)) = false →
  corpus_embeddings (eng w) = None →
  perform_search ext request w
  = (Raised (KeyError "Final_Score"), logged (LogError SearchFailedNoData) w).
Proof.
  intros Hrows Hnone. unfold perform_search. rewrite run_bind. cbn [self].
  rewrite Hrows. cbn zeta. rewrite run_bind.
  rewrite run_search_guard by (right; exact Hnone).
  reflexivity.
Qed.

(** ** The model at work *)

(** The two-listing scenario: the flat that meets both limits and matches
    the text comes first with hard score 1; the other listing fails both
    limits and has hard score 0. *)
Example demo_ranking :
  ∃ w1,
    run_search (demo_libs []) demo_prefs demo_world
    = (Returned (Table (stable_sort_desc demo_scored)), w1)
    ∧ (λ r, (index (listing r), Hard_Score r)) <$> stable_sort_desc demo_scored
      = [(0%nat, 1%float); (2%nat, 0%float)].
Proof. eexists. split; vm_compute; reflexivity. Qed.

(** Of 1001 lines with a price, the engine holds the first 1000, line 999
    included and line 1000 not. *)
Example long_file_labels :
  index <$> rows_of (data (eng (load_source (demo_libs long_file)
                                  "data/apartments_for_rent.csv" (fresh CONFIG)).2))
  = seq 0 1000.
Proof. vm_compute. reflexivity. Qed.

(** Of 1001 lines, 1000 reach the engine. *)
Example long_file_rows :
  length (rows_of (data (eng (load_source (demo_libs long_file)
                                "data/apartments_for_rent.csv" (fresh CONFIG)).2)))
  = 1000%nat.
Proof. vm_compute. reflexivity. Qed.

(** * Further properties of the build *)

(** X1: after a build that runs to its end, every row of the table is the
    image of the file line whose number is the row's index label: the
    price converted to a number, the description filled in, the bedroom
    count normalised, bathrooms and city copied as they were read. *)
Theorem built_rows_come_from_lines (ext : libs) (file_path : string) (w w' : world)
    (lines : list raw_row) :
  pd_read_csv ext file_path = Returned (Columns lines) →
  load_try ext file_path w = (Returned tt, w') →
  Forall (λ r, ∃ l b, lines !! index r = Some l
                      ∧ clean_bedrooms ext (bedrooms l) = Returned b
                      ∧ r = cleaned_row ext (index r) l b)
    (rows_of (data (eng w'))).
Proof.
  intros Hread Hrun.
  apply load_try_success in Hrun as (lines' & beds & embeddings & Hread' & Hbeds & _ & ->).
  rewrite Hread in Hread'. injection Hread' as <-. cbn.
  apply Forall_forall. intros r Hr.
  apply (kept_rows_elem ext lines beds r Hbeds) in Hr as (_ & l & b & Hl & Hb & _ & Hr).
  exists l, b. repeat split; assumption.
Qed.

Lemma built_rows_come_from_lines_witness :
  Forall (λ r, ∃ l b, [listing_0; listing_unpriced; listing_1] !! index r = Some l
                      ∧ clean_bedrooms (demo_libs [listing_0; listing_unpriced; listing_1])
                          (bedrooms l) = Returned b
                      ∧ r = cleaned_row (demo_libs [listing_0; listing_unpriced; listing_1])
                              (index r) l b)
    (rows_of (data (eng demo_world))).
Proof.
  apply (built_rows_come_from_lines
           (demo_libs [listing_0; listing_unpriced; listing_1])
           "data/apartments_for_rent.csv" (fresh CONFIG) demo_world).
  - reflexivity.
  - vm_compute. reflexivity.
Defined.

Lemma clean_bedrooms_spec (ext : libs) (v b : value) :
  clean_bedrooms ext v = Returned b →
  ∃ z, b = VInt z
       ∧ (- 2 ^ 63 ≤ z < 2 ^ 63)
       ∧ (is_nan (to_numeric ext v) = true → z = 0).
Proof.
  unfold clean_bedrooms, astype_int.
  destruct (is_nan (to_numeric ext v)) eqn:Hnan.
  - cbn. intros H. injection H as <-. exists 0. split; [reflexivity|].
    split; [lia|reflexivity].
  - destruct (trunc_float _) as [t|]; [|discriminate].
    intros H. injection H as <-. exists (to_int64 t).
    split; [reflexivity|]. split; [|discriminate].
    unfold to_int64.
    destruct (- 2 ^ 63 <=? t) eqn:Hlo, (t <? 2 ^ 63) eqn:Hhi; cbn; lia.
Qed.

(** X2: after a build that runs to its end, every row's bedroom count is
    an integer of the int64 range, and it is 0 whenever the cell of the
    file is missing or is not a number. *)
Theorem bedrooms_normalised (ext : libs) (file_path : string) (w w' : world)
    (lines : list raw_row) :
  pd_read_csv ext file_path = Returned (Columns lines) →
  load_try ext file_path w = (Returned tt, w') →
  Forall (λ r, ∃ l z, lines !! index r = Some l
                      ∧ Bedrooms r = VInt z
                      ∧ (- 2 ^ 63 ≤ z < 2 ^ 63)
                      ∧ (is_nan (to_numeric ext (bedrooms l)) = true → z = 0))
    (rows_of (data (eng w'))).
Proof.
  intros Hread Hrun.
  apply load_try_success in Hrun as (lines' & beds & embeddings & Hread' & Hbeds & _ & ->).
  rewrite Hread in Hread'. injection Hread' as <-. cbn.
  apply Forall_forall. intros r Hr.
  apply (kept_rows_elem ext lines beds r Hbeds) in Hr as (_ & l & b & Hl & Hb & _ & Hr).
  apply clean_bedrooms_spec in Hb as (z & -> & Hrange & Hzero).
  exists l, z. rewrite Hr at 2. cbn. repeat split; try assumption; lia.
Qed.

Lemma bedrooms_normalised_witness :
  let lines := [listing_0; listing_unpriced; listing_1] in
  Forall (λ r, ∃ l z, lines !! index r = Some l
                      ∧ Bedrooms r = VInt z
                      ∧ (- 2 ^ 63 ≤ z < 2 ^ 63)
                      ∧ (is_nan (to_numeric (demo_libs lines) (bedrooms l)) = true → z = 0))
    (rows_of (data (eng demo_world))).
Proof.
  apply (bedrooms_normalised
           (demo_libs [listing_0; listing_unpriced; listing_1])
           "data/apartments_for_rent.csv" (fresh CONFIG) demo_world).
  - reflexivity.
  - vm_compute. reflexivity.
Defined.

Lemma bedded_index (ext : libs) (lines : list raw_row) (beds : list value) :
  mapM (λ r, clean_bedrooms ext (Bedrooms r)) (prepared ext lines) = Returned beds →
  index <$> zip_with set_Bedrooms (prepared ext lines) beds
  = seq 0 (length (zip_with set_Bedrooms (prepared ext lines) beds)).
Proof.
  intros Hbeds. apply list_eq. intros i. rewrite list_lookup_fmap.
  destruct (zip_with set_Bedrooms (prepared ext lines) beds !! i) as [r|] eqn:Hr.
  - pose proof (lookup_lt_Some _ _ _ Hr) as Hi.
    rewrite (lookup_seq_lt _ _ _ Hi).
    apply (bedded_lookup ext lines beds i r Hbeds) in Hr as (_ & l & b & _ & _ & ->).
    reflexivity.
  - apply lookup_ge_None in Hr. rewrite (lookup_seq_ge _ _ _ Hr). reflexivity.
Qed.

(** X3: the price filter of a build that runs to its end.  Every row kept
    has a numeric price; every line among the first 1000 whose price is
    numeric is kept, under the index label that is its line number; and
    the rows stand in file order, the labels of the dropped lines left as
    gaps. *)
Theorem price_filter_keeps_numeric_prices (ext : libs) (file_path : string)
    (w w' : world) (lines : list raw_row) :
  pd_read_csv ext file_path = Returned (Columns lines) →
  load_try ext file_path w = (Returned tt, w') →
  Forall (λ r, isna (Price r) = false) (rows_of (data (eng w')))
  ∧ (∀ i l, lines !! i = Some l → (i < 1000)%nat →
            is_nan (to_numeric ext (price l)) = false →
            ∃ r, r ∈ rows_of (data (eng w')) ∧ index r = i)
  ∧ StronglySorted lt (index <$> rows_of (data (eng w'))).
Proof.
  intros Hread Hrun.
  pose proof (load_source_cleans ext file_path w w' Hrun) as [_ Hnumeric].
  apply load_try_success in Hrun as (lines' & beds & embeddings & Hread' & Hbeds & _ & ->).
  rewrite Hread in Hread'. injection Hread' as <-.
  split; [exact Hnumeric|]. cbn. split.
  - intros i l Hl Hi Hprice.
    assert (Hr0 : prepared ext lines !! i = Some (cleaned_row ext i l (bedrooms l))).
    { apply prepared_lookup_iff. split; [exact Hi|]. exists l. split; [exact Hl|reflexivity]. }
    destruct (Forall2_lookup_l _ _ _ _ _ (mapM_Forall2 _ _ _ Hbeds) Hr0)
      as (b & _ & Hb). cbn in Hb.
    exists (cleaned_row ext i l b). split; [|reflexivity].
    apply (kept_rows_elem ext lines beds _ Hbeds). cbn.
    split; [exact Hi|]. exists l, b.
    repeat split; try assumption. apply numeric_cell_kept, Hprice.
  - unfold kept_rows, dropna_Price. apply StronglySorted_fmap_filter.
    rewrite (bedded_index ext lines beds Hbeds). apply StronglySorted_seq.
Qed.

Lemma price_filter_keeps_numeric_prices_witness :
  let lines := [listing_0; listing_unpriced; listing_1] in
  Forall (λ r, isna (Price r) = false) (rows_of (data (eng demo_world)))
  ∧ (∀ i l, lines !! i = Some l → (i < 1000)%nat →
            is_nan (to_numeric (demo_libs lines) (price l)) = false →
            ∃ r, r ∈ rows_of (data (eng demo_world)) ∧ index r = i)
  ∧ StronglySorted lt (index <$> rows_of (data (eng demo_world))).
Proof.
  apply (price_filter_keeps_numeric_prices
           (demo_libs [listing_0; listing_unpriced; listing_1])
           "data/apartments_for_rent.csv" (fresh CONFIG) demo_world).
  - reflexivity.
  - vm_compute. reflexivity.
Defined.

(** X4: a build that runs to its end calls the model exactly once, with
    the descriptions of exactly the rows it keeps, in row order; the
    lines it drops are never sent.  Besides that call it logs the file
    name, the number of rows kept, and that the engine is ready. *)
Theorem build_encodes_kept_rows_once (ext : libs) (file_path : string)
    (w w' : world) :
  load_try ext file_path w = (Returned tt, w') →
  trace w'
  = (trace w
     ++ [ LogInfo (Loading file_path);
          LogInfo (Vectorizing (length (rows_of (data (eng w')))));
          ModelEncode (Description <$> rows_of (data (eng w')));
          LogInfo EngineReady ])%list.
Proof.
  intros Hrun.
  apply load_try_success in Hrun as (lines & beds & embeddings & _ & _ & _ & ->).
  cbn. rewrite <- !app_assoc. reflexivity.
Qed.

Lemma build_encodes_kept_rows_once_witness :
  trace demo_world
  = (trace (fresh CONFIG)
     ++ [ LogInfo (Loading "data/apartments_for_rent.csv");
          LogInfo (Vectorizing (length (rows_of (data (eng demo_world)))));
          ModelEncode (Description <$> rows_of (data (eng demo_world)));
          LogInfo EngineReady ])%list.
Proof.
  apply (build_encodes_kept_rows_once
           (demo_libs [listing_0; listing_unpriced; listing_1])
           "data/apartments_for_rent.csv" (fresh CONFIG) demo_world).
  vm_compute. reflexivity.
Defined.

Lemma mapM_fails {A B} (f : A → outcome B) (l : list A) (e : py_exn) :
  (∀ x e', f x = Raised e' → e' = e) →
  (∃ x e', x ∈ l ∧ f x = Raised e') →
  mapM f l = Raised e.
Proof.
  intros Honly (x & e' & Hx & Hfx).
  induction l as [|y l IH]; [apply not_elem_of_nil in Hx; destruct Hx|].
  cbn [mapM]. destruct (f y) as [b|e0] eqn:Hy.
  - cbn. apply elem_of_cons in Hx as [->|Hx]; [rewrite Hfx in Hy; discriminate Hy|].
    rewrite (IH Hx). reflexivity.
  - cbn. rewrite (Honly y e0 Hy). reflexivity.
Qed.

Lemma clean_bedrooms_only_ValueError (ext : libs) (v : value) (e : py_exn) :
  clean_bedrooms ext v = Raised e → e = ValueError.
Proof.
  unfold clean_bedrooms, astype_int.
  destruct (trunc_float _); [discriminate|]. intros H. injection H as <-. reflexivity.
Qed.

Lemma clean_bedrooms_infinite (ext : libs) (v : value) :
  to_numeric ext v = infinity ∨ to_numeric ext v = neg_infinity →
  clean_bedrooms ext v = Raised ValueError.
Proof. unfold clean_bedrooms. intros [-> | ->]; reflexivity. Qed.

Lemma load_try_infinite_bedrooms (ext : libs) (file_path : string)
    (w : world) (lines : list raw_row) (i : nat) (l : raw_row) :
  pd_read_csv ext file_path = Returned (Columns lines) →
  lines !! i = Some l →
  (i < 1000)%nat →
  to_numeric ext (bedrooms l) = infinity ∨ to_numeric ext (bedrooms l) = neg_infinity →
  load_try ext file_path w
  = (Raised ValueError,
     with_data (Table (prepared ext lines)) (logged (LogInfo (Loading file_path)) w)).
Proof.
  intros Hread Hl Hi Hinf.
  pose proof (load_try_cases ext file_path w) as Hcases.
  rewrite Hread in Hcases. cbn zeta in Hcases.
  rewrite (mapM_fails _ (prepared ext lines) ValueError) in Hcases.
  - exact Hcases.
  - intros r e. apply clean_bedrooms_only_ValueError.
  - exists (cleaned_row ext i l (bedrooms l)), ValueError. split.
    + apply list_elem_of_lookup. exists i. apply prepared_lookup_iff.
      split; [exact Hi|]. exists l. split; [exact Hl|reflexivity].
    + cbn. apply clean_bedrooms_infinite, Hinf.
Qed.

(** X5: one infinite bedroom count among the first 1000 lines makes the
    whole build fail, even on a line the price filter would have dropped:
    the conversion to integers raises ValueError before the filter and
    before the model is called.  The failure is logged, the embeddings
    are left as they were, and the table holds all of the first 1000
    lines with their bedroom column unconverted. *)
Theorem infinite_bedrooms_fail_the_build (ext : libs) (file_path : string)
    (w : world) (lines : list raw_row) (i : nat) (l : raw_row) :
  pd_read_csv ext file_path = Returned (Columns lines) →
  lines !! i = Some l →
  (i < 1000)%nat →
  to_numeric ext (bedrooms l) = infinity ∨ to_numeric ext (bedrooms l) = neg_infinity →
  load_source ext file_path w
  = (Returned tt,
     logged (LogError (CriticalFailure ValueError))
       (with_data (Table (prepared ext lines))
          (logged (LogInfo (Loading file_path)) w))).
Proof.
  intros Hread Hl Hi Hinf. rewrite load_source_unfold.
  rewrite (load_try_infinite_bedrooms ext file_path w lines i l Hread Hl Hi Hinf).
  reflexivity.
Qed.

Lemma infinite_bedrooms_fail_the_build_witness :
  let lines := [listing_0; listing_endless] in
  load_source (demo_libs lines) "data/apartments_for_rent.csv" (fresh CONFIG)
  = (Returned tt,
     logged (LogError (CriticalFailure ValueError))
       (with_data (Table (prepared (demo_libs lines) lines))
          (logged (LogInfo (Loading "data/apartments_for_rent.csv")) (fresh CONFIG)))).
Proof.
  apply (infinite_bedrooms_fail_the_build (demo_libs [listing_0; listing_endless])
           "data/apartments_for_rent.csv" (fresh CONFIG)
           [listing_0; listing_endless] 1 listing_endless).
  - reflexivity.
  - reflexivity.
  - lia.
  - left. reflexivity.
Defined.

(** X6: a build that runs to its end replaces the table and the
    embeddings wholesale.  What the engine held before has no influence:
    started from any other state the same build also runs to its end and
    leaves the same table and the same embeddings.  The configuration is
    never touched, whether the build succeeds or not. *)
Theorem load_source_replaces_the_corpus (ext : libs) (file_path : string)
    (w1 w1' w2 : world) :
  load_try ext file_path w1 = (Returned tt, w1') →
  (∃ w2', load_try ext file_path w2 = (Returned tt, w2')
          ∧ data (eng w2') = data (eng w1')
          ∧ corpus_embeddings (eng w2') = corpus_embeddings (eng w1'))
  ∧ self_config (eng (load_source ext file_path w2).2) = self_config (eng w2).
Proof.
  intros Hrun. split.
  - apply load_try_success in Hrun
      as (lines & beds & embeddings & Hread & Hbeds & Hencode & ->).
    pose proof (load_try_cases ext file_path w2) as Hcases.
    rewrite Hread in Hcases. cbn zeta in Hcases. rewrite Hbeds in Hcases.
    fold (kept_rows ext lines beds) in Hcases. rewrite Hencode in Hcases.
    eexists. split; [exact Hcases|]. split; reflexivity.
  - rewrite load_source_unfold.
    pose proof (load_try_cases ext file_path w2) as Hcases. cbn zeta in Hcases.
    destruct (pd_read_csv ext file_path) as [[name|lines]|e];
      [rewrite Hcases; reflexivity| |rewrite Hcases; reflexivity].
    destruct (mapM _ (prepared ext lines)) as [beds|e];
      [|rewrite Hcases; reflexivity].
    destruct (model_encode ext _) as [embeddings|e]; rewrite Hcases; reflexivity.
Qed.

Lemma load_source_replaces_the_corpus_witness :
  let ext := demo_libs [listing_0; listing_unpriced; listing_1] in
  (∃ w2', load_try ext "data/apartments_for_rent.csv" twin_world = (Returned tt, w2')
          ∧ data (eng w2') = data (eng demo_world)
          ∧ corpus_embeddings (eng w2') = corpus_embeddings (eng demo_world))
  ∧ self_config (eng (load_source ext "data/apartments_for_rent.csv" twin_world).2)
    = self_config (eng twin_world).
Proof.
  apply (load_source_replaces_the_corpus
           (demo_libs [listing_0; listing_unpriced; listing_1])
           "data/apartments_for_rent.csv" (fresh CONFIG) demo_world twin_world).
  vm_compute. reflexivity.
Defined.

(** X7: when the model fails during a build, the new table is already in
    place and the embeddings are still the old ones.  On an engine that
    was loaded before, the rows of one file then stand next to the
    embeddings of another, and the guard of [run_search] does not notice:
    with a row kept and embeddings present the engine counts as ready. *)
Theorem failed_encoding_keeps_old_embeddings (ext : libs) (file_path : string)
    (w : world) (lines : list raw_row) (beds : list value) (e : py_exn) :
  pd_read_csv ext file_path = Returned (Columns lines) →
  mapM (λ r, clean_bedrooms ext (Bedrooms r)) (prepared ext lines) = Returned beds →
  model_encode ext (Description <$> kept_rows ext lines beds) = Raised e →
  let w' := (load_source ext file_path w).2 in
  data (eng w') = Table (kept_rows ext lines beds)
  ∧ corpus_embeddings (eng w') = corpus_embeddings (eng w)
  ∧ (kept_rows ext lines beds ≠ [] → corpus_embeddings (eng w) ≠ None →
     ¬ not_ready (eng w')).
Proof.
  intros Hread Hbeds Hencode. cbn zeta. rewrite load_source_unfold.
  pose proof (load_try_cases ext file_path w) as Hcases.
  rewrite Hread in Hcases. cbn zeta in Hcases. rewrite Hbeds in Hcases.
  fold (kept_rows ext lines beds) in Hcases. rewrite Hencode in Hcases.
  rewrite Hcases. cbn. split; [reflexivity|]. split; [reflexivity|].
  intros Hrows Hold [Hempty | Hnone].
  - destruct (kept_rows ext lines beds); [contradiction|discriminate Hempty].
  - contradiction.
Qed.

Lemma failed_encoding_keeps_old_embeddings_witness :
  let ext := model_failing (LibraryError "RuntimeError") (demo_libs [listing_0]) in
  let w' := (load_source ext "data/apartments_for_rent.csv" demo_world).2 in
  data (eng w') = Table (kept_rows ext [listing_0] [VInt 2])
  ∧ corpus_embeddings (eng w') = corpus_embeddings (eng demo_world)
  ∧ (kept_rows ext [listing_0] [VInt 2] ≠ [] →
     corpus_embeddings (eng demo_world) ≠ None →
     ¬ not_ready (eng w')).
Proof.
  apply (failed_encoding_keeps_old_embeddings
           (model_failing (LibraryError "RuntimeError") (demo_libs [listing_0]))
           "data/apartments_for_rent.csv" demo_world [listing_0] [VInt 2]
           (LibraryError "RuntimeError")).
  - reflexivity.
  - vm_compute. reflexivity.
  - reflexivity.
Defined.

(** * Further properties of the search *)

Lemma paired_scores (cfg : weights) (rows : list row) (sem hs : list float) :
  length sem = length rows → length hs = length rows →
  (λ r, (listing r, Semantic_Score r)) <$> zip_with (score_row cfg) (zip rows sem) hs
  = zip rows sem
  ∧ (λ r, (listing r, Hard_Score r)) <$> zip_with (score_row cfg) (zip rows sem) hs
    = zip rows hs.
Proof.
  revert sem hs. induction rows as [|r rows IH]; intros [|s sem] [|h hs];
    cbn; intros Hs Hh; try discriminate; [split; reflexivity|].
  destruct (IH sem hs) as [IH1 IH2]; [lia|lia|].
  rewrite IH1, IH2. split; reflexivity.
Qed.

Lemma fused_scores (cfg : weights) (paired : list (row * float)) (hs : list float) :
  Forall (λ r, Final_Score r
               = (hard cfg * Hard_Score r + semantic cfg * Semantic_Score r)%float)
    (zip_with (score_row cfg) paired hs).
Proof.
  revert hs. induction paired as [|p paired IH]; intros [|h hs]; cbn;
    constructor; [reflexivity|apply IH].
Qed.

(** A search that returns a table, read backwards. *)
Lemma score_table_inv ext prefs embeddings w scored w1 :
  score_table ext prefs embeddings w = (Returned scored, w1) →
  ∃ q query_emb hard_scores,
    prefs !! "query" = Some q
    ∧ model_encode_query ext q = Returned query_emb
    ∧ length (util_cos_sim ext query_emb embeddings) = length (rows_of (data (eng w)))
    ∧ (_calculate_hard_scores prefs w).1 = Returned hard_scores
    ∧ length hard_scores = length (rows_of (data (eng w)))
    ∧ scored = zip_with (score_row (WEIGHTS (self_config (eng w))))
                 (zip (rows_of (data (eng w))) (util_cos_sim ext query_emb embeddings))
                 hard_scores
    ∧ w1 = after_similarity q w.
Proof.
  intros H. unfold score_table in H.
  apply bind_Returned in H as (q & w2 & Hq & H).
  apply getitem_Returned in Hq as [-> Hq].
  apply bind_Returned in H as ([] & w2 & Hemit & H).
  injection Hemit as <-.
  apply bind_Returned in H as (query_emb & w2 & Hencode & H).
  apply lift_Returned in Hencode as [-> Hencode].
  apply bind_Returned in H as ([] & w2 & Hemit & H).
  injection Hemit as <-.
  apply bind_Returned in H as (e & w2 & He & H).
  injection He as <- <-.
  apply bind_Returned in H as (with_semantic & w2 & Hassign & H).
  unfold assign_list in Hassign. cbn [eng data] in Hassign.
  destruct (length _ =? length _)%nat eqn:Hlen; [|discriminate Hassign].
  injection Hassign as <- <-. apply Nat.eqb_eq in Hlen.
  apply bind_Returned in H as (hs & w2 & Hhard & H).
  pose proof Hhard as Hhard'.
  apply hard_scores_Returned in Hhard' as [-> Hhs]. cbn [eng data] in Hhs.
  apply bind_Returned in H as (e & w2 & He & H).
  injection He as <- <-. injection H as <- <-.
  exists q, query_emb, hs.
  split; [exact Hq|]. split; [exact Hencode|]. split; [symmetry; exact Hlen|].
  split.
  { destruct (reads_engine_only_hard_scores prefs w
                {| eng := eng w;
                   trace := (trace w ++ [ModelEncode [q]])
                            ++ [LogInfo ComputingSimilarity] |} eq_refl) as [Hout _].
    rewrite Hout, Hhard. reflexivity. }
  split; [exact Hhs|]. split; reflexivity.
Qed.

(** X8: a search that returns a table has called the model exactly once,
    with the text of the query alone: the descriptions of the corpus are
    not encoded again.  Apart from that call and one log record it leaves
    the world as it was. *)
Theorem search_encodes_only_the_query (ext : libs) (prefs : gmap string value)
    (w w1 : world) (res : list scored_row) :
  run_search ext prefs w = (Returned (Table res), w1) →
  ∃ q, prefs !! "query" = Some q
       ∧ eng w1 = eng w
       ∧ trace w1 = (trace w ++ [ModelEncode [q]; LogInfo ComputingSimilarity])%list.
Proof.
  intros Hrun.
  apply run_search_Table in Hrun as (embeddings & scored & _ & _ & Hscored & _).
  apply score_table_inv in Hscored as (q & _ & _ & Hq & _ & _ & _ & _ & _ & ->).
  exists q. split; [exact Hq|]. split; [reflexivity|].
  cbn. rewrite <- app_assoc. reflexivity.
Qed.

Lemma search_encodes_only_the_query_witness :
  ∃ q, demo_prefs !! "query" = Some q
       ∧ eng (run_search (demo_libs []) demo_prefs demo_world).2 = eng demo_world
       ∧ trace (run_search (demo_libs []) demo_prefs demo_world).2
         = (trace demo_world ++ [ModelEncode [q]; LogInfo ComputingSimilarity])%list.
Proof.
  apply (search_encodes_only_the_query (demo_libs []) demo_prefs demo_world
           (run_search (demo_libs []) demo_prefs demo_world).2
           (stable_sort_desc demo_scored)).
  vm_compute. reflexivity.
Defined.

(** X9: the fusion.  In the table that a search returns, every row's
    final score is the hard weight times its hard score plus the semantic
    weight times its semantic score, in binary64 arithmetic; the semantic
    score of a corpus row is the similarity at that row's position in the
    list the library returned, and its hard score is the one
    [_calculate_hard_scores] computed at that position.  (The sort is
    only asked to return the rows it was given.) *)
Theorem search_fuses_scores_by_position (ext : libs) (prefs : gmap string value)
    (w w1 : world) (res : list scored_row) :
  (∀ l, df_sort_values_desc ext l ≡ₚ l) →
  run_search ext prefs w = (Returned (Table res), w1) →
  ∃ q query_emb embeddings hard_scores,
    prefs !! "query" = Some q
    ∧ model_encode_query ext q = Returned query_emb
    ∧ corpus_embeddings (eng w) = Some embeddings
    ∧ (_calculate_hard_scores prefs w).1 = Returned hard_scores
    ∧ Forall (λ r, Final_Score r
                   = (hard (WEIGHTS (self_config (eng w))) * Hard_Score r
                      + semantic (WEIGHTS (self_config (eng w))) * Semantic_Score r)%float)
        res
    ∧ (λ r, (listing r, Semantic_Score r)) <$> res
      ≡ₚ zip (rows_of (data (eng w))) (util_cos_sim ext query_emb embeddings)
    ∧ (λ r, (listing r, Hard_Score r)) <$> res
      ≡ₚ zip (rows_of (data (eng w))) hard_scores.
Proof.
  intros Hsort Hrun.
  apply run_search_Table in Hrun as (embeddings & scored & _ & Hemb & Hscored & ->).
  apply score_table_inv in Hscored
    as (q & query_emb & hs & Hq & Hencode & Hlen & Hhard & Hhs & -> & _).
  exists q, query_emb, embeddings, hs.
  split; [exact Hq|]. split; [exact Hencode|]. split; [exact Hemb|].
  split; [exact Hhard|].
  destruct (paired_scores (WEIGHTS (self_config (eng w))) _ _ _ Hlen Hhs) as [Hsem Hhd].
  split; [|split].
  - rewrite Hsort. apply fused_scores.
  - rewrite Hsort, Hsem. reflexivity.
  - rewrite Hsort, Hhd. reflexivity.
Qed.

Lemma search_fuses_scores_by_position_witness :
  ∃ q query_emb embeddings hard_scores,
    demo_prefs !! "query" = Some q
    ∧ model_encode_query (demo_libs []) q = Returned query_emb
    ∧ corpus_embeddings (eng demo_world) = Some embeddings
    ∧ (_calculate_hard_scores demo_prefs demo_world).1 = Returned hard_scores
    ∧ Forall (λ r, Final_Score r
                   = (hard (WEIGHTS (self_config (eng demo_world))) * Hard_Score r
                      + semantic (WEIGHTS (self_config (eng demo_world)))
                        * Semantic_Score r)%float)
        (stable_sort_desc demo_scored)
    ∧ (λ r, (listing r, Semantic_Score r)) <$> stable_sort_desc demo_scored
      ≡ₚ zip (rows_of (data (eng demo_world)))
           (util_cos_sim (demo_libs []) query_emb embeddings)
    ∧ (λ r, (listing r, Hard_Score r)) <$> stable_sort_desc demo_scored
      ≡ₚ zip (rows_of (data (eng demo_world))) hard_scores.
Proof.
  apply (search_fuses_scores_by_position (demo_libs []) demo_prefs demo_world
           (run_search (demo_libs []) demo_prefs demo_world).2
           (stable_sort_desc demo_scored)).
  - intros l. apply stable_sort_desc_perm.
  - vm_compute. reflexivity.
Defined.

(** [run_search] on a ready engine, up to the point where the scores are
    computed. *)
Lemma run_search_steps ext prefs w rows embeddings q query_emb :
  data (eng w) = Table rows →
  rows ≠ [] →
  corpus_embeddings (eng w) = Some embeddings →
  prefs !! "query" = Some q →
  model_encode_query ext q = Returned query_emb →
  run_search ext prefs w =
  if (length rows =? length (util_cos_sim ext query_emb embeddings))%nat
  then
    match _calculate_hard_scores prefs (after_similarity q w) with
    | (Returned hard_scores, w') =>
        (Returned
           (Table
              (df_sort_values_desc ext
                 (zip_with (score_row (WEIGHTS (self_config (eng w'))))
                    (zip rows (util_cos_sim ext query_emb embeddings))
                    hard_scores))), w')
    | (Raised e, w') => (Raised e, w')
    end
  else (Raised ValueError, after_similarity q w).
Proof.
  intros Hdata Hrows Hemb Hq Hencode.
  unfold run_search. rewrite run_bind. cbn [self]. rewrite Hdata, Hemb.
  destruct rows as [|r rows]; [contradiction|]. cbn [empty].
  rewrite run_bind. unfold score_table.
  rewrite run_bind, (run_getitem _ _ _ _ Hq).
  rewrite run_bind. cbn [emit].
  rewrite run_bind. unfold lift at 1. rewrite Hencode.
  rewrite run_bind. cbn [emit].
  rewrite run_bind. cbn [self eng]. rewrite Hdata. cbn [rows_of].
  rewrite run_bind. unfold assign_list.
  destruct (length (r :: rows) =? length _)%nat; [|reflexivity].
  unfold mret at 1, M_ret at 1. rewrite run_bind.
  unfold after_similarity, logged. cbn [eng trace].
  destruct (_calculate_hard_scores prefs _) as [[hs|e] w']; reflexivity.
Qed.

(** X10: what a search on a ready engine does when it cannot get the
    embedding of the query.  Without a ["query"] key it raises KeyError
    before the model is called and before anything is logged; when the
    model fails, the model's own error comes out, after a single call and
    with no retry.  In both cases the engine is as before. *)
Theorem search_fails_without_query_embedding (ext : libs)
    (prefs : gmap string value) (w : world) (embeddings : list vec) :
  empty (data (eng w)) = false →
  corpus_embeddings (eng w) = Some embeddings →
  (prefs !! "query" = None →
   run_search ext prefs w = (Raised (KeyError "query"), w))
  ∧ (∀ q e, prefs !! "query" = Some q →
            model_encode_query ext q = Raised e →
            run_search ext prefs w = (Raised e, logged (ModelEncode [q]) w)).
Proof.
  intros Hrows Hemb. split.
  - intros Hq. unfold run_search. rewrite run_bind. cbn [self].
    rewrite Hrows, Hemb, run_bind. unfold score_table.
    rewrite run_bind, (run_getitem_missing _ _ _ Hq). reflexivity.
  - intros q e Hq Hencode. unfold run_search. rewrite run_bind. cbn [self].
    rewrite Hrows, Hemb, run_bind. unfold score_table.
    rewrite run_bind, (run_getitem _ _ _ _ Hq).
    rewrite run_bind. cbn [emit].
    rewrite run_bind. unfold lift at 1. rewrite Hencode. reflexivity.
Qed.

Lemma search_fails_without_query_embedding_witness :
  run_search (model_failing (LibraryError "RuntimeError") (demo_libs []))
    demo_prefs demo_world
  = (Raised (LibraryError "RuntimeError"),
     logged (ModelEncode [VStr "sunny modern flat"]) demo_world).
Proof.
  refine (proj2 (search_fails_without_query_embedding
                   (model_failing (LibraryError "RuntimeError") (demo_libs []))
                   demo_prefs demo_world
                   (default [] (corpus_embeddings (eng demo_world))) _ _)
            (VStr "sunny modern flat") (LibraryError "RuntimeError") _ _).
  - reflexivity.
  - reflexivity.
  - reflexivity.
  - reflexivity.
Defined.

(** X11: when the library returns a number of similarities that is not
    the number of rows (as it does when the embeddings held are those of
    another table), a search on a ready engine raises ValueError at the
    assignment of the semantic column, after the model was called and
    before any score is computed. *)
Theorem search_rejects_misaligned_similarities (ext : libs)
    (prefs : gmap string value) (w : world) (rows : list row)
    (embeddings : list vec) (q : value) (query_emb : vec) :
  data (eng w) = Table rows →
  rows ≠ [] →
  corpus_embeddings (eng w) = Some embeddings →
  prefs !! "query" = Some q →
  model_encode_query ext q = Returned query_emb →
  length (util_cos_sim ext query_emb embeddings) ≠ length rows →
  run_search ext prefs w = (Raised ValueError, after_similarity q w).
Proof.
  intros Hdata Hrows Hemb Hq Hencode Hlen.
  rewrite (run_search_steps ext prefs w rows embeddings q query_emb
             Hdata Hrows Hemb Hq Hencode).
  destruct (length rows =? length _)%nat eqn:Heq; [|reflexivity].
  apply Nat.eqb_eq in Heq. congruence.
Qed.

Lemma search_rejects_misaligned_similarities_witness :
  run_search (demo_libs []) demo_prefs stale_world
  = (Raised ValueError, after_similarity (VStr "sunny modern flat") stale_world).
Proof.
  apply (search_rejects_misaligned_similarities (demo_libs []) demo_prefs stale_world
           (rows_of (data (eng stale_world)))
           (default [] (corpus_embeddings (eng stale_world)))
           (VStr "sunny modern flat") (demo_embed (VStr "sunny modern flat"))).
  - reflexivity.
  - vm_compute. discriminate.
  - reflexivity.
  - reflexivity.
  - reflexivity.
  - vm_compute. discriminate.
Defined.

(** * Further properties of the [/search] route *)

Lemma startup_unfold (ext : libs) :
  startup ext = load_source ext "data/apartments_for_rent.csv" (fresh CONFIG).
Proof. reflexivity. Qed.

(** X12: the server starts even when its CSV file cannot be read or lacks
    one of the five columns, and from then on every search request is
    answered with HTTP 500 "Data source not loaded."; the model is not
    called and nothing is logged for the request. *)
Theorem unreadable_file_means_http_500 (ext : libs) (request : SearchRequest) :
  (∃ e, pd_read_csv ext "data/apartments_for_rent.csv" = Raised e)
  ∨ (∃ name, pd_read_csv ext "data/apartments_for_rent.csv"
             = Returned (LacksColumn name)) →
  (startup ext).1 = Returned tt
  ∧ perform_search ext request (startup ext).2
    = (Raised (HTTPException 500 "Data source not loaded."), (startup ext).2).
Proof.
  intros Hread. rewrite startup_unfold.
  destruct (load_source_unreadable ext _ (fresh CONFIG) Hread) as [Hout Heng].
  split; [exact Hout|].
  apply perform_search_not_loaded. rewrite Heng. reflexivity.
Qed.

Lemma unreadable_file_means_http_500_witness :
  let ext := without_file (LibraryError "FileNotFoundError") (demo_libs []) in
  (startup ext).1 = Returned tt
  ∧ perform_search ext demo_request (startup ext).2
    = (Raised (HTTPException 500 "Data source not loaded."), (startup ext).2).
Proof.
  apply (unreadable_file_means_http_500
           (without_file (LibraryError "FileNotFoundError") (demo_libs []))
           demo_request).
  left. eexists. reflexivity.
Defined.

(** X13: one listing with an infinite bedroom count among the first 1000
    lines breaks every search request.  The build fails after the table
    is in place, so the route's own check passes, [run_search] reports
    "no data" with an empty frame, and the route raises KeyError on its
    missing column instead of answering HTTP 500. *)
Theorem infinite_bedrooms_break_every_request (ext : libs) (request : SearchRequest)
    (lines : list raw_row) (i : nat) (l : raw_row) :
  pd_read_csv ext "data/apartments_for_rent.csv" = Returned (Columns lines) →
  lines !! i = Some l →
  (i < 1000)%nat →
  to_numeric ext (bedrooms l) = infinity ∨ to_numeric ext (bedrooms l) = neg_infinity →
  perform_search ext request (startup ext).2
  = (Raised (KeyError "Final_Score"),
     logged (LogError SearchFailedNoData) (startup ext).2).
Proof.
  intros Hread Hl Hi Hinf. rewrite startup_unfold.
  rewrite load_source_unfold.
  rewrite (load_try_infinite_bedrooms ext _ (fresh CONFIG) lines i l Hread Hl Hi Hinf).
  apply perform_search_without_embeddings; [|reflexivity].
  cbn. assert (Hrow : prepared ext lines !! i = Some (cleaned_row ext i l (bedrooms l))).
  { apply prepared_lookup_iff. split; [exact Hi|]. exists l. split; [exact Hl|reflexivity]. }
  destruct (prepared ext lines); [rewrite lookup_nil in Hrow; discriminate Hrow|reflexivity].
Qed.

Lemma infinite_bedrooms_break_every_request_witness :
  let ext := demo_libs [listing_0; listing_endless] in
  perform_search ext demo_request (startup ext).2
  = (Raised (KeyError "Final_Score"),
     logged (LogError SearchFailedNoData) (startup ext).2).
Proof.
  apply (infinite_bedrooms_break_every_request
           (demo_libs [listing_0; listing_endless]) demo_request
           [listing_0; listing_endless] 1 listing_endless).
  - reflexivity.
  - reflexivity.
  - lia.
  - left. reflexivity.
Defined.

(** X14: the answer of the route holds at most ten rows, while the count
    it reports is the number of all rows of the ranking whose final score
    is at or above the threshold: the list is as long as the smaller of
    ten and that count, and the count never exceeds the size of the
    corpus.  For a request whose threshold is null the route still
    answers: the count is 0 and the list is empty.  (The sort is only
    asked to return the rows it was given.) *)
Theorem answer_is_capped_at_ten (ext : libs) (request : SearchRequest)
    (w w2 : world) (resp : response) :
  (∀ l, df_sort_values_desc ext l ≡ₚ l) →
  perform_search ext request w = (Returned resp, w2) →
  (∃ found,
     run_search ext (request_prefs request) w = (Returned (Table found), w2)
     ∧ total_matches_above_threshold resp
       = match threshold request with
         | Some t => length (filter (λ r, (t <=? Final_Score r)%float = true) found)
         | None => 0%nat
         end)
  ∧ length (results resp) = (10 `min` total_matches_above_threshold resp)%nat
  ∧ (total_matches_above_threshold resp ≤ length (rows_of (data (eng w))))%nat
  ∧ (threshold request = None → results resp = []).
Proof.
  intros Hsort Hroute.
  apply perform_search_Returned in Hroute as (found & Hfound & Htotal & Hres).
  destruct (run_search_rows ext _ w found w2 Hsort Hfound) as [_ Hlen].
  split; [|split; [|split]].
  - exists found. split; [exact Hfound|].
    rewrite Htotal. destruct (threshold request); reflexivity.
  - rewrite Hres, Htotal, length_take, length_fmap. reflexivity.
  - rewrite Htotal, <- Hlen.
    destruct (threshold request) as [t|]; cbn [rows_above length]; [|lia].
    apply length_filter.
  - intros Hnone. rewrite Hres, Hnone. reflexivity.
Qed.

Lemma answer_is_capped_at_ten_witness :
  let w2 := (perform_search (demo_libs []) null_request demo_world).2 in
  (∃ found,
     run_search (demo_libs []) (request_prefs null_request) demo_world
     = (Returned (Table found), w2)
     ∧ total_matches_above_threshold null_answer
       = match threshold null_request with
         | Some t => length (filter (λ r, (t <=? Final_Score r)%float = true) found)
         | None => 0%nat
         end)
  ∧ length (results null_answer)
    = (10 `min` total_matches_above_threshold null_answer)%nat
  ∧ (total_matches_above_threshold null_answer
     ≤ length (rows_of (data (eng demo_world))))%nat
  ∧ (threshold null_request = None → results null_answer = []).
Proof.
  apply (answer_is_capped_at_ten (demo_libs []) null_request demo_world
           (perform_search (demo_libs []) null_request demo_world).2 null_answer).
  - intros l. apply stable_sort_desc_perm.
  - vm_compute. reflexivity.
Defined.

Lemma fillna_no_missing (x v : value) : isna x = false → isna (fillna x v) = false.
Proof. intros Hx. unfold fillna. destruct (isna v) eqn:Hv; [exact Hx|exact Hv]. Qed.

Lemma fillna_float_no_missing (x : float) : is_nan (fillna_float x) = false.
Proof. unfold fillna_float. destruct (is_nan x) eqn:Hx; [reflexivity|exact Hx]. Qed.

Lemma fillna_row_no_missing (r : scored_row) : no_missing (fillna_row r).
Proof.
  unfold no_missing, fillna_row. cbn.
  repeat split;
    first [apply fillna_no_missing; reflexivity | apply fillna_float_no_missing].
Qed.

(** X15: for a request with a threshold, every row in the answer of the
    route is a row of the ranking whose final score is at or above that
    threshold, with its missing values replaced by 0: no cell and no
    score of the answer is NaN.  The rows keep the order of the
    ranking. *)
Theorem answer_rows_pass_the_threshold (ext : libs) (request : SearchRequest)
    (w w2 : world) (resp : response) (t : float) :
  threshold request = Some t →
  perform_search ext request w = (Returned resp, w2) →
  ∃ found,
    run_search ext (request_prefs request) w = (Returned (Table found), w2)
    ∧ Forall no_missing (results resp)
    ∧ Forall (λ r, ∃ r0, r0 ∈ found
                         ∧ (t <=? Final_Score r0)%float = true
                         ∧ r = fillna_row r0) (results resp)
    ∧ results resp `sublist_of` fillna_row <$> found.
Proof.
  intros Ht Hroute.
  apply perform_search_Returned in Hroute as (found & Hfound & _ & ->).
  rewrite Ht. cbn [rows_above].
  exists found. split; [exact Hfound|]. split; [|split].
  - apply Forall_take, Forall_fmap, Forall_forall. intros r _.
    apply fillna_row_no_missing.
  - apply Forall_take, Forall_fmap, Forall_forall. intros r Hr.
    apply list_elem_of_filter in Hr as [Hscore Hr].
    exists r. split; [exact Hr|]. split; [exact Hscore|reflexivity].
  - etransitivity; [apply sublist_take|].
    apply fmap_sublist, sublist_filter.
Qed.

Lemma answer_rows_pass_the_threshold_witness :
  ∃ found,
    run_search (demo_libs []) (request_prefs demo_request) demo_world
    = (Returned (Table found),
       (perform_search (demo_libs []) demo_request demo_world).2)
    ∧ Forall no_missing (results demo_answer)
    ∧ Forall (λ r, ∃ r0, r0 ∈ found
                         ∧ (0.5 <=? Final_Score r0)%float = true
                         ∧ r = fillna_row r0) (results demo_answer)
    ∧ results demo_answer `sublist_of` fillna_row <$> found.
Proof.
  apply (answer_rows_pass_the_threshold (demo_libs []) demo_request demo_world
           (perform_search (demo_libs []) demo_request demo_world).2 demo_answer
           0.5%float).
  - reflexivity.
  - vm_compute. reflexivity.
Defined.

(** * Properties of the command line *)

Lemma same_but_for_output_printing (out1 out2 : list printed) (s : session) :
  same_but_for_output (printing out1 s) (printing out2 s).
Proof. repeat split. Qed.




Lemma search_and_show_not_ready (ext : libs) (query : string) (max_p min_b : Z)
    (lines : list string) (next : world → session) (w : world) :
  not_ready (eng w) →
  search_and_show ext query max_p min_b lines next w
  = printing [TopFiveHeader]
      (stopped (Raised (KeyError "Price")) (logged (LogError SearchFailedNoData) w) lines).
Proof.
  intros Hnot. unfold search_and_show.
  rewrite (run_search_guard ext _ w Hnot). reflexivity.
Qed.

Ltac cli_cases :=
  repeat match goal with
    | |- context [String.eqb ?a "exit"] =>
        destruct (String.eqb a "exit") eqn:?
    | |- context [int_or ?bi ?t ?d] =>
        destruct (int_or bi t d) as [?|[]] eqn:?
    end.

Lemma cli_loop_not_ready (ext : libs) (bi : builtins) (lines : list string) (w : world) :
  not_ready (eng w) →
  Forall no_table (shown (cli_loop ext bi lines w))
  ∧ (status (cli_loop ext bi lines w) = Returned tt →
     ∃ query rest, lines = query :: rest ∧ is_exit bi query = true
                   ∧ unread (cli_loop ext bi lines w) = rest)
  ∧ (∀ query price_text bedrooms_text rest max_p min_b,
       lines = query :: price_text :: bedrooms_text :: rest →
       is_exit bi query = false →
       int_or bi price_text 2500 = Returned max_p →
       int_or bi bedrooms_text 2 = Returned min_b →
       status (cli_loop ext bi lines w) = Raised (KeyError "Price")).
Proof.
  intros Hnot. unfold is_exit.
  split; [|split].
  - destruct lines as [|query [|price_text [|bedrooms_text rest]]];
      cbn [cli_loop]; cli_cases; rewrite ?search_and_show_not_ready by exact Hnot; cbn; repeat constructor.
  - destruct lines as [|query lines1]; cbn [cli_loop]; [discriminate|].
    destruct (String.eqb _ "exit") eqn:Hexit.
    { intros _. exists query, lines1. repeat split. exact Hexit. }
    destruct lines1 as [|price_text [|bedrooms_text rest]];
      cbn iota; cli_cases; rewrite ?search_and_show_not_ready by exact Hnot; cbn; discriminate.
  - intros query price_text bedrooms_text rest max_p min_b -> Hquery Hprice Hbeds.
    cbn [cli_loop]. rewrite Hquery, Hprice, Hbeds, search_and_show_not_ready by exact Hnot.
    reflexivity.
Qed.

(** X17: when the CSV file named in the configuration cannot be read or
    lacks a column, the command line still prints its banner that the
    engine is ready, and then never shows a table: it ends normally only
    if the very first line typed is the exit word, and a first query with
    two well-formed limits ends the program with an uncaught KeyError
    from the selection of the columns to print. *)
Theorem cli_without_data_never_shows_a_table (ext : libs) (bi : builtins)
    (lines : list string) :
  (∃ e, pd_read_csv ext (FILE_PATH CONFIG) = Raised e)
  ∨ (∃ name, pd_read_csv ext (FILE_PATH CONFIG) = Returned (LacksColumn name)) →
  (∃ out, shown (cli_main ext bi lines) = Banner :: out ∧ Forall no_table out)
  ∧ (status (cli_main ext bi lines) = Returned tt →
     ∃ query rest, lines = query :: rest ∧ is_exit bi query = true
                   ∧ unread (cli_main ext bi lines) = rest)
  ∧ (∀ query price_text bedrooms_text rest max_p min_b,
       lines = query :: price_text :: bedrooms_text :: rest →
       is_exit bi query = false →
       int_or bi price_text 2500 = Returned max_p →
       int_or bi bedrooms_text 2 = Returned min_b →
       status (cli_main ext bi lines) = Raised (KeyError "Price")).
Proof.
  intros Hread. unfold cli_main. cbn zeta.
  destruct (load_source_unreadable ext (FILE_PATH CONFIG) (fresh CONFIG) Hread)
    as [_ Heng].
  assert (Hnot : not_ready (eng (load_source ext (FILE_PATH CONFIG) (fresh CONFIG)).2)).
  { rewrite Heng. left. reflexivity. }
  destruct (cli_loop_not_ready ext bi lines _ Hnot) as (Hshown & Hexit & Hcrash).
  split; [|split].
  - eexists. split; [reflexivity|exact Hshown].
  - exact Hexit.
  - exact Hcrash.
Qed.

Lemma cli_without_data_never_shows_a_table_witness :
  status (cli_main (without_file (LibraryError "FileNotFoundError") (demo_libs []))
            demo_builtins ["flat"; "3000"; "2"; "exit"])
  = Raised (KeyError "Price").
Proof.
  refine (proj2 (proj2 (cli_without_data_never_shows_a_table
                          (without_file (LibraryError "FileNotFoundError") (demo_libs []))
                          demo_builtins ["flat"; "3000"; "2"; "exit"] _))
            "flat" "3000" "2" ["exit"] 3000 2 _ _ _ _).
  - left. eexists. reflexivity.
  - reflexivity.
  - reflexivity.
  - reflexivity.
  - reflexivity.
Defined.

Lemma search_and_show_Returned (ext : libs) (query : string) (max_p min_b : Z)
    (lines : list string) (next : world → session) (w : world) :
  status (search_and_show ext query max_p min_b lines next w) = Returned tt →
  ∃ w', status (next w') = Returned tt
        ∧ unread (search_and_show ext query max_p min_b lines next w)
          = unread (next w').
Proof.
  unfold search_and_show.
  destruct (run_search ext _ w) as [[final_ranked|e] w']; [|discriminate].
  destruct (top_five final_ranked) as [rows|e]; [|discriminate].
  cbn. intros H. exists w'. split; [exact H|reflexivity].
Qed.

Lemma cli_loop_exit_bounded (ext : libs) (bi : builtins) (n : nat) :
  ∀ lines w,
    (length lines ≤ n)%nat →
    status (cli_loop ext bi lines w) = Returned tt →
    ∃ before query,
      lines = (before ++ query :: unread (cli_loop ext bi lines w))%list
      ∧ is_exit bi query = true.
Proof.
  unfold is_exit.
  induction n as [|n IH]; intros lines w Hlen.
  { destruct lines; [discriminate|cbn in Hlen; lia]. }
  destruct lines as [|query lines1]; cbn [cli_loop]; [discriminate|].
  destruct (String.eqb _ "exit") eqn:Hexit.
  { intros _. exists [], query. split; [reflexivity|exact Hexit]. }
  destruct lines1 as [|price_text lines2]; [discriminate|].
  cbn in Hlen.
  destruct (int_or bi price_text 2500) as [max_p|[]]; try discriminate.
  - destruct lines2 as [|bedrooms_text lines3]; [discriminate|].
    cbn in Hlen.
    destruct (int_or bi bedrooms_text 2) as [min_b|[]]; try discriminate;
      cbn [status unread printing]; intros Hstatus;
      apply search_and_show_Returned in Hstatus as (w' & Hnext & ->);
      (destruct (IH lines3 w' ltac:(lia) Hnext) as (before & q & Hlines & Hq));
      exists (query :: price_text :: bedrooms_text :: before), q;
      (split; [cbn; rewrite <- Hlines; reflexivity|exact Hq]).
  - cbn [status unread printing]. intros Hstatus.
    apply search_and_show_Returned in Hstatus as (w' & Hnext & ->).
    destruct (IH lines2 w' ltac:(lia) Hnext) as (before & q & Hlines & Hq).
    exists (query :: price_text :: before), q.
    split; [cbn; rewrite <- Hlines; reflexivity|exact Hq].
Qed.

(** X18: the loop of the command line ends normally in one way only: by
    a line, read at the description prompt, whose lower-case form is
    "exit".  It reads the input up to and including that line and leaves
    every later line unread; on input without such a line it ends with an
    exception. *)
Theorem cli_loop_ends_only_on_exit (ext : libs) (bi : builtins)
    (lines : list string) (w : world) :
  status (cli_loop ext bi lines w) = Returned tt →
  ∃ before query,
    lines = (before ++ query :: unread (cli_loop ext bi lines w))%list
    ∧ is_exit bi query = true.
Proof. apply (cli_loop_exit_bounded ext bi (length lines)). lia. Qed.

Lemma cli_loop_ends_only_on_exit_witness :
  ∃ before query,
    ["flat"; "3000"; "2"; "EXIT"; "more"]
    = (before ++ query
         :: unread (cli_loop (demo_libs []) demo_builtins
                      ["flat"; "3000"; "2"; "EXIT"; "more"] demo_world))%list
    ∧ is_exit demo_builtins query = true.
Proof.
  apply (cli_loop_ends_only_on_exit (demo_libs []) demo_builtins
           ["flat"; "3000"; "2"; "EXIT"; "more"] demo_world).
  vm_compute. reflexivity.
Defined.

Lemma search_and_show_at_most_five (ext : libs) (query : string) (max_p min_b : Z)
    (lines : list string) (next : world → session) (w : world) :
  (∀ w', Forall at_most_five (shown (next w'))) →
  Forall at_most_five (shown (search_and_show ext query max_p min_b lines next w)).
Proof.
  intros Hnext. unfold search_and_show.
  destruct (run_search ext _ w) as [[final_ranked|e] w']; [|constructor].
  destruct final_ranked as [|rows]; cbn; [repeat constructor|].
  constructor; [exact I|]. constructor; [|apply Hnext].
  cbn. rewrite length_take. lia.
Qed.

Lemma cli_loop_at_most_five (ext : libs) (bi : builtins) (n : nat) :
  ∀ lines w,
    (length lines ≤ n)%nat →
    Forall at_most_five (shown (cli_loop ext bi lines w)).
Proof.
  induction n as [|n IH]; intros lines w Hlen.
  { destruct lines; [repeat constructor|cbn in Hlen; lia]. }
  destruct lines as [|query lines1]; cbn [cli_loop]; [repeat constructor|].
  destruct (String.eqb _ "exit"); [repeat constructor|].
  destruct lines1 as [|price_text lines2]; [repeat constructor|].
  cbn in Hlen.
  destruct (int_or bi price_text 2500) as [max_p|[]]; try (repeat constructor).
  - destruct lines2 as [|bedrooms_text lines3]; [repeat constructor|].
    cbn in Hlen.
    destruct (int_or bi bedrooms_text 2) as [min_b|[]]; try (repeat constructor);
      cbn [shown printing app]; repeat (constructor; [exact I|]);
      apply search_and_show_at_most_five; intros w'; apply IH; lia.
  - cbn [shown printing app]. repeat (constructor; [exact I|]).
    apply search_and_show_at_most_five. intros w'. apply IH. lia.
Qed.

(** X19: whatever is typed, every table the command line prints has at
    most five rows. *)
Theorem cli_shows_at_most_five_rows (ext : libs) (bi : builtins)
    (lines : list string) :
  Forall at_most_five (shown (cli_main ext bi lines)).
Proof.
  unfold cli_main. cbn zeta. cbn [shown printing app].
  constructor; [exact I|].
  apply (cli_loop_at_most_five ext bi (length lines)). lia.
Qed.

(** * The similarity score *)

Lemma dot_product_cons x a y b :
  dot_product (x :: a) (y :: b) = (x * y + dot_product a b)%R.
Proof. reflexivity. Qed.

Lemma dot_product_scale (A B : R) (a b : list R) :
  A ≠ 0%R → B ≠ 0%R →
  dot_product ((λ x, x / A)%R <$> a) ((λ x, x / B)%R <$> b)
  = (dot_product a b / (A * B))%R.
Proof.
  intros HA HB. revert b.
  induction a as [|x a IH]; intros [|y b]; cbn [fmap list_fmap];
    try (unfold dot_product; cbn; field; split; assumption).
  rewrite !dot_product_cons, IH. field. split; assumption.
Qed.

Lemma dot_product_self_nonneg a : (0 <= dot_product a a)%R.
Proof.
  induction a as [|x a IH]; [unfold dot_product; cbn; lra|].
  rewrite dot_product_cons. nra.
Qed.




Lemma magnitude_sqr a : (magnitude a * magnitude a = dot_product a a)%R.
Proof. apply sqrt_sqrt, dot_product_self_nonneg. Qed.


Lemma eps_pos : (0 < eps)%R.
Proof. unfold eps. apply Rinv_0_lt_compat, pow_lt. lra. Qed.

Lemma clamp_pos a : (0 < Rmax (magnitude a) eps)%R.
Proof. apply Rlt_le_trans with eps; [apply eps_pos|apply Rmax_r]. Qed.

Lemma normalized_product a b :
  dot_product (normalize a) (normalize b)
  = (dot_product a b / (Rmax (magnitude a) eps * Rmax (magnitude b) eps))%R.
Proof.
  unfold normalize. apply dot_product_scale; apply Rgt_not_eq, clamp_pos.
Qed.



Lemma normalized_product_small a :
  (magnitude a < eps)%R →
  dot_product (normalize a) (normalize a)
  = ((magnitude a / eps) * (magnitude a / eps))%R.
Proof.
  intros Hsmall. rewrite normalized_product, Rmax_right by lra.
  rewrite <- magnitude_sqr. pose proof eps_pos. field. lra.
Qed.






(** Two identical vectors of magnitude 1e-13 score 0.01. *)
Example identical_short_vectors :
  cos_sim [(eps / 10)%R] [(eps / 10)%R] = Returned (/ 100)%R.
Proof.
  unfold cos_sim. cbn [length Nat.eqb]. f_equal.
  pose proof eps_pos as He.
  assert (Hm : magnitude [(eps / 10)%R] = (eps / 10)%R).
  { unfold magnitude, dot_product. cbn.
    replace (eps / 10 * (eps / 10) + 0)%R with (Rsqr (eps / 10)) by (unfold Rsqr; ring).
    apply sqrt_Rsqr. lra. }
  rewrite normalized_product_small by (rewrite Hm; lra).
  rewrite Hm. field. lra.
Qed.
